(** * SES3D field reader: a shallow embedding of [TOOLS/ses3d_fields.py]

    The development follows the class [ses3d_fields]: the setup record and
    [read_setup], the GLL table [get_GLL], the coordinate lines built by
    [make_coordinates], the file names of [compose_filenames], the binary
    reader [read_single_box] with its axis reordering, and the box loop of
    [plot_depth_slice].

    Modelling conventions.
    - Python exceptions are values of [exn]; a computation that may raise
      has type [result A].
    - numpy arrays are strided views over a flat buffer, as in numpy itself:
      a shape, one stride per axis (counted in elements) and the buffer.
    - The 32-bit field values are IEEE-754 binary32 numbers ([spec_float]
      with precision 24 and exponent bound 128), decoded from the bytes of
      the file.
    - The 64-bit coordinates (theta, phi, z, radius) are IEEE-754 binary64
      numbers, each held as the rational it denotes; every sum, difference,
      product and quotient of the source is rounded to the nearest binary64
      number, ties to even ([F64.round]), subnormal numbers included.
      Infinities, NaN and the sign of zero do not occur in this model: the
      exponent is unbounded above, so a result beyond 1.8e308 is rounded
      like any other.  The integers that enter float arithmetic are array
      sizes and loop counters, converted without error (they are far below
      2^53). *)

From Stdlib Require Import ZArith QArith Qabs Qround Qpower Qreduction.
From Stdlib Require Import List String Ascii Bool Lia.
From Stdlib Require Import Permutation Arith Lqa.
From Stdlib Require Import DecimalString.
From Stdlib Require DecimalPos DecimalZ.
From Stdlib Require Import Floats.SpecFloat.
From Stdlib Require Strings.Byte.
Import ListNotations.

Local Open Scope Z_scope.

(* ================================================================== *)
(** ** Exceptions and the error monad *)
(* ================================================================== *)

(** The built-in exceptions the module can run into.  The source defines no
    exception class of its own and contains no [raise] statement. *)
Inductive exn : Type :=
| IOError            (* open() of a missing file *)
| TypeError          (* np.ndarray: buffer is too small for requested array *)
| ValueError         (* numpy: bad axis, negative dimension, size mismatch, empty reduction *)
| IndexError         (* subscript out of range *)
| AttributeError     (* attribute never set on the object *)
| UnboundLocalError  (* local variable referenced before assignment *)
| ZeroDivisionError  (* division or modulo by zero *)
| OverflowError.     (* numpy: arange: overflow while computing length *)

Definition exn_name (e : exn) : string :=
  match e with
  | IOError => "IOError"
  | TypeError => "TypeError"
  | ValueError => "ValueError"
  | IndexError => "IndexError"
  | AttributeError => "AttributeError"
  | UnboundLocalError => "UnboundLocalError"
  | ZeroDivisionError => "ZeroDivisionError"
  | OverflowError => "OverflowError"
  end.

Inductive result (A : Type) : Type :=
| Ok (a : A)
| Raise (e : exn).

Arguments Ok {A} a.
Arguments Raise {A} e.

Definition bind {A B : Type} (m : result A) (k : A -> result B) : result B :=
  match m with
  | Ok a => k a
  | Raise e => Raise e
  end.

Declare Scope py_scope.
Delimit Scope py_scope with py.
Notation "x <- m ;; k" := (bind m (fun x => k))
  (at level 61, m at next level, right associativity) : py_scope.

(** The computation stops with an exception of the class called [name]. *)
Definition raises_named {A : Type} (m : result A) (name : string) : Prop :=
  exists e, m = Raise e /\ exn_name e = name.

(** An attribute that [__init__] may or may not have set. *)
Definition getattr {A : Type} (a : option A) : result A :=
  match a with
  | Some v => Ok v
  | None => Raise AttributeError
  end.

(** A local variable that is assigned on some paths only. *)
Definition local {A : Type} (a : option A) : result A :=
  match a with
  | Some v => Ok v
  | None => Raise UnboundLocalError
  end.

(** Python's [x in list_of_strings]. *)
Definition str_in (x : string) (l : list string) : bool :=
  existsb (String.eqb x) l.

(** [str(n)] for an integer. *)
Definition str (n : Z) : string :=
  NilZero.string_of_int (Z.to_int n).

(* ================================================================== *)
(** ** numpy arrays as strided views *)
(* ================================================================== *)

(** Item types with a filler value for reads outside a buffer (which a
    view built by [np.ndarray] never performs). *)
Class Default (T : Type) : Type := dflt : T.

#[export] Instance Default_float : Default spec_float := S754_zero false.

Record ndarray (T : Type) : Type := mk_ndarray {
  shape : list nat;
  strides : list nat;     (* in elements, not bytes *)
  buffer : list T
}.

Arguments mk_ndarray {T} shape strides buffer.
Arguments shape {T} n.
Arguments strides {T} n.
Arguments buffer {T} n.

Local Open Scope nat_scope.

Definition size_of (shp : list nat) : nat := fold_right Nat.mul 1 shp.

(** Strides of a Fortran-ordered (first index fastest) array. *)
Fixpoint strides_F_from (acc : nat) (shp : list nat) : list nat :=
  match shp with
  | [] => []
  | d :: ds => acc :: strides_F_from (acc * d) ds
  end.

Definition strides_F (shp : list nat) : list nat := strides_F_from 1 shp.

(** Strides of a C-ordered (last index fastest) array. *)
Fixpoint strides_C (shp : list nat) : list nat :=
  match shp with
  | [] => []
  | _ :: ds => size_of ds :: strides_C ds
  end.

Fixpoint dot (idx str : list nat) : nat :=
  match idx, str with
  | i :: idx', s :: str' => i * s + dot idx' str'
  | _, _ => 0
  end.

Fixpoint in_bounds (idx shp : list nat) : bool :=
  match idx, shp with
  | [], [] => true
  | i :: idx', d :: shp' => (i <? d) && in_bounds idx' shp'
  | _, _ => false
  end.

(** Element access without bounds check (the view's address arithmetic). *)
Definition item_at {T : Type} `{Default T} (a : ndarray T) (idx : list nat) : T :=
  nth (dot idx (strides a)) (buffer a) dflt.

(** [a[i0, i1, ...]] with one index per axis; [None] stands for IndexError. *)
Definition getitem {T : Type} (a : ndarray T) (idx : list nat) : option T :=
  if in_bounds idx (shape a) then nth_error (buffer a) (dot idx (strides a))
  else None.

(** All indices of a shape in C order, as [np.ndindex] yields them. *)
Fixpoint ndindex (shp : list nat) : list (list nat) :=
  match shp with
  | [] => [[]]
  | d :: ds => flat_map (fun i => map (cons i) (ndindex ds)) (seq 0 d)
  end.

(** [a.transpose(axes)]: a view with permuted shape and strides. *)
Definition transpose {T : Type} (a : ndarray T) (axes : list nat) : ndarray T :=
  mk_ndarray (map (fun ax => nth ax (shape a) 0) axes)
             (map (fun ax => nth ax (strides a) 0) axes)
             (buffer a).

(** [list.remove(x)] on a list of numbers: drops the first occurrence. *)
Fixpoint list_remove (x : nat) (l : list nat) : list nat :=
  match l with
  | [] => []
  | y :: l' => if x =? y then l' else y :: list_remove x l'
  end.

(** [list.insert(i, x)]. *)
Definition list_insert (i x : nat) (l : list nat) : list nat :=
  firstn i l ++ x :: skipn i l.

(** [np.rollaxis(a, axis, start)], after numpy/core/numeric.py:
<<
    n = a.ndim
    if axis < 0: axis += n
    if start < 0: start += n
    if not (0 <= axis < n): raise ValueError
    if not (0 <= start < n + 1): raise ValueError
    if axis < start: start -= 1
    if axis == start: return a
    axes = list(range(0, n)); axes.remove(axis); axes.insert(start, axis)
    return a.transpose(axes)
>> *)
Definition rollaxis {T : Type} (a : ndarray T) (axis start : Z)
  : result (ndarray T) :=
  let n := Z.of_nat (List.length (shape a)) in
  let axis := if (axis <? 0)%Z then (axis + n)%Z else axis in
  let start := if (start <? 0)%Z then (start + n)%Z else start in
  if negb ((0 <=? axis)%Z && (axis <? n)%Z) then Raise ValueError
  else if negb ((0 <=? start)%Z && (start <? n + 1)%Z) then Raise ValueError
  else
    let start := if (axis <? start)%Z then (start - 1)%Z else start in
    if (axis =? start)%Z then Ok a
    else
      let axes := seq 0 (List.length (shape a)) in
      let axes := list_remove (Z.to_nat axis) axes in
      let axes := list_insert (Z.to_nat start) (Z.to_nat axis) axes in
      Ok (transpose a axes).

(** [a.reshape(new_shape, order="C")]: the elements are read in C index
    order and numbered in C order under the new shape.  numpy returns a view
    of the old buffer when the strides allow it and a copy otherwise; the
    two are indistinguishable by indexing, which is all the module does with
    the result.  The model always builds the C-ordered buffer, and the
    properties below speak of the shape and of [getitem] only. *)
Definition reshape_C {T : Type} `{Default T} (a : ndarray T) (new_shape : list nat)
  : result (ndarray T) :=
  if size_of new_shape =? size_of (shape a) then
    Ok (mk_ndarray new_shape (strides_C new_shape)
                   (map (item_at a) (ndindex (shape a))))
  else Raise ValueError.

(** Element-wise unary and binary operations on equally laid out arrays. *)
Definition np_map {T : Type} (f : T -> T) (a : ndarray T) : ndarray T :=
  mk_ndarray (shape a) (strides a) (map f (buffer a)).

Definition np_map2 {T : Type} (f : T -> T -> T) (a b : ndarray T) : ndarray T :=
  mk_ndarray (shape a) (strides a)
             (map (fun p => f (fst p) (snd p)) (combine (buffer a) (buffer b))).

Local Close Scope nat_scope.
Local Open Scope Z_scope.

(* ================================================================== *)
(** ** Binary32 field values *)
(* ================================================================== *)

Module F32.

Definition prec : Z := 24.
Definition emax : Z := 128.

(** The value denoted by a 32-bit IEEE-754 pattern: sign bit 31, biased
    exponent in bits 30..23, fraction in bits 22..0. *)
Definition of_bits (w : Z) : spec_float :=
  let s := Z.testbit w 31 in
  let e := Z.land (Z.shiftr w 23) 255 in
  let m := Z.land w (2 ^ 23 - 1) in
  if e =? 0 then
    match m with
    | Zpos p => S754_finite s p (-149)
    | _ => S754_zero s
    end
  else if e =? 255 then
    match m with
    | Z0 => S754_infinity s
    | _ => S754_nan
    end
  else
    match m + 2 ^ 23 with
    | Zpos p => S754_finite s p (e - 150)
    | _ => S754_nan
    end.

Definition byte_val (b : Byte.byte) : Z := Z.of_N (Byte.to_N b).

(** Four consecutive bytes of the file, least significant first. *)
Definition of_bytes (b0 b1 b2 b3 : Byte.byte) : spec_float :=
  of_bits (byte_val b0 + 256 * byte_val b1
           + 65536 * byte_val b2 + 16777216 * byte_val b3).

Definition add : spec_float -> spec_float -> spec_float := SFadd prec emax.
Definition mul : spec_float -> spec_float -> spec_float := SFmul prec emax.
Definition div : spec_float -> spec_float -> spec_float := SFdiv prec emax.
Definition sqrt : spec_float -> spec_float := SFsqrt prec emax.

(** The scalars [1.0] and [2] of the derived formulas. *)
Definition one : spec_float := S754_finite false 8388608 (-23).
Definition two : spec_float := S754_finite false 8388608 (-22).

End F32.

(** The float32 items held by a byte string; a trailing group of fewer than
    four bytes holds no item. *)
Fixpoint frombuffer (bs : list Byte.byte) : list spec_float :=
  match bs with
  | b0 :: b1 :: b2 :: b3 :: rest => F32.of_bytes b0 b1 b2 b3 :: frombuffer rest
  | _ => []
  end.

(** [np.ndarray(shape, buffer=bytes, dtype="float32", order="F")]: a
    negative dimension is a ValueError, a buffer with fewer than
    four bytes per item is a TypeError, a longer buffer is accepted and only
    its beginning is addressed. *)
Definition np_ndarray (shp : list Z) (bytes : list Byte.byte)
  : result (ndarray spec_float) :=
  if existsb (fun d => d <? 0) shp then Raise ValueError
  else
    let shp' := map Z.to_nat shp in
    if (List.length bytes <? 4 * size_of shp')%nat then Raise TypeError
    else Ok (mk_ndarray shp' (strides_F shp') (frombuffer bytes)).

(* ================================================================== *)
(** ** Binary64 coordinates *)
(* ================================================================== *)

Module F64.

Local Open Scope Q_scope.

Definition pow2 (e : Z) : Q := 2 ^ e.

(** The exponent of the binade of a positive number:
    [pow2 (ilog2 x) <= x < pow2 (ilog2 x + 1)]. *)
Definition ilog2 (x : Q) : Z :=
  let e := (Z.log2 (Qnum x) - Z.log2 (Zpos (Qden x)))%Z in
  if Qle_bool (pow2 e) x then e else (e - 1)%Z.

(** The exponent of the last place at [x]: 53 significant bits, and never
    below the subnormal spacing 2^-1074. *)
Definition quantum (x : Q) : Z := Z.max (ilog2 (Qabs x) - 52)%Z (-1074)%Z.

(** The nearest integer, ties to even. *)
Definition rne (y : Q) : Z :=
  let f := Qfloor y in
  match Qcompare (y - inject_Z f)%Q (1 # 2)%Q with
  | Lt => f
  | Gt => (f + 1)%Z
  | Eq => if Z.even f then f else (f + 1)%Z
  end.

(** The nearest multiple of [pow2 q]. *)
Definition scaled (q : Z) (x : Q) : Q := inject_Z (rne (x / pow2 q)) * pow2 q.

(** The binary64 number nearest to a real number, as a reduced fraction. *)
Definition round (x : Q) : Q :=
  if Qeq_bool x 0 then 0 else Qred (scaled (quantum x) x).

Definition add (a b : Q) : Q := round (a + b).
Definition sub (a b : Q) : Q := round (a - b).
Definition mul (a b : Q) : Q := round (a * b).
Definition div (a b : Q) : Q := round (a / b).

End F64.

(* ================================================================== *)
(** ** Files *)
(* ================================================================== *)

(** The directory tree as seen by [open(name, "rb").read()]. *)
Definition filesystem : Type := string -> option (list Byte.byte).

Definition open_read (fs : filesystem) (filename : string)
  : result (list Byte.byte) :=
  match fs filename with
  | Some bytes => Ok bytes
  | None => Raise IOError
  end.

(** The slice [data[4:-4]]. *)
Definition strip_markers (data : list Byte.byte) : list Byte.byte :=
  firstn (List.length data - 8) (skipn 4 data).

Definition startswith_slash (s : string) : bool :=
  match s with
  | String c _ => Ascii.eqb c "/"
  | EmptyString => false
  end.

Fixpoint endswith_slash (s : string) : bool :=
  match s with
  | EmptyString => false
  | String c EmptyString => Ascii.eqb c "/"
  | String _ s' => endswith_slash s'
  end.

(** [os.path.join(a, b)] of posixpath. *)
Definition path_join (a b : string) : string :=
  if startswith_slash b then b
  else if String.eqb a EmptyString || endswith_slash a then a ++ b
  else a ++ "/" ++ b.

(* ================================================================== *)
(** ** The setup *)
(* ================================================================== *)

Record domain_t : Type := mk_domain {
  theta_min : Q; theta_max : Q;
  phi_min : Q; phi_max : Q;
  z_min : Q; z_max : Q
}.

Record elements_t : Type := mk_elements {
  nx_global : Z; ny_global : Z; nz_global : Z;
  nx : Z; ny : Z; nz : Z
}.

Record procs_t : Type := mk_procs { px : Z; py : Z; pz : Z }.

Record setup_t : Type := mk_setup {
  domain : domain_t;
  elements : elements_t;
  lpd : Z;
  procs : procs_t
}.

(** The numbers written on the lines of [../INPUT/setup], in file order
    (lines 68-98): decimal numbers that [float(...)] rounds to binary64,
    and integers. *)
Record setup_lines : Type := mk_setup_lines {
  l_theta_min : Q; l_theta_max : Q;     (* degrees *)
  l_phi_min : Q; l_phi_max : Q;         (* degrees *)
  l_z_min : Q; l_z_max : Q;             (* metres *)
  l_nx_global : Z; l_ny_global : Z; l_nz_global : Z;
  l_lpd : Z;
  l_px : Z; l_py : Z; l_pz : Z
}.

(** [np.pi], the binary64 number nearest to pi. *)
Definition np_pi : Q := 884279719003555 # 281474976710656.

(** Python 2 [a / b] on two ints: floor division, ZeroDivisionError on a
    zero divisor. *)
Definition int_div (a b : Z) : result Z :=
  if b =? 0 then Raise ZeroDivisionError else Ok (a / b).

Local Open Scope py_scope.

(** [float(text) * np.pi / 180.0]. *)
Definition radians (text : Q) : Q :=
  F64.div (F64.mul (F64.round text) np_pi) 180.

Definition read_setup (lines : setup_lines) : result setup_t :=
  let dom := mk_domain
    (radians (l_theta_min lines)) (radians (l_theta_max lines))
    (radians (l_phi_min lines)) (radians (l_phi_max lines))
    (F64.round (l_z_min lines)) (F64.round (l_z_max lines)) in
  let prc := mk_procs (l_px lines) (l_py lines) (l_pz lines) in
  qx <- int_div (l_nx_global lines) (px prc) ;;
  qy <- int_div (l_ny_global lines) (py prc) ;;
  qz <- int_div (l_nz_global lines) (pz prc) ;;
  Ok (mk_setup dom
        (mk_elements (l_nx_global lines) (l_ny_global lines) (l_nz_global lines)
                     (1 + qx) (1 + qy) (1 + qz))
        (l_lpd lines) prc).

(* ================================================================== *)
(** ** GLL points *)
(* ================================================================== *)

(** [get_GLL]: the collocation points for the degree of the setup, each
    decimal literal rounded to binary64.  There is no [else] branch: for any
    other degree [knots] is never assigned and [return knots] fails. *)
Definition get_GLL (st : setup_t) : result (list Q) :=
  let knots : option (list Q) :=
    if lpd st =? 2 then
      Some (map F64.round [-1; 0; 1]%Q)
    else if lpd st =? 3 then
      Some (map F64.round
              [-1; -(4472135954999579 # 10000000000000000);
               4472135954999579 # 10000000000000000; 1]%Q)
    else if lpd st =? 4 then
      Some (map F64.round
              [-1; -(6546536707079772 # 10000000000000000); 0;
               6546536707079772 # 10000000000000000; 1]%Q)
    else if lpd st =? 5 then
      Some (map F64.round
              [-1; -(7650553239294647 # 10000000000000000);
               -(2852315164806451 # 10000000000000000);
               2852315164806451 # 10000000000000000;
               7650553239294647 # 10000000000000000; 1]%Q)
    else if lpd st =? 6 then
      Some (map F64.round
              [-1; -(8302238962785670 # 10000000000000000);
               -(4688487934707142 # 10000000000000000); 0;
               4688487934707142 # 10000000000000000;
               8302238962785670 # 10000000000000000; 1]%Q)
    else if lpd st =? 7 then
      Some (map F64.round
              [-1; -(8717401485096066 # 10000000000000000);
               -(5917001814331423 # 10000000000000000);
               -(2092992179024789 # 10000000000000000);
               2092992179024789 # 10000000000000000;
               5917001814331423 # 10000000000000000;
               8717401485096066 # 10000000000000000; 1]%Q)
    else None in
  local knots.

(* ================================================================== *)
(** ** Coordinate lines *)
(* ================================================================== *)

(** The values of [np.arange(start, stop, step)] on floats, after numpy's
    [PyArray_ArangeObj] and [DOUBLE_fill]: the length is the ceiling of the
    rounded quotient [(stop - start) / step]; item 0 is [start], item 1 is
    [start + step], and every further item [i] is [start + i * delta] with
    [delta = (start + step) - start], all in binary64. *)
Definition arange_item (start step : Q) (i : nat) : Q :=
  match i with
  | O => start
  | S O => F64.add start step
  | _ => F64.add start
           (F64.mul (inject_Z (Z.of_nat i)) (F64.sub (F64.add start step) start))
  end.

Definition arange_values (start stop step : Q) : list Q :=
  let len := Qceiling (F64.div (F64.sub stop start) step) in
  map (arange_item start step) (seq 0 (Z.to_nat len)).

(** [np.arange] on Python floats: a zero step fails in the length
    computation with Python's ZeroDivisionError. *)
Definition np_arange (start stop step : Q) : result (list Q) :=
  if Qeq_bool step 0 then Raise ZeroDivisionError
  else Ok (arange_values start stop step).

(** [np.arange(n)] on an int: 0, 1, ..., n-1, empty when n <= 0. *)
Definition np_arange_int (n : Z) : list Z :=
  map Z.of_nat (seq 0 (Z.to_nat n)).

Definition Qmax (a b : Q) : Q := if Qle_bool a b then b else a.
Definition Qmin (a b : Q) : Q := if Qle_bool b a then b else a.

(** [np.max] and [np.min] of a one-dimensional array; a zero-size array has
    no maximum. *)
Definition np_max (l : list Q) : result Q :=
  match l with
  | [] => Raise ValueError
  | x :: l' => Ok (fold_left Qmax l' x)
  end.

Definition np_min (l : list Q) : result Q :=
  match l with
  | [] => Raise ValueError
  | x :: l' => Ok (fold_left Qmin l' x)
  end.

(** Python float divided by an int. *)
Definition float_div_int (a : Q) (b : Z) : result Q :=
  if b =? 0 then Raise ZeroDivisionError else Ok (F64.div a (inject_Z b)).

(** The knot line of one axis (lines 131-133, and again for y and z):
<<
    knot = self.get_GLL() + 1.0
    for i in np.arange(n - 1):
        knot = np.append(knot, self.get_GLL() + 1 + 2*(i+1))
>> *)
Definition knot_line (st : setup_t) (n : Z) : result (list Q) :=
  g0 <- get_GLL st ;;
  fold_left
    (fun acc i =>
       knot <- acc ;;
       g <- get_GLL st ;;
       Ok (knot ++ map (fun v => F64.add (F64.add v 1) (inject_Z (2 * (i + 1)))) g))
    (np_arange_int (n - 1))
    (Ok (map (fun v => F64.add v 1) g0)).

(** [knot * width / np.max(knot)]. *)
Definition rescale (knot : list Q) (width : Q) : result (list Q) :=
  m <- np_max knot ;;
  Ok (map (fun v => F64.div (F64.mul v width) m) knot).

(** [a[p, :] = row] on a two-dimensional array held as a list of rows. *)
Fixpoint set_row (a : list (list Q)) (p : nat) (row : list Q)
  : result (list (list Q)) :=
  match a, p with
  | [], _ => Raise IndexError
  | _ :: a', O => Ok (row :: a')
  | r :: a', S p' => a'' <- set_row a' p' row ;; Ok (r :: a'')
  end.

Definition index {A : Type} (l : list A) (i : Z) : result A :=
  match nth_error l (Z.to_nat i) with
  | Some v => Ok v
  | None => Raise IndexError
  end.

(** [np.empty(shape=(rows, cols))]; the content of the fresh array is
    whatever the allocator leaves there, here the value [uninit]. *)
Definition np_empty (uninit : Q) (rows : Z) (cols : nat)
  : result (list (list Q)) :=
  if rows <? 0 then Raise ValueError
  else Ok (repeat (repeat uninit cols) (Z.to_nat rows)).

(** The coordinate arrays of the object and the running box counter. *)
Record coords_t : Type := mk_coords {
  theta : list (list Q);
  phi : list (list Q);
  z : list (list Q);
  p_next : nat
}.

(** A [for] loop whose body may raise. *)
Definition for_each {A S : Type} (l : list A) (body : S -> A -> result S)
    (s : S) : result S :=
  fold_left (fun acc a => s' <- acc ;; body s' a) l (Ok s).

Definition make_coordinates (uninit : Q) (st : setup_t) : result coords_t :=
  let n_procs := px (procs st) * py (procs st) * pz (procs st) in
  let dom := domain st in
  (*- Boundaries of the processor blocks. *)
  width_theta <- float_div_int (F64.sub (theta_max dom) (theta_min dom)) (px (procs st)) ;;
  width_phi <- float_div_int (F64.sub (phi_max dom) (phi_min dom)) (py (procs st)) ;;
  width_z <- float_div_int (F64.sub (z_max dom) (z_min dom)) (pz (procs st)) ;;
  boundaries_theta <- np_arange (theta_min dom) (F64.add (theta_max dom) width_theta) width_theta ;;
  boundaries_phi <- np_arange (phi_min dom) (F64.add (phi_max dom) width_phi) width_phi ;;
  boundaries_z <- np_arange (z_min dom) (F64.add (z_max dom) width_z) width_z ;;
  (*- Make knot lines. *)
  knot_x <- knot_line st (nx (elements st)) ;;
  knot_y <- knot_line st (ny (elements st)) ;;
  knot_z <- knot_line st (nz (elements st)) ;;
  knot_x <- rescale knot_x width_theta ;;
  knot_y <- rescale knot_y width_phi ;;
  knot_z <- rescale knot_z width_z ;;
  (*- Loop over all processors. *)
  theta0 <- np_empty uninit n_procs (List.length knot_x) ;;
  phi0 <- np_empty uninit n_procs (List.length knot_y) ;;
  z0 <- np_empty uninit n_procs (List.length knot_z) ;;
  for_each (np_arange_int (pz (procs st))) (fun c iz =>
    for_each (np_arange_int (py (procs st))) (fun c iy =>
      for_each (np_arange_int (px (procs st))) (fun c ix =>
        b_theta <- index boundaries_theta ix ;;
        th <- set_row (theta c) (p_next c) (map (F64.add b_theta) knot_x) ;;
        b_phi <- index boundaries_phi iy ;;
        ph <- set_row (phi c) (p_next c) (map (F64.add b_phi) knot_y) ;;
        b_z <- index boundaries_z iz ;;
        zz <- set_row (z c) (p_next c) (rev (map (F64.add b_z) knot_z)) ;;
        Ok (mk_coords th ph zz (S (p_next c)))) c) c)
    (mk_coords theta0 phi0 z0 0).

(* ================================================================== *)
(** ** The object *)
(* ================================================================== *)

Record ses3d_fields : Type := mk_ses3d_fields {
  directory : string;
  field_type : string;
  pure_components : option (list string);
  derived_components : option (list string);
  setup : setup_t;
  coords : coords_t
}.

(** [__init__]: the component lists depend on the field type; a velocity
    snapshot gets no [derived_components] attribute, and any other field
    type gets neither list. *)
Definition init (uninit : Q) (lines : setup_lines) (dir ftype : string)
  : result ses3d_fields :=
  let pure1 :=
    if String.eqb ftype "earth_model"
    then Some ["A"; "B"; "C"; "lambda"; "mu"; "rhoinv"; "Q"]%string else None in
  let derived :=
    if String.eqb ftype "earth_model"
    then Some ["vp"; "vsh"; "vsv"; "rho"]%string else None in
  let pure2 :=
    if String.eqb ftype "velocity_snapshot"
    then Some ["vx"; "vy"; "vz"]%string else pure1 in
  st <- read_setup lines ;;
  c <- make_coordinates uninit st ;;
  Ok (mk_ses3d_fields dir ftype pure2 derived st c).

(* ================================================================== *)
(** ** File names *)
(* ================================================================== *)

Definition compose_filenames (self : ses3d_fields) (component : string)
    (proc_number iteration : Z) : result string :=
  let filename : option string :=
    if String.eqb (field_type self) "earth_model" then
      Some (path_join (directory self) (component ++ str proc_number))
    else if String.eqb (field_type self) "velocity_snapshot" then
      Some (path_join (directory self)
              (component ++ "_" ++ str proc_number ++ "_" ++ str iteration))
    else None in
  local filename.

(* ================================================================== *)
(** ** Reading one box *)
(* ================================================================== *)

(** [np.ndarray(shape, buffer=open(filename, "rb").read()[4:-4],
                dtype="float32", order="F")]. *)
Definition read_raw (fs : filesystem) (filename : string) (shp : list Z)
  : result (ndarray spec_float) :=
  data <- open_read fs filename ;;
  np_ndarray shp (strip_markers data).

(** Lines 270-272, for any item type:
<<
    new_shape = [_i * _j for _i, _j in zip(shape[:3], shape[3:])]
    field = np.rollaxis(np.rollaxis(field, 3, 1), 3, self.setup["lpd"] + 1)
    field = field.reshape(new_shape, order="C")
>> *)
Definition reshape_box {T : Type} `{Default T} (st : setup_t) (shp : list Z)
    (field : ndarray T) : result (ndarray T) :=
  let new_shape :=
    map (fun ij => fst ij * snd ij) (combine (firstn 3 shp) (skipn 3 shp)) in
  f1 <- rollaxis field 3 1 ;;
  f2 <- rollaxis f1 3 (lpd st + 1) ;;
  reshape_C f2 (map Z.to_nat new_shape).

Definition read_single_box (fs : filesystem) (self : ses3d_fields)
    (component : string) (proc_number iteration : Z)
  : result (ndarray spec_float) :=
  let st := setup self in
  (*- Shape of the Fortran binary file. *)
  let shp := [nx (elements st); ny (elements st); nz (elements st);
              lpd st + 1; lpd st + 1; lpd st + 1] in
  (*- Read and compute the proper components. *)
  pure <- getattr (pure_components self) ;;
  field <-
    (if str_in component pure then
       filename <- compose_filenames self component proc_number iteration ;;
       field <- read_raw fs filename shp ;;
       Ok (Some field)
     else
       derived <- getattr (derived_components self) ;;
       if str_in component derived then
         let field : option (ndarray spec_float) := None in
         (*- rho *)
         field <-
           (if String.eqb component "rho" then
              filename <- compose_filenames self "rhoinv" proc_number 0 ;;
              field <- read_raw fs filename shp ;;
              Ok (Some (np_map (F32.div F32.one) field))
            else Ok field) ;;
         (*- vp *)
         field <-
           (if String.eqb component "vp" then
              filename1 <- compose_filenames self "lambda" proc_number 0 ;;
              filename2 <- compose_filenames self "mu" proc_number 0 ;;
              filename3 <- compose_filenames self "rhoinv" proc_number 0 ;;
              field1 <- read_raw fs filename1 shp ;;
              field2 <- read_raw fs filename2 shp ;;
              field3 <- read_raw fs filename3 shp ;;
              Ok (Some (np_map F32.sqrt
                          (np_map2 F32.mul
                             (np_map2 F32.add field1 (np_map (F32.mul F32.two) field2))
                             field3)))
            else Ok field) ;;
         (*- vsh *)
         field <-
           (if String.eqb component "vsh" then
              filename1 <- compose_filenames self "mu" proc_number 0 ;;
              filename2 <- compose_filenames self "rhoinv" proc_number 0 ;;
              field1 <- read_raw fs filename1 shp ;;
              field2 <- read_raw fs filename2 shp ;;
              Ok (Some (np_map F32.sqrt (np_map2 F32.mul field1 field2)))
            else Ok field) ;;
         (*- vsv *)
         field <-
           (if String.eqb component "vsv" then
              filename1 <- compose_filenames self "mu" proc_number 0 ;;
              filename2 <- compose_filenames self "rhoinv" proc_number 0 ;;
              filename3 <- compose_filenames self "B" proc_number 0 ;;
              field1 <- read_raw fs filename1 shp ;;
              field2 <- read_raw fs filename2 shp ;;
              field3 <- read_raw fs filename3 shp ;;
              Ok (Some (np_map F32.sqrt
                          (np_map2 F32.mul (np_map2 F32.add field1 field3) field2)))
            else Ok field) ;;
         Ok field
       else Ok None) ;;
  (*- Reshape the array. *)
  field <- local field ;;
  reshape_box st shp field.

(* ================================================================== *)
(** ** Depth slices *)
(* ================================================================== *)

Definition Qlt_bool (a b : Q) : bool := negb (Qle_bool b a).

(** The builtin [min] over a sequence of floats: the first item is kept
    until a strictly smaller one is met. *)
Definition py_min (l : list Q) : result Q :=
  match l with
  | [] => Raise ValueError
  | x :: l' => Ok (fold_left (fun best v => if Qlt_bool v best then v else best) l' x)
  end.

(** The builtin [min] over a sequence of indices. *)
Definition py_min_nat (l : list nat) : result nat :=
  match l with
  | [] => Raise ValueError
  | x :: l' => Ok (fold_left (fun best v => if (v <? best)%nat then v else best) l' x)
  end.

(** [np.where(mask)[0]]: the positions of the true entries, ascending. *)
Fixpoint np_where_from (i : nat) (mask : list bool) : list nat :=
  match mask with
  | [] => []
  | b :: mask' => if b then i :: np_where_from (S i) mask'
                  else np_where_from (S i) mask'
  end.

Definition np_where (mask : list bool) : list nat := np_where_from 0 mask.

(** Line 334:
<<
    idz = min(np.where(min(np.abs(z - radius)) == np.abs(z - radius))[0])
>> *)
Definition depth_index (zrow : list Q) (radius : Q) : result nat :=
  let dist := map (fun v => Qabs (F64.sub v radius)) zrow in
  m <- py_min dist ;;
  py_min_nat (np_where (map (fun d => Qeq_bool m d) dist)).

(** The test of line 325. *)
Definition box_contains (zrow : list Q) (radius : Q) : result bool :=
  lo <- np_min zrow ;;
  hi <- np_max zrow ;;
  Ok (Qle_bool lo radius && Qle_bool radius hi).

(** [field[:, :, idz]] as a list of rows. *)
Definition slice_z (field : ndarray spec_float) (idz : nat)
  : result (list (list spec_float)) :=
  match shape field with
  | [sx; sy; sz] =>
      if (idz <? sz)%nat then
        Ok (map (fun ix => map (fun iy => item_at field [ix; iy; idz]) (seq 0 sy))
                (seq 0 sx))
      else Raise IndexError
  | _ => Raise IndexError
  end.

Definition is_nan (x : spec_float) : bool :=
  match x with S754_nan => true | _ => false end.

(** numpy's [maximum] and [minimum] on two items, and the reductions
    [a.max()], [a.min()] of a two-dimensional slice. *)
Definition np_maximum (a b : spec_float) : spec_float :=
  if SFleb b a || is_nan a then a else b.
Definition np_minimum (a b : spec_float) : spec_float :=
  if SFleb a b || is_nan a then a else b.

Definition reduce (f : spec_float -> spec_float -> spec_float)
    (a : list (list spec_float)) : result spec_float :=
  match List.concat a with
  | [] => Raise ValueError
  | x :: l => Ok (fold_left f l x)
  end.

(** The builtin two-argument [max(a, b)] and [min(a, b)]. *)
Definition py_max2 (a b : spec_float) : spec_float := if SFltb a b then b else a.
Definition py_min2 (a b : spec_float) : spec_float := if SFltb b a then b else a.

(** [int(x)] on a float: truncation towards zero. *)
Definition py_int (x : Q) : Z := if Qle_bool 0 x then Qfloor x else Qceiling x.

(** [90.0 - t * 180.0 / np.pi] and [f * 180.0 / np.pi]. *)
Definition latitude (t : Q) : Q := F64.sub 90 (F64.div (F64.mul t 180) np_pi).
Definition longitude (f : Q) : Q := F64.div (F64.mul f 180) np_pi.

(** [np.round] of a float: the nearest integer, ties to even. *)
Definition np_round (x : Q) : Q := inject_Z (F64.rne x).

(** [np.arange] on numpy float64 scalars, as [np.round] returns them.  The
    quotient of the length computation is then a binary64 division, which
    does not raise on a zero divisor but gives an infinity, or NaN for 0/0,
    and numpy refuses to turn either into a length (OverflowError and
    ValueError in the numpy releases that check; which class it is does not
    matter below). *)
Definition np_arange_f64 (start stop step : Q) : result (list Q) :=
  if Qeq_bool step 0 then
    if Qeq_bool (F64.sub stop start) 0 then Raise ValueError
    else Raise OverflowError
  else Ok (arange_values start stop step).

(** The parallels and meridians of lines 299-315:
<<
    lat_min = 90.0 - self.setup["domain"]["theta_max"]*180.0/np.pi
    lat_max = 90.0 - self.setup["domain"]["theta_min"]*180.0/np.pi
    lon_min = self.setup["domain"]["phi_min"]*180.0/np.pi
    lon_max = self.setup["domain"]["phi_max"]*180.0/np.pi
    d_lon = np.round((lon_max-lon_min)/10.0)
    d_lat = np.round((lat_max-lat_min)/10.0)
    if (lat_max-lat_min) > 30.0:
        ... np.arange(-80.0,80.0,10.0) ... np.arange(-170.0,170.0,10.0) ...
    else:
        ... np.arange(np.round(lat_min),np.round(lat_max),d_lat) ...
        ... np.arange(np.round(lon_min),np.round(lon_max),d_lon) ...
>>
    With an extent of five degrees or less the step is zero and the call of
    [np.arange] fails before any box is looked at. *)
Definition graticule (st : setup_t) : result (list Q * list Q) :=
  let dom := domain st in
  let lat_min := latitude (theta_max dom) in
  let lat_max := latitude (theta_min dom) in
  let lon_min := longitude (phi_min dom) in
  let lon_max := longitude (phi_max dom) in
  let d_lon := np_round (F64.div (F64.sub lon_max lon_min) 10) in
  let d_lat := np_round (F64.div (F64.sub lat_max lat_min) 10) in
  if Qlt_bool 30 (F64.sub lat_max lat_min) then
    parallels <- np_arange (-80) 80 10 ;;
    meridians <- np_arange (-170) 170 10 ;;
    Ok (parallels, meridians)
  else
    parallels <- np_arange_f64 (np_round lat_min) (np_round lat_max) d_lat ;;
    meridians <- np_arange_f64 (np_round lon_min) (np_round lon_max) d_lon ;;
    Ok (parallels, meridians).

(** One call of [m.pcolormesh(x, y, field[:,:,idz], ...)]: the box, the
    radial index, the coordinate lines of the mesh and the slice. *)
Record mesh_t : Type := mk_mesh {
  box : nat;
  idz_of : nat;
  lats : list Q;
  lons : list Q;
  values : list (list spec_float)
}.

(** Local variables of [plot_depth_slice] that the loop updates. *)
Record locals_t : Type := mk_locals {
  vmax : spec_float;
  vmin : spec_float;
  idz : option nat;
  im : option mesh_t;
  drawn : list mesh_t       (* the pcolormesh calls so far, oldest first *)
}.

(** What the caller gets to see when the function returns. *)
Record figure_t : Type := mk_figure {
  parallels_of : list Q;
  meridians_of : list Q;
  meshes : list mesh_t;
  colorbar_of : mesh_t;
  title_km : Z;
  value_min : spec_float;
  value_max : spec_float
}.

Definition row (a : list (list Q)) (p : nat) : result (list Q) :=
  match nth_error a p with
  | Some r => Ok r
  | None => Raise IndexError
  end.

(** The body of the loop over processor boxes (lines 325-350). *)
Definition plot_box (fs : filesystem) (self : ses3d_fields)
    (component : string) (radius : Q) (iteration : Z)
    (loc : locals_t) (p : nat) : result locals_t :=
  zrow <- row (z (coords self)) p ;;
  inside <- box_contains zrow radius ;;
  if inside then
    field <- read_single_box fs self component (Z.of_nat p) iteration ;;
    trow <- row (theta (coords self)) p ;;
    prow <- row (phi (coords self)) p ;;
    let lats := map latitude trow in
    let lons := map longitude prow in
    i <- depth_index zrow radius ;;
    s <- slice_z field i ;;
    smax <- reduce np_maximum s ;;
    smin <- reduce np_minimum s ;;
    let mesh := mk_mesh p i lats lons s in
    Ok (mk_locals (py_max2 (vmax loc) smax) (py_min2 (vmin loc) smin)
                  (Some i) (Some mesh) (drawn loc ++ [mesh]))
  else Ok loc.

(** [plot_depth_slice]; the map projection and the decorations are left to
    the plotting library, what is kept is what numpy computes for it and
    what is drawn and labelled. *)
Definition plot_depth_slice (fs : filesystem) (self : ses3d_fields)
    (component : string) (depth : Q) (iteration : Z) : result figure_t :=
  let st := setup self in
  let n_procs := px (procs st) * py (procs st) * pz (procs st) in
  let radius := F64.mul 1000 (F64.sub 6371 depth) in
  let loc0 := mk_locals (S754_infinity true) (S754_infinity false) None None [] in
  (*- Set up the map. *)
  lines <- graticule st ;;
  (*- Loop over processor boxes and check if depth falls within the volume. *)
  loc <- for_each (seq 0 (Z.to_nat n_procs))
           (plot_box fs self component radius iteration) loc0 ;;
  (*- Add colobar and title. *)
  image <- local (im loc) ;;
  let p := (Z.to_nat n_procs - 1)%nat in
  i <- local (idz loc) ;;
  zrow <- row (z (coords self)) p ;;
  zval <- index zrow (Z.of_nat i) ;;
  Ok (mk_figure (fst lines) (snd lines) (drawn loc) image
                (py_int (F64.div zval 1000)) (vmin loc) (vmax loc)).

(* ================================================================== *)
(** ** Vocabulary of the properties and example inputs *)
(* ================================================================== *)

(** The degrees that have an entry in the table of [get_GLL]. *)
Definition supported_degree (d : Z) : Prop := 2 <= d <= 7.

(** Strictly increasing lists of rationals. *)
Fixpoint increasing (l : list Q) : Prop :=
  match l with
  | a :: (b :: _) as l' => (a < b)%Q /\ increasing l'
  | _ => True
  end.

(** A small material model used in the examples. *)
Module Demo.

(** One element per box and direction, degree 4, two boxes stacked along
    the radial axis. *)
Definition lines : setup_lines :=
  mk_setup_lines 0 10 0 20 6000000 6371000 0 0 0 4 1 1 2.

Definition blank : ses3d_fields :=
  mk_ses3d_fields EmptyString EmptyString None None
    (mk_setup (mk_domain 0 0 0 0 0 0) (mk_elements 0 0 0 0 0 0) 0 (mk_procs 0 0 0))
    (mk_coords [] [] [] 0).

Definition ok_or {A : Type} (d : A) (m : result A) : A :=
  match m with Ok a => a | Raise _ => d end.

Definition model : ses3d_fields :=
  ok_or blank (init 0 lines "MODELS" "earth_model").

Definition snapshot : ses3d_fields :=
  ok_or blank (init 0 lines "SNAP" "velocity_snapshot").

Definition marker : list Byte.byte := [Byte.x7d; Byte.x00; Byte.x00; Byte.x00].

(** [n] copies of one float32 given by its four bytes. *)
Fixpoint constant (n : nat) (b0 b1 b2 b3 : Byte.byte) : list Byte.byte :=
  match n with
  | O => []
  | S n' => b0 :: b1 :: b2 :: b3 :: constant n' b0 b1 b2 b3
  end.

(** A framed record with [n] copies of a value. *)
Definition record (n : nat) (b0 b1 b2 b3 : Byte.byte) : list Byte.byte :=
  (marker ++ constant n b0 b1 b2 b3 ++ marker)%list.

(** rhoinv = 0.5, mu = 2.0, lambda = 4.0, B = 1.0 in both boxes. *)
Definition files : filesystem := fun name =>
  if String.eqb name "MODELS/rhoinv0" || String.eqb name "MODELS/rhoinv1"
  then Some (record 125 Byte.x00 Byte.x00 Byte.x00 Byte.x3f)
  else if String.eqb name "MODELS/mu0" || String.eqb name "MODELS/mu1"
  then Some (record 125 Byte.x00 Byte.x00 Byte.x00 Byte.x40)
  else if String.eqb name "MODELS/lambda0" || String.eqb name "MODELS/lambda1"
  then Some (record 125 Byte.x00 Byte.x00 Byte.x80 Byte.x40)
  else if String.eqb name "MODELS/B0" || String.eqb name "MODELS/B1"
  then Some (record 125 Byte.x00 Byte.x00 Byte.x80 Byte.x3f)
  else None.

End Demo.

(** Membership of a name in the component lists the object has. *)
Definition in_components (l : option (list string)) (component : string) : bool :=
  match l with
  | Some names => str_in component names
  | None => false
  end.

(** The shape of line 213 and the number of items it holds. *)
Definition file_shape (st : setup_t) : list Z :=
  [nx (elements st); ny (elements st); nz (elements st);
   lpd st + 1; lpd st + 1; lpd st + 1].

Definition box_items (st : setup_t) : Z :=
  nx (elements st) * ny (elements st) * nz (elements st) * (lpd st + 1) ^ 3.


Definition nonneg_shape (st : setup_t) : Prop :=
  0 <= nx (elements st) /\ 0 <= ny (elements st) /\ 0 <= nz (elements st)
  /\ 0 <= lpd st + 1.

(** [m] is an entry of [l] below (above) every entry of [l]. *)
Definition least (m : Q) (l : list Q) : Prop :=
  In m l /\ forall x, In x l -> (m <= x)%Q.

Definition greatest (m : Q) (l : list Q) : Prop :=
  In m l /\ forall x, In x l -> (x <= m)%Q.

(** The distance of line 334, [np.abs(z - radius)]: the difference is
    rounded, the absolute value is not. *)
Definition distance (zj radius : Q) : Q := Qabs (F64.sub zj radius).

(** [i] is a position of [zrow] nearest to [radius], and the first such. *)
Definition nearest_first (zrow : list Q) (radius : Q) (i : nat) : Prop :=
  exists zsel,
    nth_error zrow i = Some zsel /\
    forall j zj, nth_error zrow j = Some zj ->
      (distance zsel radius <= distance zj radius)%Q /\
      ((distance zj radius == distance zsel radius)%Q -> (i <= j)%nat).

(** The test of line 325 as a total predicate on box numbers. *)
Definition intersects (self : ses3d_fields) (radius : Q) (p : nat) : bool :=
  match nth_error (z (coords self)) p with
  | Some zrow =>
      match box_contains zrow radius with
      | Ok b => b
      | Raise _ => false
      end
  | None => false
  end.

(** A drawn mesh belongs to a box that passed the test of line 325 and
    carries the radial index that line 334 computes for the box. *)
Definition mesh_ok (self : ses3d_fields) (radius : Q) (m : mesh_t) : Prop :=
  exists zrow,
    nth_error (z (coords self)) (box m) = Some zrow /\
    box_contains zrow radius = Ok true /\
    depth_index zrow radius = Ok (idz_of m).

(** The number of boxes and the target radius of a depth in kilometres,
    [1000.0 * (6371.0 - depth)] as line 294 computes it. *)
Definition n_procs_of (self : ses3d_fields) : Z :=
  px (procs (setup self)) * py (procs (setup self)) * pz (procs (setup self)).

Definition radius_of (depth : Q) : Q := F64.mul 1000 (F64.sub 6371 depth).

(** The radius lies between the smallest and the largest z of the row. *)
Definition in_z_range (zrow : list Q) (radius : Q) : Prop :=
  exists lo hi, least lo zrow /\ greatest hi zrow
                /\ (lo <= radius)%Q /\ (radius <= hi)%Q.

(** Every box has a non-empty row of z coordinates. *)
Definition has_z_rows (self : ses3d_fields) : Prop :=
  forall p, Z.of_nat p < n_procs_of self ->
    exists zrow, nth_error (z (coords self)) p = Some zrow /\ zrow <> [].

Local Close Scope Z_scope.
Local Open Scope nat_scope.

(** With positive extents the largest offset a view can address. *)
Definition max_offset {T : Type} (a : ndarray T) : nat :=
  dot (map pred (shape a)) (strides a).

(** A view is well laid over its buffer when it has one stride per axis and
    every index within its shape addresses an item of the buffer. *)
Definition well_laid {T : Type} (a : ndarray T) : Prop :=
  List.length (strides a) = List.length (shape a) /\
  (Forall (fun d => 0 < d) (shape a) -> max_offset a < List.length (buffer a)).

Definition same_layout {T U : Type} (a : ndarray T) (b : ndarray U) : Prop :=
  shape a = shape b /\ strides a = strides b.

(** The axis order [rollaxis] hands to [transpose], or [None] when it
    returns the array itself; it depends on the number of axes only. *)
Definition rollaxis_plan (ndim : nat) (axis start : Z)
  : result (option (list nat)) :=
  let n := Z.of_nat ndim in
  let axis := if (axis <? 0)%Z then (axis + n)%Z else axis in
  let start := if (start <? 0)%Z then (start + n)%Z else start in
  if negb ((0 <=? axis)%Z && (axis <? n)%Z) then Raise ValueError
  else if negb ((0 <=? start)%Z && (start <? n + 1)%Z) then Raise ValueError
  else
    let start := if (axis <? start)%Z then (start - 1)%Z else start in
    if (axis =? start)%Z then Ok None
    else Ok (Some (list_insert (Z.to_nat start) (Z.to_nat axis)
                     (list_remove (Z.to_nat axis) (seq 0 ndim)))).

Definition apply_plan {T : Type} (a : ndarray T) (plan : option (list nat))
  : ndarray T :=
  match plan with
  | None => a
  | Some axes => transpose a axes
  end.

Local Close Scope nat_scope.
Local Open Scope Z_scope.

(** The object of a material model, as [__init__] sets it up. *)
Definition material_model (self : ses3d_fields) : Prop :=
  field_type self = "earth_model"%string /\
  pure_components self
  = Some ["A"; "B"; "C"; "lambda"; "mu"; "rhoinv"; "Q"]%string /\
  derived_components self = Some ["vp"; "vsh"; "vsv"; "rho"]%string.

Definition model_file (self : ses3d_fields) (component : string) (p : Z) : string :=
  path_join (directory self) (component ++ str p).

Local Close Scope Z_scope.
Local Open Scope nat_scope.

(** Position of node (a, b, c) of element (i, j, k) in the Fortran-ordered
    payload of shape (X, Y, W, n, n, n). *)
Definition node_offset (X Y W n i j k a b c : nat) : nat :=
  i + X * (j + Y * (k + W * (a + n * (b + n * c)))).

Local Close Scope nat_scope.
Local Open Scope Z_scope.

(** Inputs for the degrees 2 and 6. *)
Module Degrees.

Definition byte_of (k : nat) : Byte.byte :=
  match Byte.of_nat k with
  | Some b => b
  | None => Byte.x00
  end.

(** [n] float32 items; item number [k] has the bit pattern [start + k],
    that is the value [(start + k) * 2^-149]. *)
Fixpoint counting (start n : nat) : list Byte.byte :=
  match n with
  | O => []
  | S n' => byte_of start :: Byte.x00 :: Byte.x00 :: Byte.x00
            :: counting (S start) n'
  end.

(** Degree 2, one box of 1 x 1 x 2 elements: 54 items. *)
Definition lines2 : setup_lines :=
  mk_setup_lines 0 10 0 20 6000000 6371000 0 0 1 2 1 1 1.

Definition model2 : ses3d_fields :=
  Demo.ok_or Demo.blank (init 0 lines2 "MODELS" "earth_model").

Definition files2 : filesystem := fun name =>
  if String.eqb name "MODELS/rhoinv0"
  then Some (Demo.marker ++ counting 0 54 ++ Demo.marker)%list
  else None.

(** Degree 6, one box of one element: 343 items. *)
Definition lines6 : setup_lines :=
  mk_setup_lines 0 10 0 20 6000000 6371000 0 0 0 6 1 1 1.

Definition model6 : ses3d_fields :=
  Demo.ok_or Demo.blank (init 0 lines6 "MODELS" "earth_model").

Definition files6 : filesystem := fun name =>
  if String.eqb name "MODELS/rhoinv0"
  then Some (Demo.record 343 Byte.x00 Byte.x00 Byte.x00 Byte.x3f)
  else None.

End Degrees.

(** A mantle model: from the core-mantle boundary to the surface, nine
    radial blocks of six elements each. *)
Module Mantle.

Definition lines : setup_lines :=
  mk_setup_lines 0 10 0 20 3480000 6371000 0 0 54 4 1 1 9.

Definition st : setup_t :=
  Demo.ok_or (setup Demo.blank) (read_setup lines).

End Mantle.

Section FillRowsDefinitions.

Variables boundaries_theta boundaries_phi boundaries_z : list Q.
Variables knot_x knot_y knot_z : list Q.
(** The block origins the lookups deliver. *)
Variables origin_theta origin_phi origin_z : Z -> Q.

(** The body of the innermost loop of [make_coordinates], for the
    processor with indices (iz, iy, ix). *)
Definition fill_box (c : coords_t) (t : Z * Z * Z) : result coords_t :=
  let '(iz, iy, ix) := t in
  (b_theta <- index boundaries_theta ix ;;
   th <- set_row (theta c) (p_next c) (map (F64.add b_theta) knot_x) ;;
   b_phi <- index boundaries_phi iy ;;
   ph <- set_row (phi c) (p_next c) (map (F64.add b_phi) knot_y) ;;
   b_z <- index boundaries_z iz ;;
   zz <- set_row (z c) (p_next c) (rev (map (F64.add b_z) knot_z)) ;;
   Ok (mk_coords th ph zz (S (p_next c))))%py.

Definition origins_found (t : Z * Z * Z) : Prop :=
  let '(iz, iy, ix) := t in
  index boundaries_theta ix = Ok (origin_theta ix) /\
  index boundaries_phi iy = Ok (origin_phi iy) /\
  index boundaries_z iz = Ok (origin_z iz).

Definition theta_row (t : Z * Z * Z) : list Q :=
  let '(_, _, ix) := t in map (F64.add (origin_theta ix)) knot_x.
Definition phi_row (t : Z * Z * Z) : list Q :=
  let '(_, iy, _) := t in map (F64.add (origin_phi iy)) knot_y.
Definition z_row (t : Z * Z * Z) : list Q :=
  let '(iz, _, _) := t in rev (map (F64.add (origin_z iz)) knot_z).

End FillRowsDefinitions.

(** The knot line after [k] passes of the loop: the shifted node set and
    [k] further copies, each two units further. *)
Definition knot_blocks (g : list Q) (k : nat) : list Q :=
  map (fun v => F64.add v 1) g
  ++ flat_map (fun i => map (fun v => F64.add (F64.add v 1)
                                        (inject_Z (2 * (Z.of_nat i + 1)))) g)
              (seq 0 k).

(** A list given entry by entry, up to equality of rationals. *)
Definition tabulates (l : list Q) (len : nat) (f : nat -> Q) : Prop :=
  List.length l = len /\
  forall i, (i < len)%nat -> exists v, nth_error l i = Some v /\ (v == f i)%Q.

(** Entry [i] of the knot line over the node set [g]: node [i mod n] of
    element [i / n], shifted by one and, from the second element on, by
    twice the element number. *)
Definition knot_entry (g : list Q) (i : nat) : Q :=
  let v := F64.add (nth (i mod List.length g) g 0%Q) 1 in
  match (i / List.length g)%nat with
  | O => v
  | S e => F64.add v (inject_Z (2 * (Z.of_nat e + 1)))
  end.

(** What the construction of the coordinate lines uses of the node set. *)
Definition gll_facts (g : list Q) : Prop :=
  (0 < List.length g)%nat /\
  (nth 0 g 0 == -1)%Q /\
  (nth (List.length g - 1) g 0 == 1)%Q /\
  forall t1 t2, (t1 <= t2 < List.length g)%nat -> (nth t1 g 0 <= nth t2 g 0)%Q.

(** Entry [i] of the rescaled knot line of [m] elements over the width [w]:
    [knot * w / np.max(knot)], the maximum being the last knot. *)
Definition knot_value (g : list Q) (m : nat) (w : Q) (i : nat) : Q :=
  F64.div (F64.mul (knot_entry g i) w) (knot_entry g (m * List.length g - 1)).

(** Entry [i] of a coordinate line of [m] elements laid from the origin [b]
    over the width [w]. *)
Definition line_value (g : list Q) (m : nat) (w b : Q) (i : nat) : Q :=
  F64.add b (knot_value g m w i).

(** The width of a block as the last knot of a line of [m] elements carries
    it: [knot[-1] * width / np.max(knot)] with the last knot 2m. *)
Definition span (m : Z) (w : Q) : Q :=
  let top := F64.round (inject_Z (2 * m)) in F64.div (F64.mul top w) top.

(** The processors in the order of the three nested loops. *)
Definition processor_order (npx npy npz : Z) : list (Z * Z * Z) :=
  flat_map (fun iz =>
    flat_map (fun iy => map (fun ix => (iz, iy, ix)) (np_arange_int npx))
             (np_arange_int npy))
    (np_arange_int npz).

(** A setup as the data model describes it. *)
Definition valid_setup (st : setup_t) : Prop :=
  supported_degree (lpd st) /\
  0 < px (procs st) /\ 0 < py (procs st) /\ 0 < pz (procs st) /\
  1 <= nx (elements st) /\ 1 <= ny (elements st) /\ 1 <= nz (elements st) /\
  (theta_min (domain st) < theta_max (domain st))%Q /\
  (phi_min (domain st) < phi_max (domain st))%Q /\
  (z_min (domain st) < z_max (domain st))%Q.

(** The block widths of lines 122-124. *)
Definition width_theta (st : setup_t) : Q :=
  F64.div (F64.sub (theta_max (domain st)) (theta_min (domain st)))
          (inject_Z (px (procs st))).
Definition width_phi (st : setup_t) : Q :=
  F64.div (F64.sub (phi_max (domain st)) (phi_min (domain st)))
          (inject_Z (py (procs st))).
Definition width_z (st : setup_t) : Q :=
  F64.div (F64.sub (z_max (domain st)) (z_min (domain st)))
          (inject_Z (pz (procs st))).

(** The block boundaries of lines 126-128, when the width is not zero. *)
Definition boundaries_theta (st : setup_t) : list Q :=
  arange_values (theta_min (domain st))
    (F64.add (theta_max (domain st)) (width_theta st)) (width_theta st).
Definition boundaries_phi (st : setup_t) : list Q :=
  arange_values (phi_min (domain st))
    (F64.add (phi_max (domain st)) (width_phi st)) (width_phi st).
Definition boundaries_z (st : setup_t) : list Q :=
  arange_values (z_min (domain st))
    (F64.add (z_max (domain st)) (width_z st)) (width_z st).

(** The three calls of [np.arange] succeed and return at least one
    boundary per block. *)
Definition blocks_tabulated (st : setup_t) : Prop :=
  ~ (width_theta st == 0)%Q /\ ~ (width_phi st == 0)%Q /\
  ~ (width_z st == 0)%Q /\
  (Z.to_nat (px (procs st)) <= List.length (boundaries_theta st))%nat /\
  (Z.to_nat (py (procs st)) <= List.length (boundaries_phi st))%nat /\
  (Z.to_nat (pz (procs st)) <= List.length (boundaries_z st))%nat.

(** The six numbers of the domain are binary64 numbers. *)
Definition binary64_domain (st : setup_t) : Prop :=
  (F64.round (theta_min (domain st)) == theta_min (domain st))%Q /\
  (F64.round (theta_max (domain st)) == theta_max (domain st))%Q /\
  (F64.round (phi_min (domain st)) == phi_min (domain st))%Q /\
  (F64.round (phi_max (domain st)) == phi_max (domain st))%Q /\
  (F64.round (z_min (domain st)) == z_min (domain st))%Q /\
  (F64.round (z_max (domain st)) == z_max (domain st))%Q.

(** Non-increasing and non-decreasing arrays. *)
Definition descending (l : list Q) : Prop :=
  forall q1 q2 a b, (q1 <= q2)%nat ->
    nth_error l q1 = Some a -> nth_error l q2 = Some b -> (b <= a)%Q.

Definition ascending (l : list Q) : Prop :=
  forall q1 q2 a b, (q1 <= q2)%nat ->
    nth_error l q1 = Some a -> nth_error l q2 = Some b -> (a <= b)%Q.

(** The object of a velocity snapshot, as [__init__] sets it up. *)
Definition snapshot_model (self : ses3d_fields) : Prop :=
  field_type self = "velocity_snapshot"%string /\
  pure_components self = Some ["vx"; "vy"; "vz"]%string /\
  derived_components self = None.

(** Decimal digits, strings of digits, strings without a character of a
    class, strings that begin with one. *)
Definition is_digit (c : ascii) : bool :=
  (48 <=? nat_of_ascii c)%nat && (nat_of_ascii c <=? 57)%nat.

Fixpoint all_digits (s : string) : bool :=
  match s with
  | EmptyString => true
  | String c s' => is_digit c && all_digits s'
  end.

Fixpoint none_of (q : ascii -> bool) (s : string) : bool :=
  match s with
  | EmptyString => true
  | String c s' => negb (q c) && none_of q s'
  end.

Definition starts_with (q : ascii -> bool) (s : string) : bool :=
  match s with
  | EmptyString => false
  | String c _ => q c
  end.

(** A mesh shows the slice, at its radial index, of the cube read for its
    box, over the latitudes and longitudes of that box. *)
Definition mesh_from_box (fs : filesystem) (self : ses3d_fields)
    (component : string) (iteration : Z) (m : mesh_t) : Prop :=
  exists trow prow cube,
    nth_error (theta (coords self)) (box m) = Some trow /\
    nth_error (phi (coords self)) (box m) = Some prow /\
    read_single_box fs self component (Z.of_nat (box m)) iteration = Ok cube /\
    lats m = map latitude trow /\
    lons m = map longitude prow /\
    slice_z cube (idz_of m) = Ok (values m).

(** The order of the float comparisons on values other than NaN, as the
    lexicographic order of a key: the sign class, then the exponent, then
    the mantissa, the last two negated for negative numbers. *)
Definition float_key (x : spec_float) : Z * Z * Z :=
  match x with
  | S754_nan => (0, 0, 0)
  | S754_zero _ => (0, 0, 0)
  | S754_infinity true => (-2, 0, 0)
  | S754_infinity false => (2, 0, 0)
  | S754_finite true m e => (-1, - e, - Z.pos m)
  | S754_finite false m e => (1, e, Z.pos m)
  end.

Definition key_le (k1 k2 : Z * Z * Z) : Prop :=
  fst (fst k1) < fst (fst k2)
  \/ (fst (fst k1) = fst (fst k2)
      /\ (snd (fst k1) < snd (fst k2)
          \/ (snd (fst k1) = snd (fst k2) /\ snd k1 <= snd k2))).

(** A slice without NaN. *)
Definition no_nan (s : list (list spec_float)) : Prop :=
  forall r v, In r s -> In v r -> is_nan v = false.

(* ================================================================== *)
(** * Properties *)
(* ================================================================== *)

(* ------------------------------------------------------------------ *)
(** ** Rounding to binary64 *)
(* ------------------------------------------------------------------ *)

Local Close Scope Z_scope.
Local Open Scope Q_scope.

Lemma pow2_pos (e : Z) : 0 < F64.pow2 e.
Proof. apply Qpower_0_lt. reflexivity. Qed.

Lemma pow2_add (a b : Z) : F64.pow2 (a + b) == F64.pow2 a * F64.pow2 b.
Proof. apply Qpower_plus. intros H. discriminate H. Qed.

Lemma pow2_le (a b : Z) : (a <= b)%Z -> F64.pow2 a <= F64.pow2 b.
Proof. intros H. apply Qpower_le_compat_l; [exact H|discriminate]. Qed.

Lemma pow2_lt (a b : Z) : (a < b)%Z -> F64.pow2 a < F64.pow2 b.
Proof. intros H. apply Qpower_lt_compat_l; [exact H|reflexivity]. Qed.

Lemma pow2_lt_inv (a b : Z) : F64.pow2 a < F64.pow2 b -> (a < b)%Z.
Proof. intros H. apply (Qpower_lt_compat_l_inv 2); [exact H|reflexivity]. Qed.

Lemma pow2_Z (e : Z) : (0 <= e)%Z -> F64.pow2 e == inject_Z (2 ^ e).
Proof. intros H. symmetry. apply (Zpower_Qpower 2 e H). Qed.

Lemma pow2_multiple (e q : Z) :
  (q <= e)%Z -> F64.pow2 e == inject_Z (2 ^ (e - q)) * F64.pow2 q.
Proof.
  intros H. rewrite <- pow2_Z by lia. rewrite <- pow2_add.
  replace (e - q + q)%Z with e by lia. reflexivity.
Qed.

(** The binade of a positive number. *)

Lemma ilog2_spec (x : Q) :
  0 < x -> F64.pow2 (F64.ilog2 x) <= x /\ x < F64.pow2 (F64.ilog2 x + 1).
Proof.
  intros Hx. destruct x as [n d].
  assert (Hn : (0 < n)%Z).
  { unfold Qlt in Hx. cbn in Hx. lia. }
  set (a := Z.log2 n). set (b := Z.log2 (Zpos d)).
  destruct (Z.log2_spec n Hn) as [Ha1 Ha2].
  destruct (Z.log2_spec (Zpos d) ltac:(lia)) as [Hb1 Hb2].
  fold a in Ha1, Ha2. fold b in Hb1, Hb2.
  assert (Ha0 : (0 <= a)%Z) by apply Z.log2_nonneg.
  assert (Hb0 : (0 <= b)%Z) by apply Z.log2_nonneg.
  assert (Hd : 0 < inject_Z (Zpos d)) by reflexivity.
  assert (Elow : F64.pow2 (a - b - 1) <= n # d).
  { rewrite (Qmake_Qdiv n d). apply Qle_shift_div_l; [exact Hd|].
    apply Qle_trans with (F64.pow2 (a - b - 1) * F64.pow2 (b + 1)).
    - apply Qmult_le_l; [apply pow2_pos|].
      rewrite pow2_Z by lia. rewrite <- Zle_Qle. lia.
    - rewrite <- pow2_add. replace (a - b - 1 + (b + 1))%Z with a by lia.
      rewrite pow2_Z by lia. rewrite <- Zle_Qle. exact Ha1. }
  assert (Ehigh : n # d < F64.pow2 (a - b + 1)).
  { rewrite (Qmake_Qdiv n d). apply Qlt_shift_div_r; [exact Hd|].
    apply Qlt_le_trans with (F64.pow2 (a - b + 1) * F64.pow2 b).
    - rewrite <- pow2_add. replace (a - b + 1 + b)%Z with (a + 1)%Z by lia.
      rewrite pow2_Z by lia. rewrite <- Zlt_Qlt. exact Ha2.
    - apply Qmult_le_l; [apply pow2_pos|].
      rewrite pow2_Z by lia. rewrite <- Zle_Qle. exact Hb1. }
  unfold F64.ilog2. cbn [Qnum Qden]. fold a b.
  destruct (Qle_bool (F64.pow2 (a - b)) (n # d)) eqn:E.
  - apply Qle_bool_iff in E. split; assumption.
  - assert (Hlt : n # d < F64.pow2 (a - b)).
    { apply Qnot_le_lt. intros H. apply Qle_bool_iff in H. congruence. }
    replace (a - b - 1 + 1)%Z with (a - b)%Z by lia. split; assumption.
Qed.

Lemma ilog2_unique (x : Q) (e : Z) :
  0 < x -> F64.pow2 e <= x -> x < F64.pow2 (e + 1) -> F64.ilog2 x = e.
Proof.
  intros Hx H1 H2. destruct (ilog2_spec x Hx) as [S1 S2].
  assert (A : (F64.ilog2 x < e + 1)%Z).
  { apply pow2_lt_inv. eapply Qle_lt_trans; eassumption. }
  assert (B : (e < F64.ilog2 x + 1)%Z).
  { apply pow2_lt_inv. eapply Qle_lt_trans; eassumption. }
  lia.
Qed.

Lemma ilog2_mono (x y : Q) : 0 < x -> x <= y -> (F64.ilog2 x <= F64.ilog2 y)%Z.
Proof.
  intros Hx Hxy.
  destruct (ilog2_spec x Hx) as [S1 _].
  destruct (ilog2_spec y (Qlt_le_trans _ _ _ Hx Hxy)) as [_ T2].
  assert (A : (F64.ilog2 x < F64.ilog2 y + 1)%Z).
  { apply pow2_lt_inv. eapply Qle_lt_trans; [exact S1|].
    eapply Qle_lt_trans; eassumption. }
  lia.
Qed.

Lemma ilog2_comp (x y : Q) : 0 < x -> x == y -> F64.ilog2 x = F64.ilog2 y.
Proof.
  intros Hx E. symmetry. apply ilog2_unique.
  - rewrite <- E. exact Hx.
  - rewrite <- E. apply (ilog2_spec x Hx).
  - rewrite <- E. apply (ilog2_spec x Hx).
Qed.

(** Rounding to the nearest integer, ties to even. *)

Lemma rne_comp (y y' : Q) : y == y' -> F64.rne y = F64.rne y'.
Proof.
  intros E. unfold F64.rne. rewrite (Qfloor_comp y y' E).
  assert (E' : y - inject_Z (Qfloor y') == y' - inject_Z (Qfloor y'))
    by (rewrite E; reflexivity).
  rewrite (Qcompare_comp _ _ E' (1 # 2) (1 # 2) (Qeq_refl _)). reflexivity.
Qed.

Lemma rne_Z (k : Z) : F64.rne (inject_Z k) = k.
Proof.
  unfold F64.rne. rewrite Qfloor_Z.
  assert (E : inject_Z k - inject_Z k == 0) by ring.
  rewrite (Qcompare_comp _ _ E (1 # 2) (1 # 2) (Qeq_refl _)). reflexivity.
Qed.

Lemma rne_cases (y : Q) :
  (F64.rne y = Qfloor y /\ y - inject_Z (Qfloor y) <= 1 # 2) \/
  (F64.rne y = (Qfloor y + 1)%Z /\ 1 # 2 <= y - inject_Z (Qfloor y)) .
Proof.
  unfold F64.rne.
  destruct (Qcompare (y - inject_Z (Qfloor y)) (1 # 2)) eqn:E.
  - apply Qeq_alt in E. destruct (Z.even (Qfloor y)).
    + left. split; [reflexivity|]. rewrite E. apply Qle_refl.
    + right. split; [reflexivity|]. rewrite E. apply Qle_refl.
  - apply Qlt_alt in E. left. split; [reflexivity|]. apply Qlt_le_weak. exact E.
  - apply Qgt_alt in E. right. split; [reflexivity|]. apply Qlt_le_weak. exact E.
Qed.

Lemma rne_mono (y y' : Q) : y <= y' -> (F64.rne y <= F64.rne y')%Z.
Proof.
  intros H. pose proof (Qfloor_resp_le _ _ H) as Hf.
  destruct (Z.eq_dec (Qfloor y) (Qfloor y')) as [Ef|Nf].
  - unfold F64.rne. rewrite <- Ef.
    set (f := Qfloor y).
    assert (Hr : y - inject_Z f <= y' - inject_Z f) by lra.
    set (r := y - inject_Z f) in *. set (r' := y' - inject_Z f) in *.
    destruct (Qcompare r (1 # 2)) eqn:E; destruct (Qcompare r' (1 # 2)) eqn:E';
      try (destruct (Z.even f)); try lia; exfalso.
    all: first [apply Qeq_alt in E | apply Qlt_alt in E | apply Qgt_alt in E];
      first [apply Qeq_alt in E' | apply Qlt_alt in E' | apply Qgt_alt in E'];
      lra.
  - destruct (rne_cases y) as [[-> _]|[-> _]];
      destruct (rne_cases y') as [[-> _]|[-> _]]; lia.
Qed.

(** Rounding to a multiple of a power of two. *)

Lemma scaled_mono (q : Z) (x y : Q) :
  x <= y -> F64.scaled q x <= F64.scaled q y.
Proof.
  intros H. unfold F64.scaled.
  apply Qmult_le_compat_r; [|apply Qlt_le_weak, pow2_pos].
  rewrite <- Zle_Qle. apply rne_mono.
  unfold Qdiv. apply Qmult_le_compat_r; [exact H|].
  apply Qlt_le_weak, Qinv_lt_0_compat, pow2_pos.
Qed.

Lemma scaled_comp (q : Z) (x y : Q) :
  x == y -> F64.scaled q x == F64.scaled q y.
Proof.
  intros E. unfold F64.scaled.
  assert (E' : x / F64.pow2 q == y / F64.pow2 q) by (rewrite E; reflexivity).
  rewrite (rne_comp _ _ E'). reflexivity.
Qed.

Lemma scaled_fix (q k : Z) (x : Q) :
  x == inject_Z k * F64.pow2 q -> F64.scaled q x == x.
Proof.
  intros E. unfold F64.scaled.
  assert (E' : x / F64.pow2 q == inject_Z k).
  { rewrite E. apply Qdiv_mult_l. intros H.
    pose proof (pow2_pos q) as Hp. rewrite H in Hp. discriminate Hp. }
  rewrite (rne_comp _ _ E'), rne_Z. symmetry. exact E.
Qed.

(** Rounding to binary64. *)

Lemma Qabs_pos_lt (x : Q) : ~ x == 0 -> 0 < Qabs x.
Proof.
  intros H. destruct (Qlt_le_dec 0 x) as [Hp|Hn].
  - rewrite Qabs_pos by (apply Qlt_le_weak; exact Hp). exact Hp.
  - rewrite Qabs_neg by exact Hn.
    destruct (Qlt_le_dec x 0) as [Hlt|Hge]; [lra|].
    exfalso. apply H. apply Qle_antisym; assumption.
Qed.

Lemma quantum_comp (x y : Q) :
  ~ x == 0 -> x == y -> F64.quantum x = F64.quantum y.
Proof.
  intros Hx E. unfold F64.quantum.
  rewrite (ilog2_comp (Qabs x) (Qabs y)); [reflexivity| |].
  - apply Qabs_pos_lt. exact Hx.
  - rewrite E. reflexivity.
Qed.

Lemma round_nonzero (x : Q) :
  ~ x == 0 -> F64.round x == F64.scaled (F64.quantum x) x.
Proof.
  intros H. unfold F64.round. destruct (Qeq_bool x 0) eqn:E.
  - apply Qeq_bool_iff in E. contradiction.
  - apply Qred_correct.
Qed.

Lemma round_zero (x : Q) : x == 0 -> F64.round x = 0.
Proof.
  intros H. unfold F64.round.
  destruct (Qeq_bool x 0) eqn:E; [reflexivity|].
  apply Qeq_bool_neq in E. contradiction.
Qed.

(** Equal rationals round to the same fraction. *)
Lemma round_comp (x y : Q) : x == y -> F64.round x = F64.round y.
Proof.
  intros E. destruct (Qeq_dec x 0) as [Hx|Hx].
  - rewrite (round_zero x Hx), (round_zero y); [reflexivity|].
    rewrite <- E. exact Hx.
  - assert (Hy : ~ y == 0) by (rewrite <- E; exact Hx).
    unfold F64.round.
    destruct (Qeq_bool x 0) eqn:Ex; [apply Qeq_bool_iff in Ex; contradiction|].
    destruct (Qeq_bool y 0) eqn:Ey; [apply Qeq_bool_iff in Ey; contradiction|].
    apply Qred_complete. rewrite (quantum_comp x y Hx E).
    apply scaled_comp. exact E.
Qed.

Lemma scaled_0 (q : Z) : F64.scaled q 0 == 0.
Proof. apply (scaled_fix q 0). ring. Qed.

Lemma round_nonneg (x : Q) : 0 <= x -> 0 <= F64.round x.
Proof.
  intros H. destruct (Qeq_dec x 0) as [Hx|Hx].
  - rewrite (round_zero x Hx). apply Qle_refl.
  - rewrite (round_nonzero x Hx), <- (scaled_0 (F64.quantum x)).
    apply scaled_mono. exact H.
Qed.

Lemma quantum_pos (x : Q) :
  0 < x -> F64.quantum x = Z.max (F64.ilog2 x - 52) (-1074).
Proof.
  intros H. unfold F64.quantum.
  rewrite (ilog2_comp (Qabs x) x); [reflexivity| |].
  - rewrite Qabs_pos by (apply Qlt_le_weak; exact H). exact H.
  - apply Qabs_pos. apply Qlt_le_weak. exact H.
Qed.

Lemma scaled_pow2 (q e : Z) :
  (q <= e)%Z -> F64.scaled q (F64.pow2 e) == F64.pow2 e.
Proof.
  intros H. apply (scaled_fix q (2 ^ (e - q))). apply pow2_multiple. exact H.
Qed.

Lemma round_mono_pos (x y : Q) :
  0 < x -> x <= y -> F64.round x <= F64.round y.
Proof.
  intros Hx Hxy.
  assert (Hy : 0 < y) by (eapply Qlt_le_trans; eassumption).
  assert (Nx : ~ x == 0) by (intros E; rewrite E in Hx; discriminate Hx).
  assert (Ny : ~ y == 0) by (intros E; rewrite E in Hy; discriminate Hy).
  rewrite (round_nonzero x Nx), (round_nonzero y Ny).
  rewrite (quantum_pos x Hx), (quantum_pos y Hy).
  pose proof (ilog2_mono x y Hx Hxy) as He.
  destruct (ilog2_spec x Hx) as [_ Xhi]. destruct (ilog2_spec y Hy) as [Ylo _].
  set (ex := F64.ilog2 x) in *. set (ey := F64.ilog2 y) in *.
  destruct (Z.eq_dec (Z.max (ex - 52) (-1074)) (Z.max (ey - 52) (-1074)))
    as [Eq|Nq].
  - rewrite Eq. apply scaled_mono. exact Hxy.
  - assert (Hlt : (ex < ey)%Z) by lia.
    assert (Hqy : Z.max (ey - 52) (-1074) = (ey - 52)%Z) by lia.
    assert (Hqx : (Z.max (ex - 52) (-1074) <= ey)%Z) by lia.
    apply Qle_trans with (F64.pow2 ey).
    + rewrite <- (scaled_pow2 _ ey Hqx). apply scaled_mono.
      apply Qlt_le_weak. eapply Qlt_le_trans; [exact Xhi|].
      apply pow2_le. lia.
    + rewrite Hqy. rewrite <- (scaled_pow2 (ey - 52) ey) at 1 by lia.
      apply scaled_mono. exact Ylo.
Qed.

(** Symmetry. *)

Lemma Qfloor_unique (x : Q) (k : Z) :
  inject_Z k <= x -> x < inject_Z (k + 1) -> Qfloor x = k.
Proof.
  intros H1 H2.
  pose proof (Qfloor_resp_le _ _ H1) as A. rewrite Qfloor_Z in A.
  assert (B : (Qfloor x < k + 1)%Z).
  { rewrite Zlt_Qlt. eapply Qle_lt_trans; [apply Qfloor_le|exact H2]. }
  lia.
Qed.

Lemma inject_Z_pred_opp (f : Z) : inject_Z (- f - 1) == - inject_Z f - 1.
Proof.
  replace (- f - 1)%Z with (- (f + 1))%Z by lia.
  rewrite inject_Z_opp, inject_Z_plus. change (inject_Z 1) with 1. ring.
Qed.

Lemma rne_opp (y : Q) : F64.rne (- y) = (- F64.rne y)%Z.
Proof.
  pose proof (Qfloor_le y) as Hlo. pose proof (Qlt_floor y) as Hhi.
  set (f := Qfloor y) in *.
  rewrite inject_Z_plus in Hhi. change (inject_Z 1) with 1 in Hhi.
  destruct (Qeq_dec y (inject_Z f)) as [Ei|Ni].
  - assert (E' : - y == inject_Z (- f)) by (rewrite inject_Z_opp, Ei; reflexivity).
    rewrite (rne_comp _ _ E'), (rne_comp _ _ Ei), !rne_Z. reflexivity.
  - assert (Hgt : inject_Z f < y).
    { destruct (Qlt_le_dec (inject_Z f) y) as [H|H]; [exact H|].
      exfalso. apply Ni. apply Qle_antisym; assumption. }
    assert (Ef : Qfloor (- y) = (- f - 1)%Z).
    { apply Qfloor_unique.
      - rewrite inject_Z_pred_opp. lra.
      - replace (- f - 1 + 1)%Z with (- f)%Z by lia. rewrite inject_Z_opp. lra. }
    unfold F64.rne. rewrite Ef. fold f.
    assert (Er : - y - inject_Z (- f - 1) == 1 - (y - inject_Z f)).
    { rewrite inject_Z_pred_opp. ring. }
    rewrite (Qcompare_comp _ _ Er (1 # 2) (1 # 2) (Qeq_refl _)).
    set (r := y - inject_Z f) in *.
    assert (Heven : Z.even (- f - 1) = negb (Z.even f)).
    { replace (- f - 1)%Z with (- (f + 1))%Z by lia.
      rewrite Z.even_opp. replace (f + 1)%Z with (Z.succ f) by lia.
      rewrite Z.even_succ, <- Z.negb_even. reflexivity. }
    destruct (Qcompare r (1 # 2)) eqn:C.
    + apply Qeq_alt in C.
      assert (C' : (1 - r ?= 1 # 2) = Eq) by (apply (proj1 (Qeq_alt _ _)); lra).
      rewrite C', Heven. destruct (Z.even f); cbn [negb]; lia.
    + apply Qlt_alt in C.
      assert (C' : (1 - r ?= 1 # 2) = Gt) by (apply (proj1 (Qgt_alt _ _)); lra).
      rewrite C'. lia.
    + apply Qgt_alt in C.
      assert (C' : (1 - r ?= 1 # 2) = Lt) by (apply (proj1 (Qlt_alt _ _)); lra).
      rewrite C'. lia.
Qed.

Lemma scaled_opp (q : Z) (x : Q) : F64.scaled q (- x) == - F64.scaled q x.
Proof.
  unfold F64.scaled.
  assert (E : - x / F64.pow2 q == - (x / F64.pow2 q)) by (unfold Qdiv; ring).
  rewrite (rne_comp _ _ E), rne_opp, inject_Z_opp. ring.
Qed.

Lemma round_opp (x : Q) : F64.round (- x) == - F64.round x.
Proof.
  destruct (Qeq_dec x 0) as [Hx|Hx].
  - rewrite (round_zero x Hx), (round_zero (- x)); [reflexivity|].
    rewrite Hx. reflexivity.
  - assert (Hn : ~ - x == 0) by (intros E; apply Hx; lra).
    rewrite (round_nonzero x Hx), (round_nonzero _ Hn).
    assert (Eq : F64.quantum (- x) = F64.quantum x).
    { unfold F64.quantum. rewrite (ilog2_comp (Qabs (- x)) (Qabs x)); [reflexivity| |].
      - apply Qabs_pos_lt. exact Hn.
      - apply Qabs_opp. }
    rewrite Eq. apply scaled_opp.
Qed.

Lemma round_nonpos (x : Q) : x <= 0 -> F64.round x <= 0.
Proof.
  intros H. assert (E : x == - - x) by ring.
  rewrite (round_comp _ _ E), round_opp.
  pose proof (round_nonneg (- x) ltac:(lra)). lra.
Qed.

(** Rounding is monotone. *)
Lemma round_mono (x y : Q) : x <= y -> F64.round x <= F64.round y.
Proof.
  intros H. destruct (Qlt_le_dec 0 x) as [Hx|Hx].
  - apply round_mono_pos; assumption.
  - destruct (Qlt_le_dec y 0) as [Hy|Hy].
    + assert (Ex : x == - - x) by ring. assert (Ey : y == - - y) by ring.
      rewrite (round_comp _ _ Ex), (round_comp _ _ Ey).
      rewrite (round_opp (- x)), (round_opp (- y)).
      pose proof (round_mono_pos (- y) (- x) ltac:(lra) ltac:(lra)). lra.
    + apply Qle_trans with 0; [apply round_nonpos|apply round_nonneg]; assumption.
Qed.

(** Representable numbers are fixed. *)

Lemma ilog2_pow2 (e : Z) : F64.ilog2 (F64.pow2 e) = e.
Proof.
  apply ilog2_unique; [apply pow2_pos|apply Qle_refl|apply pow2_lt; lia].
Qed.

Lemma round_multiple_fix (x : Q) (k q : Z) :
  x == inject_Z k * F64.pow2 q -> (F64.quantum x <= q)%Z -> F64.round x == x.
Proof.
  intros E Hq. destruct (Qeq_dec x 0) as [Hx|Hx].
  - rewrite (round_zero x Hx). symmetry. exact Hx.
  - rewrite (round_nonzero x Hx).
    apply (scaled_fix _ (k * 2 ^ (q - F64.quantum x))).
    eapply Qeq_trans; [exact E|].
    rewrite inject_Z_mult, (pow2_multiple q (F64.quantum x) Hq). ring.
Qed.

Lemma scaled_half (q : Z) : F64.scaled q (F64.pow2 (q - 1)) == 0.
Proof.
  unfold F64.scaled.
  assert (E : F64.pow2 (q - 1) / F64.pow2 q == 1 # 2).
  { replace (q - 1)%Z with (q + -1)%Z by lia. rewrite pow2_add.
    assert (Eh : F64.pow2 (-1) == 1 # 2) by reflexivity.
    rewrite Eh. field. intros H. pose proof (pow2_pos q) as Hp.
    rewrite H in Hp. discriminate Hp. }
  rewrite (rne_comp _ _ E). reflexivity.
Qed.

Lemma round_idem_pos (x : Q) :
  0 < x -> F64.round (F64.round x) == F64.round x.
Proof.
  intros Hx.
  assert (Nx : ~ x == 0) by (intros E; rewrite E in Hx; discriminate Hx).
  pose proof (round_nonneg x (Qlt_le_weak _ _ Hx)) as Hr0.
  destruct (Qeq_dec (F64.round x) 0) as [Hz|Hnz].
  - rewrite (round_zero _ Hz). symmetry. exact Hz.
  - pose proof (round_nonzero x Nx) as Er.
    rewrite (quantum_pos x Hx) in Er.
    destruct (ilog2_spec x Hx) as [Xlo Xhi].
    set (e := F64.ilog2 x) in *. set (q := Z.max (e - 52) (-1074)) in *.
    set (r := F64.round x) in *.
    assert (Hr : 0 < r).
    { destruct (Qlt_le_dec 0 r) as [H|H]; [exact H|].
      exfalso. apply Hnz. apply Qle_antisym; assumption. }
    assert (Hqe : (q <= e + 1)%Z).
    { destruct (Z_le_gt_dec q (e + 1)) as [H|H]; [exact H|]. exfalso.
      assert (Hle : x <= F64.pow2 (q - 1)).
      { apply Qlt_le_weak. eapply Qlt_le_trans; [exact Xhi|]. apply pow2_le. lia. }
      pose proof (scaled_mono q _ _ Hle) as Hs.
      rewrite scaled_half, <- Er in Hs. lra. }
    assert (Hub : r <= F64.pow2 (e + 1)).
    { rewrite Er, <- (scaled_pow2 q (e + 1) Hqe). apply scaled_mono.
      apply Qlt_le_weak. exact Xhi. }
    destruct (ilog2_spec r Hr) as [Rlo Rhi].
    destruct (Qlt_le_dec r (F64.pow2 (e + 1))) as [Hlt|Hge].
    + apply (round_multiple_fix r _ q Er).
      rewrite (quantum_pos r Hr).
      assert (Hi : (F64.ilog2 r < e + 1)%Z).
      { apply pow2_lt_inv. eapply Qle_lt_trans; eassumption. }
      unfold q. lia.
    + assert (Er2 : r == F64.pow2 (e + 1)) by (apply Qle_antisym; assumption).
      apply (round_multiple_fix r 1 (e + 1)).
      * rewrite Er2. ring.
      * rewrite (quantum_pos r Hr).
        rewrite (ilog2_comp r (F64.pow2 (e + 1)) Hr Er2), ilog2_pow2.
        unfold q in Hqe. lia.
Qed.

(** Rounding twice is rounding once: the results of [round] are the
    binary64 numbers. *)
Lemma round_idem (x : Q) : F64.round (F64.round x) == F64.round x.
Proof.
  destruct (Qlt_le_dec 0 x) as [Hx|Hx]; [apply round_idem_pos; exact Hx|].
  destruct (Qeq_dec x 0) as [Hz|Hnz].
  - rewrite (round_zero x Hz). reflexivity.
  - assert (Hp : 0 < - x).
    { destruct (Qlt_le_dec 0 (- x)) as [H|H]; [exact H|].
      exfalso. apply Hnz. lra. }
    assert (E : x == - - x) by ring.
    rewrite (round_comp _ _ E).
    rewrite (round_comp _ _ (round_opp (- x))).
    rewrite (round_opp (F64.round (- x))), (round_idem_pos _ Hp).
    symmetry. apply round_opp.
Qed.

Local Close Scope Q_scope.
Local Open Scope Z_scope.


(** ** The error monad *)

Lemma bind_Ok {A B : Type} (m : result A) (k : A -> result B) (b : B) :
  bind m k = Ok b -> exists a, m = Ok a /\ k a = Ok b.
Proof.
  destruct m as [a|e]; simpl; intros Hk; [exists a; split; trivial | discriminate].
Qed.

Lemma raises_named_inv {A : Type} (e : exn) (name : string) :
  raises_named (@Raise A e) name -> exn_name e = name.
Proof.
  intros [e' [Heq Hname]]. injection Heq as ->. exact Hname.
Qed.

(** Splits a hypothesis [bind m k = Ok b] into the two successful steps. *)
Ltac bind_inv H :=
  let a := fresh "v" in
  let H1 := fresh "E" in
  apply bind_Ok in H; destruct H as [a [H1 H]].

(* ------------------------------------------------------------------ *)
(** ** get_GLL *)
(* ------------------------------------------------------------------ *)

Lemma get_GLL_depends_on_lpd (st st' : setup_t) :
  lpd st = lpd st' -> get_GLL st = get_GLL st'.
Proof. unfold get_GLL. intros ->. reflexivity. Qed.

Lemma supported_degree_cases (d : Z) :
  supported_degree d -> d = 2 \/ d = 3 \/ d = 4 \/ d = 5 \/ d = 6 \/ d = 7.
Proof. unfold supported_degree. lia. Qed.

(** C6 as stated fails: degree 8 does not raise an exception called
    UnsupportedDegreeError. *)
Lemma get_GLL_degree_8_not_UnsupportedDegreeError :
  let st := mk_setup (mk_domain 0 1 0 1 0 1) (mk_elements 1 1 1 2 2 2) 8
                     (mk_procs 1 1 1) in
  ~ supported_degree (lpd st) /\
  get_GLL st = Raise UnboundLocalError /\
  ~ raises_named (get_GLL st) "UnsupportedDegreeError".
Proof.
  simpl. split; [unfold supported_degree; simpl; lia|].
  split; [reflexivity|].
  intros H. apply raises_named_inv in H. discriminate H.
Qed.

Lemma get_GLL_unsupported (st : setup_t) :
  ~ supported_degree (lpd st) -> get_GLL st = Raise UnboundLocalError.
Proof.
  unfold supported_degree, get_GLL. intros Hout.
  repeat match goal with
         | |- context [lpd st =? ?k] =>
             destruct (Z.eqb_spec (lpd st) k) as [?|?]; [lia|]
         end.
  reflexivity.
Qed.

Lemma get_GLL_supported (st : setup_t) :
  supported_degree (lpd st) ->
  exists knots,
    get_GLL st = Ok knots /\
    Z.of_nat (List.length knots) = lpd st + 1 /\
    hd 0%Q knots = (-1)%Q /\
    last knots 0%Q = 1%Q /\
    increasing knots /\
    rev (map Qopp knots) = knots.
Proof.
  intros Hc. apply supported_degree_cases in Hc. unfold get_GLL.
  destruct Hc as [Hc|[Hc|[Hc|[Hc|[Hc|Hc]]]]]; rewrite Hc; simpl;
    eexists; (split; [reflexivity|]);
    (split; [reflexivity|]); (split; [reflexivity|]); (split; [reflexivity|]);
    (split; [cbn [increasing]; repeat split; reflexivity|reflexivity]).
Qed.

(** C6 (amended): for a degree outside 2..7 [get_GLL] raises
    UnboundLocalError, the failure of [return knots] on the never assigned
    local, and yields no node set; for a degree inside 2..7 it returns the
    tabulated node set of that degree: [lpd + 1] strictly increasing points
    from -1 to 1, symmetric about 0, the same for every setup of that
    degree. *)
Theorem get_GLL_outcome (st : setup_t) :
  (~ supported_degree (lpd st) /\ get_GLL st = Raise UnboundLocalError)
  \/
  (supported_degree (lpd st) /\
   exists knots,
     get_GLL st = Ok knots /\
     Z.of_nat (List.length knots) = lpd st + 1 /\
     hd 0%Q knots = (-1)%Q /\
     last knots 0%Q = 1%Q /\
     increasing knots /\
     rev (map Qopp knots) = knots /\
     forall st', lpd st' = lpd st -> get_GLL st' = Ok knots).
Proof.
  destruct (Z_le_gt_dec 2 (lpd st)) as [Hlo|Hlo];
    [destruct (Z_le_gt_dec (lpd st) 7) as [Hhi|Hhi]|].
  - right. assert (Hc : supported_degree (lpd st)) by (split; assumption).
    split; [exact Hc|].
    destruct (get_GLL_supported st Hc) as (knots & E & Hl & Hh & Hla & Hi & Hs).
    exists knots. repeat (split; [assumption|]).
    intros st' Hst'. rewrite (get_GLL_depends_on_lpd st' st Hst'). exact E.
  - left. assert (Hn : ~ supported_degree (lpd st))
      by (unfold supported_degree; lia).
    split; [exact Hn|]. apply get_GLL_unsupported. exact Hn.
  - left. assert (Hn : ~ supported_degree (lpd st))
      by (unfold supported_degree; lia).
    split; [exact Hn|]. apply get_GLL_unsupported. exact Hn.
Qed.

(* ------------------------------------------------------------------ *)
(** ** read_setup *)
(* ------------------------------------------------------------------ *)

Lemma int_div_nonzero (a b : Z) : b <> 0 -> int_div a b = Ok (a / b).
Proof.
  intros Hb. unfold int_div. destruct (Z.eqb_spec b 0); [contradiction|reflexivity].
Qed.


Lemma int_div_zero (a : Z) : int_div a 0 = Raise ZeroDivisionError.
Proof. reflexivity. Qed.

(** C5 as stated fails: five elements over two processors are not exactly
    divisible, and [read_setup] returns a setup with the truncated count. *)
Lemma read_setup_truncates_5_over_2 :
  let lines := mk_setup_lines 0 10 0 20 6000000 6371000 5 4 4 4 2 1 1 in
  (l_nx_global lines) mod (l_px lines) <> 0 /\
  exists st, read_setup lines = Ok st /\ nx (elements st) = 3.
Proof.
  simpl. split; [discriminate|].
  eexists. split; reflexivity.
Qed.

(** C5 (amended): [read_setup] performs no divisibility check.  With three
    non-zero processor counts it succeeds and every local element count is
    one plus the floor quotient of the global count by the processor count,
    whatever the remainder; a zero processor count stops it with
    ZeroDivisionError. *)
Theorem read_setup_local_counts (lines : setup_lines) :
  ((l_px lines = 0 \/ l_py lines = 0 \/ l_pz lines = 0) /\
   read_setup lines = Raise ZeroDivisionError)
  \/
  (l_px lines <> 0 /\ l_py lines <> 0 /\ l_pz lines <> 0 /\
   exists st,
     read_setup lines = Ok st /\
     nx (elements st) = 1 + l_nx_global lines / l_px lines /\
     ny (elements st) = 1 + l_ny_global lines / l_py lines /\
     nz (elements st) = 1 + l_nz_global lines / l_pz lines /\
     l_nx_global lines
       = l_px lines * (nx (elements st) - 1) + l_nx_global lines mod l_px lines /\
     l_ny_global lines
       = l_py lines * (ny (elements st) - 1) + l_ny_global lines mod l_py lines /\
     l_nz_global lines
       = l_pz lines * (nz (elements st) - 1) + l_nz_global lines mod l_pz lines /\
     lpd st = l_lpd lines /\
     procs st = mk_procs (l_px lines) (l_py lines) (l_pz lines)).
Proof.
  unfold read_setup. cbn [px py pz].
  destruct (Z.eq_dec (l_px lines) 0) as [Hx|Hx].
  { left. split; [auto|]. rewrite Hx. reflexivity. }
  rewrite (int_div_nonzero _ _ Hx). cbn [bind].
  destruct (Z.eq_dec (l_py lines) 0) as [Hy|Hy].
  { left. split; [auto|]. rewrite Hy. reflexivity. }
  rewrite (int_div_nonzero _ _ Hy). cbn [bind].
  destruct (Z.eq_dec (l_pz lines) 0) as [Hz|Hz].
  { left. split; [auto|]. rewrite Hz. reflexivity. }
  rewrite (int_div_nonzero _ _ Hz). cbn [bind].
  right. repeat (split; [assumption|]).
  eexists. split; [reflexivity|]. cbn [elements nx ny nz lpd procs].
  repeat split; try reflexivity.
  - pose proof (Z.div_mod (l_nx_global lines) (l_px lines) Hx). lia.
  - pose proof (Z.div_mod (l_ny_global lines) (l_py lines) Hy). lia.
  - pose proof (Z.div_mod (l_nz_global lines) (l_pz lines) Hz). lia.
Qed.

Example example_model_setup :
  setup Demo.model
  = mk_setup (mk_domain 0 (radians 10) 0 (radians 20) 6000000 6371000)
             (mk_elements 0 0 0 1 1 1) 4 (mk_procs 1 1 2).
Proof. vm_compute. reflexivity. Qed.

(* ------------------------------------------------------------------ *)
(** ** read_single_box: unknown components *)
(* ------------------------------------------------------------------ *)

(** C7 as stated fails: on the material model the unknown name "vq" does not
    raise an exception called UnknownComponentError. *)
Lemma read_single_box_vq_not_UnknownComponentError :
  in_components (pure_components Demo.model) "vq" = false /\
  in_components (derived_components Demo.model) "vq" = false /\
  read_single_box Demo.files Demo.model "vq" 0 0 = Raise UnboundLocalError /\
  ~ raises_named (read_single_box Demo.files Demo.model "vq" 0 0)
      "UnknownComponentError".
Proof.
  split; [reflexivity|]. split; [reflexivity|].
  assert (H : read_single_box Demo.files Demo.model "vq" 0 0
              = Raise UnboundLocalError) by (vm_compute; reflexivity).
  split; [exact H|].
  rewrite H. intros Hn. apply raises_named_inv in Hn. discriminate Hn.
Qed.

(** C7 (amended): for a component name in neither list of the object,
    [read_single_box] raises without opening a file: UnboundLocalError when
    the object has both lists (the material model: [field] is never
    assigned), AttributeError when a list is missing (the velocity snapshot
    has no [derived_components]). *)
Theorem read_single_box_unknown_component
    (fs : filesystem) (self : ses3d_fields) (component : string)
    (proc_number iteration : Z) :
  in_components (pure_components self) component = false ->
  in_components (derived_components self) component = false ->
  read_single_box fs self component proc_number iteration
  = Raise (match pure_components self, derived_components self with
           | Some _, Some _ => UnboundLocalError
           | _, _ => AttributeError
           end).
Proof.
  unfold read_single_box, in_components.
  destruct (pure_components self) as [pure|]; [|reflexivity].
  intros Hp. cbn [getattr bind]. rewrite Hp.
  destruct (derived_components self) as [derived|]; [|reflexivity].
  intros Hd. cbn [getattr bind]. rewrite Hd. reflexivity.
Qed.

Lemma read_single_box_unknown_component_witness :
  read_single_box Demo.files Demo.model "vq" 3 0 = Raise UnboundLocalError /\
  read_single_box Demo.files Demo.snapshot "rho" 3 0 = Raise AttributeError.
Proof.
  split.
  - exact (read_single_box_unknown_component Demo.files Demo.model "vq" 3 0
             eq_refl eq_refl).
  - exact (read_single_box_unknown_component Demo.files Demo.snapshot "rho" 3 0
             eq_refl eq_refl).
Defined.

(* ------------------------------------------------------------------ *)
(** ** read_single_box: the length of the payload *)
(* ------------------------------------------------------------------ *)

Lemma size_of_file_shape (st : setup_t) :
  nonneg_shape st ->
  Z.of_nat (size_of (map Z.to_nat (file_shape st))) = box_items st.
Proof.
  intros (Hx & Hy & Hz & Hl). unfold file_shape, box_items, size_of.
  cbn [map fold_right].
  rewrite !Nat2Z.inj_mul, !Z2Nat.id by assumption.
  change (Z.of_nat 1) with 1. ring.
Qed.

Lemma nonneg_shape_existsb (st : setup_t) :
  nonneg_shape st -> existsb (fun d => d <? 0) (file_shape st) = false.
Proof.
  intros (Hx & Hy & Hz & Hl). unfold file_shape. cbn [existsb].
  repeat match goal with
         | |- context [?a <? 0] => destruct (Z.ltb_spec a 0); [lia|]
         end.
  reflexivity.
Qed.

Lemma read_raw_outcome (fs : filesystem) (filename : string) (st : setup_t)
    (data : list Byte.byte) :
  fs filename = Some data ->
  nonneg_shape st ->
  read_raw fs filename (file_shape st)
  = if Z.of_nat (List.length (strip_markers data)) <? 4 * box_items st
    then Raise TypeError
    else Ok (mk_ndarray (map Z.to_nat (file_shape st))
                        (strides_F (map Z.to_nat (file_shape st)))
                        (frombuffer (strip_markers data))).
Proof.
  intros Hfs Hnn. unfold read_raw, open_read. rewrite Hfs. cbn [bind].
  unfold np_ndarray. rewrite (nonneg_shape_existsb st Hnn).
  rewrite <- (size_of_file_shape st Hnn).
  destruct (Nat.ltb_spec (List.length (strip_markers data))
              (4 * size_of (map Z.to_nat (file_shape st))));
    destruct (Z.ltb_spec (Z.of_nat (List.length (strip_markers data)))
                (4 * Z.of_nat (size_of (map Z.to_nat (file_shape st)))));
    try reflexivity; lia.
Qed.

Lemma read_single_box_pure (fs : filesystem) (self : ses3d_fields)
    (component : string) (proc_number iteration : Z) (filename : string) :
  in_components (pure_components self) component = true ->
  compose_filenames self component proc_number iteration = Ok filename ->
  read_single_box fs self component proc_number iteration
  = (field <- read_raw fs filename (file_shape (setup self)) ;;
     reshape_box (setup self) (file_shape (setup self)) field)%py.
Proof.
  unfold read_single_box, in_components.
  destruct (pure_components self) as [pure|]; [|discriminate].
  intros Hp Hf. cbn [getattr bind]. rewrite Hp, Hf. cbn [bind].
  fold (file_shape (setup self)).
  destruct (read_raw fs filename (file_shape (setup self))); reflexivity.
Qed.

Lemma read_single_box_by_length
    (fs : filesystem) (self : ses3d_fields) (component : string)
    (proc_number iteration : Z) (filename : string) (data : list Byte.byte) :
  in_components (pure_components self) component = true ->
  compose_filenames self component proc_number iteration = Ok filename ->
  fs filename = Some data ->
  nonneg_shape (setup self) ->
  read_single_box fs self component proc_number iteration
  = if Z.of_nat (List.length (strip_markers data)) <? 4 * box_items (setup self)
    then Raise TypeError
    else reshape_box (setup self) (file_shape (setup self))
           (mk_ndarray (map Z.to_nat (file_shape (setup self)))
                       (strides_F (map Z.to_nat (file_shape (setup self))))
                       (frombuffer (strip_markers data))).
Proof.
  intros Hp Hf Hfs Hnn.
  rewrite (read_single_box_pure fs self component proc_number iteration filename Hp Hf).
  rewrite (read_raw_outcome fs filename (setup self) data Hfs Hnn).
  destruct (Z.of_nat (List.length (strip_markers data)) <? 4 * box_items (setup self));
    reflexivity.
Qed.

(** C3 as stated fails: a record whose payload is one float too long for the
    shape is read without any error. *)
Lemma read_single_box_accepts_long_payload :
  let fs : filesystem := fun name =>
    if String.eqb name "MODELS/rhoinv0"
    then Some (Demo.record 126 Byte.x00 Byte.x00 Byte.x00 Byte.x3f)
    else None in
  Z.of_nat (List.length
              (strip_markers (Demo.record 126 Byte.x00 Byte.x00 Byte.x00 Byte.x3f)))
    <> 4 * box_items (setup Demo.model) /\
  exists cube,
    read_single_box fs Demo.model "rhoinv" 0 0 = Ok cube /\
    shape cube = [5; 5; 5]%nat.
Proof.
  split; [vm_compute; discriminate|].
  eexists. split; [vm_compute; reflexivity|reflexivity].
Qed.

(** C3 (amended): the reader has no length check of its own and no
    FormatError.  For a primitive component whose file exists, a payload
    (the bytes left after dropping four at each end) shorter than
    [4 * nx*ny*nz*(lpd+1)^3] bytes makes [read_single_box] raise the
    TypeError of the array constructor; a payload of that many bytes or
    more is not rejected, also when it is too long: the array is laid over
    the decoded payload and the call goes on to the reshape. *)
Theorem read_single_box_payload_length
    (fs : filesystem) (self : ses3d_fields) (component : string)
    (proc_number iteration : Z) (filename : string) (data : list Byte.byte) :
  in_components (pure_components self) component = true ->
  compose_filenames self component proc_number iteration = Ok filename ->
  fs filename = Some data ->
  nonneg_shape (setup self) ->
  (Z.of_nat (List.length (strip_markers data)) < 4 * box_items (setup self) ->
   read_single_box fs self component proc_number iteration = Raise TypeError)
  /\
  (4 * box_items (setup self) <= Z.of_nat (List.length (strip_markers data)) ->
   read_single_box fs self component proc_number iteration
   = reshape_box (setup self) (file_shape (setup self))
       (mk_ndarray (map Z.to_nat (file_shape (setup self)))
                   (strides_F (map Z.to_nat (file_shape (setup self))))
                   (frombuffer (strip_markers data)))).
Proof.
  intros Hp Hf Hfs Hnn.
  rewrite (read_single_box_by_length fs self component proc_number iteration
             filename data Hp Hf Hfs Hnn).
  split; intros Hlen.
  - destruct (Z.ltb_spec (Z.of_nat (List.length (strip_markers data)))
                (4 * box_items (setup self))); [reflexivity|lia].
  - destruct (Z.ltb_spec (Z.of_nat (List.length (strip_markers data)))
                (4 * box_items (setup self))); [lia|reflexivity].
Qed.

Lemma read_single_box_payload_length_witness :
  let short : filesystem := fun name =>
    if String.eqb name "MODELS/rhoinv0"
    then Some (Demo.record 124 Byte.x00 Byte.x00 Byte.x00 Byte.x3f)
    else None in
  read_single_box short Demo.model "rhoinv" 0 0 = Raise TypeError.
Proof.
  intros short.
  apply (read_single_box_payload_length short Demo.model "rhoinv" 0 0
           "MODELS/rhoinv0"
           (Demo.record 124 Byte.x00 Byte.x00 Byte.x00 Byte.x3f)).
  - reflexivity.
  - reflexivity.
  - reflexivity.
  - vm_compute. repeat split; discriminate.
  - vm_compute. reflexivity.
Defined.

(* ------------------------------------------------------------------ *)
(** ** Minima, maxima and the nearest radial index *)
(* ------------------------------------------------------------------ *)

Lemma least_unique (l : list Q) (m m' : Q) :
  least m l -> least m' l -> (m == m')%Q.
Proof.
  intros [Hin Hle] [Hin' Hle']. apply Qle_antisym; auto.
Qed.

Lemma greatest_unique (l : list Q) (m m' : Q) :
  greatest m l -> greatest m' l -> (m == m')%Q.
Proof.
  intros [Hin Hle] [Hin' Hle']. apply Qle_antisym; auto.
Qed.

Lemma Qmin_cases (a b : Q) :
  (Qmin a b = b /\ (b <= a)%Q) \/ (Qmin a b = a /\ (a <= b)%Q).
Proof.
  unfold Qmin. destruct (Qle_bool b a) eqn:E.
  - left. split; [reflexivity|]. apply Qle_bool_iff. exact E.
  - right. split; [reflexivity|].
    destruct (Qlt_le_dec a b) as [Hlt|Hle]; [apply Qlt_le_weak; exact Hlt|].
    apply Qle_bool_iff in Hle. congruence.
Qed.

Lemma Qmax_cases (a b : Q) :
  (Qmax a b = b /\ (a <= b)%Q) \/ (Qmax a b = a /\ (b <= a)%Q).
Proof.
  unfold Qmax. destruct (Qle_bool a b) eqn:E.
  - left. split; [reflexivity|]. apply Qle_bool_iff. exact E.
  - right. split; [reflexivity|].
    destruct (Qlt_le_dec b a) as [Hlt|Hle]; [apply Qlt_le_weak; exact Hlt|].
    apply Qle_bool_iff in Hle. congruence.
Qed.

(** Folding a choice function that returns the smaller (larger) of its two
    arguments yields a least (greatest) entry, whichever way ties go. *)
Section Selection.

Variable sel : Q -> Q -> Q.

Section Smallest.
Hypothesis sel_min :
  forall a b, (sel a b = b /\ (b <= a)%Q) \/ (sel a b = a /\ (a <= b)%Q).

Lemma fold_sel_least (l : list Q) (x : Q) :
  least (fold_left sel l x) (x :: l).
Proof.
  revert x. induction l as [|y l IH]; intros x; cbn [fold_left].
  - split; [left; reflexivity|]. intros w [<-|[]]. apply Qle_refl.
  - specialize (IH (sel x y)).
    destruct (sel_min x y) as [[E H]|[E H]]; rewrite E in *;
      destruct IH as [Hin Hle]; split.
    + destruct Hin as [Hin|Hin]; [right; left|right; right]; exact Hin.
    + intros w [<-|[<-|Hw]].
      * eapply Qle_trans; [apply Hle; left; reflexivity|exact H].
      * apply Hle. left. reflexivity.
      * apply Hle. right. exact Hw.
    + destruct Hin as [Hin|Hin]; [left|right; right]; exact Hin.
    + intros w [<-|[<-|Hw]].
      * apply Hle. left. reflexivity.
      * eapply Qle_trans; [apply Hle; left; reflexivity|exact H].
      * apply Hle. right. exact Hw.
Qed.
End Smallest.

Section Largest.
Hypothesis sel_max :
  forall a b, (sel a b = b /\ (a <= b)%Q) \/ (sel a b = a /\ (b <= a)%Q).

Lemma fold_sel_greatest (l : list Q) (x : Q) :
  greatest (fold_left sel l x) (x :: l).
Proof.
  revert x. induction l as [|y l IH]; intros x; cbn [fold_left].
  - split; [left; reflexivity|]. intros w [<-|[]]. apply Qle_refl.
  - specialize (IH (sel x y)).
    destruct (sel_max x y) as [[E H]|[E H]]; rewrite E in *;
      destruct IH as [Hin Hle]; split.
    + destruct Hin as [Hin|Hin]; [right; left|right; right]; exact Hin.
    + intros w [<-|[<-|Hw]].
      * eapply Qle_trans; [exact H|apply Hle; left; reflexivity].
      * apply Hle. left. reflexivity.
      * apply Hle. right. exact Hw.
    + destruct Hin as [Hin|Hin]; [left|right; right]; exact Hin.
    + intros w [<-|[<-|Hw]].
      * apply Hle. left. reflexivity.
      * eapply Qle_trans; [exact H|apply Hle; left; reflexivity].
      * apply Hle. right. exact Hw.
Qed.
End Largest.

End Selection.

Lemma Qle_bool_false (a b : Q) : Qle_bool a b = false -> (b <= a)%Q.
Proof.
  intros E. destruct (Qlt_le_dec b a) as [Hlt|Hle].
  - apply Qlt_le_weak. exact Hlt.
  - apply Qle_bool_iff in Hle. congruence.
Qed.

Lemma py_scan_cases (a b : Q) :
  ((if Qlt_bool b a then b else a) = b /\ (b <= a)%Q) \/
  ((if Qlt_bool b a then b else a) = a /\ (a <= b)%Q).
Proof.
  unfold Qlt_bool. destruct (Qle_bool a b) eqn:E; cbn [negb].
  - right. split; [reflexivity|]. apply Qle_bool_iff. exact E.
  - left. split; [reflexivity|]. apply Qle_bool_false. exact E.
Qed.

Lemma np_min_least (l : list Q) (m : Q) : np_min l = Ok m -> least m l.
Proof.
  destruct l as [|x l]; [discriminate|]. cbn [np_min].
  intros H. injection H as <-. apply fold_sel_least. apply Qmin_cases.
Qed.

Lemma np_max_greatest (l : list Q) (m : Q) : np_max l = Ok m -> greatest m l.
Proof.
  destruct l as [|x l]; [discriminate|]. cbn [np_max].
  intros H. injection H as <-. apply fold_sel_greatest. apply Qmax_cases.
Qed.

Lemma np_min_nonempty (l : list Q) : l <> [] -> exists m, np_min l = Ok m.
Proof. destruct l; [contradiction|]. intros _. eexists. reflexivity. Qed.

Lemma np_max_nonempty (l : list Q) : l <> [] -> exists m, np_max l = Ok m.
Proof. destruct l; [contradiction|]. intros _. eexists. reflexivity. Qed.

(** The builtin [min] keeps an entry that no entry is strictly below. *)
Lemma py_min_least (l : list Q) (m : Q) : py_min l = Ok m -> least m l.
Proof.
  destruct l as [|x l]; [discriminate|]. cbn [py_min].
  intros H. injection H as <-.
  apply (fold_sel_least (fun best v => if Qlt_bool v best then v else best)).
  intros a b. apply py_scan_cases.
Qed.

Lemma py_min_nat_least (l : list nat) (m : nat) :
  py_min_nat l = Ok m -> In m l /\ forall x, In x l -> (m <= x)%nat.
Proof.
  destruct l as [|x l]; [discriminate|]. cbn [py_min_nat].
  intros H. injection H as <-.
  revert x. induction l as [|y l IH]; intros x; cbn [fold_left].
  - split; [left; reflexivity|]. intros w [<-|[]]. lia.
  - specialize (IH (if (y <? x)%nat then y else x)).
    destruct (Nat.ltb_spec y x) as [Hyx|Hyx]; destruct IH as [Hin Hle]; split.
    + destruct Hin as [Hin|Hin]; [right; left|right; right]; exact Hin.
    + intros w [<-|[<-|Hw]].
      * specialize (Hle y (or_introl eq_refl)). lia.
      * apply Hle. left. reflexivity.
      * apply Hle. right. exact Hw.
    + destruct Hin as [Hin|Hin]; [left|right; right]; exact Hin.
    + intros w [<-|[<-|Hw]].
      * apply Hle. left. reflexivity.
      * specialize (Hle x (or_introl eq_refl)). lia.
      * apply Hle. right. exact Hw.
Qed.

Lemma np_where_from_spec (mask : list bool) (k i : nat) :
  In i (np_where_from k mask)
  <-> (k <= i)%nat /\ nth_error mask (i - k) = Some true.
Proof.
  revert k. induction mask as [|b mask IH]; intros k; cbn [np_where_from].
  - split; [intros []|]. intros [_ H]. destruct (i - k)%nat; discriminate H.
  - assert (Hrec : In i (np_where_from (S k) mask)
                   <-> (k < i)%nat /\ nth_error mask (i - S k) = Some true).
    { rewrite IH. reflexivity. }
    assert (Hstep : forall b', (k < i)%nat ->
              nth_error (b' :: mask) (i - k) = nth_error mask (i - S k)).
    { intros b' Hlt. replace (i - k)%nat with (S (i - S k)) by lia. reflexivity. }
    destruct b; cbn [In]; rewrite Hrec; split.
    + intros [<-|[Hlt Hn]].
      * split; [lia|]. rewrite Nat.sub_diag. reflexivity.
      * split; [lia|]. rewrite Hstep by exact Hlt. exact Hn.
    + intros [Hle Hn]. destruct (Nat.eq_dec k i) as [->|Hne]; [left; reflexivity|].
      right. split; [lia|]. rewrite <- (Hstep true) by lia. exact Hn.
    + intros [Hlt Hn]. split; [lia|]. rewrite Hstep by exact Hlt. exact Hn.
    + intros [Hle Hn]. destruct (Nat.eq_dec k i) as [->|Hne].
      * rewrite Nat.sub_diag in Hn. discriminate Hn.
      * split; [lia|]. rewrite <- (Hstep false) by lia. exact Hn.
Qed.

Lemma np_where_spec (mask : list bool) (i : nat) :
  In i (np_where mask) <-> nth_error mask i = Some true.
Proof.
  unfold np_where. rewrite np_where_from_spec, Nat.sub_0_r.
  split; [intros [_ H]; exact H|]. intros H. split; [lia|exact H].
Qed.

Lemma depth_index_nearest_first (zrow : list Q) (radius : Q) (i : nat) :
  depth_index zrow radius = Ok i -> nearest_first zrow radius i.
Proof.
  unfold depth_index.
  change (fun v => Qabs (F64.sub v radius)) with (fun v => distance v radius).
  intros H. bind_inv H.
  apply py_min_least in E. destruct E as [_ Hmin].
  apply py_min_nat_least in H. destruct H as [Hin Hfirst].
  apply np_where_spec in Hin.
  rewrite !nth_error_map in Hin.
  destruct (nth_error zrow i) as [zsel|] eqn:Ez; [|discriminate Hin].
  assert (Heq : Qeq_bool v (distance zsel radius) = true)
    by (cbv beta iota delta [option_map] in Hin; congruence).
  clear Hin. apply Qeq_bool_iff in Heq.
  exists zsel. split; [exact Ez|].
  intros j zj Hj.
  assert (Hdj : nth_error (map (fun v0 => distance v0 radius) zrow) j
                = Some (distance zj radius)).
  { rewrite nth_error_map, Hj. reflexivity. }
  split.
  - rewrite <- Heq. apply Hmin. eapply nth_error_In. exact Hdj.
  - intros Htie. apply Hfirst. apply np_where_spec.
    rewrite nth_error_map, Hdj. cbn [option_map]. f_equal.
    apply Qeq_bool_iff. rewrite Heq. symmetry. exact Htie.
Qed.


(* ------------------------------------------------------------------ *)
(** ** The loop over processor boxes *)
(* ------------------------------------------------------------------ *)

Lemma for_each_nil {A S : Type} (body : S -> A -> result S) (s : S) :
  for_each [] body s = Ok s.
Proof. reflexivity. Qed.

Lemma fold_left_Raise {A S : Type} (body : S -> A -> result S) (l : list A)
    (e : exn) :
  fold_left (fun acc a => (s' <- acc ;; body s' a)%py) l (Raise e) = Raise e.
Proof. induction l as [|a l IH]; [reflexivity|exact IH]. Qed.

Lemma for_each_cons {A S : Type} (body : S -> A -> result S) (a : A)
    (l : list A) (s : S) :
  for_each (a :: l) body s = (s' <- body s a ;; for_each l body s')%py.
Proof.
  unfold for_each. cbn [fold_left bind].
  destruct (body s a) as [s'|e]; cbn [bind]; [reflexivity|].
  apply fold_left_Raise.
Qed.

Lemma for_each_app {A S : Type} (body : S -> A -> result S) (l1 l2 : list A)
    (s : S) :
  for_each (l1 ++ l2) body s
  = (s' <- for_each l1 body s ;; for_each l2 body s')%py.
Proof.
  revert s. induction l1 as [|a l1 IH]; intros s; [reflexivity|].
  cbn [app]. rewrite !for_each_cons.
  destruct (body s a) as [s'|e]; cbn [bind]; [apply IH|reflexivity].
Qed.

Lemma plot_box_outcome (fs : filesystem) (self : ses3d_fields)
    (component : string) (radius : Q) (iteration : Z)
    (loc loc' : locals_t) (p : nat) :
  plot_box fs self component radius iteration loc p = Ok loc' ->
  (intersects self radius p = false /\ loc' = loc)
  \/
  (intersects self radius p = true /\
   exists m, box m = p /\ mesh_ok self radius m /\
             drawn loc' = drawn loc ++ [m] /\
             im loc' = Some m /\ idz loc' = Some (idz_of m)).
Proof.
  unfold plot_box, intersects, row. intros H.
  destruct (nth_error (z (coords self)) p) as [zrow|] eqn:Ez; [|discriminate H].
  cbn [bind] in H.
  destruct (box_contains zrow radius) as [[|]|e] eqn:Eb; cbn [bind] in H;
    [| |discriminate H].
  - right. split; [reflexivity|].
    bind_inv H. bind_inv H. bind_inv H. bind_inv H. bind_inv H. bind_inv H.
    bind_inv H. injection H as <-. cbn [drawn im idz].
    eexists. split; [|split; [|split; [reflexivity|split; reflexivity]]].
    + reflexivity.
    + exists zrow. cbn [box idz_of]. auto.
  - left. split; [reflexivity|]. injection H as <-. reflexivity.
Qed.

Lemma plot_loop_outcome (fs : filesystem) (self : ses3d_fields)
    (component : string) (radius : Q) (iteration : Z) (l : list nat) :
  forall loc loc',
  for_each l (plot_box fs self component radius iteration) loc = Ok loc' ->
  exists ms,
    drawn loc' = drawn loc ++ ms /\
    map box ms = filter (intersects self radius) l /\
    Forall (mesh_ok self radius) ms /\
    (ms = [] -> loc' = loc) /\
    (ms <> [] -> exists m, im loc' = Some m /\ idz loc' = Some (idz_of m)
                           /\ In m ms).
Proof.
  induction l as [|p l IH]; intros loc loc' H.
  - rewrite for_each_nil in H. injection H as <-.
    exists []. rewrite app_nil_r. repeat split; auto. intros C. contradiction.
  - rewrite for_each_cons in H. bind_inv H.
    apply plot_box_outcome in E.
    destruct (IH _ _ H) as (ms & Hd & Hb & Hok & Hnil & Hne).
    destruct E as [[Hi ->]|[Hi (m & Hbox & Hm & Hdm & Him & Hidz)]].
    + exists ms. cbn [filter]. rewrite Hi. repeat split; auto.
    + exists (m :: ms). cbn [filter]. rewrite Hi. split; [|split; [|split; [|split]]].
      * rewrite Hd, Hdm, <- app_assoc. reflexivity.
      * cbn [map]. rewrite Hbox, Hb. reflexivity.
      * constructor; assumption.
      * discriminate.
      * intros _. destruct ms as [|m' ms'].
        -- rewrite (Hnil eq_refl). exists m. repeat split; auto. left. reflexivity.
        -- destruct Hne as (m'' & H1 & H2 & H3); [discriminate|].
           exists m''. repeat split; auto. right. exact H3.
Qed.

Lemma box_contains_true_iff (zrow : list Q) (radius : Q) :
  box_contains zrow radius = Ok true <-> in_z_range zrow radius.
Proof.
  unfold box_contains, in_z_range. split.
  - intros H. bind_inv H. bind_inv H. injection H as H.
    apply andb_true_iff in H. destruct H as [H1 H2].
    apply Qle_bool_iff in H1, H2.
    exists v, v0.
    split; [apply np_min_least; exact E|].
    split; [apply np_max_greatest; exact E0|].
    split; assumption.
  - intros (lo & hi & Hlo & Hhi & H1 & H2).
    assert (Hne : zrow <> []) by (destruct Hlo as [Hin _]; destruct zrow; [destruct Hin|discriminate]).
    destruct (np_min_nonempty zrow Hne) as [m Em].
    destruct (np_max_nonempty zrow Hne) as [M EM].
    rewrite Em, EM. cbn [bind].
    pose proof (least_unique _ _ _ (np_min_least _ _ Em) Hlo) as Hm.
    pose proof (greatest_unique _ _ _ (np_max_greatest _ _ EM) Hhi) as HM.
    assert (B1 : Qle_bool m radius = true) by (apply Qle_bool_iff; rewrite Hm; exact H1).
    assert (B2 : Qle_bool radius M = true) by (apply Qle_bool_iff; rewrite HM; exact H2).
    rewrite B1, B2. reflexivity.
Qed.

Lemma box_contains_nonempty (zrow : list Q) (radius : Q) :
  zrow <> [] -> exists b, box_contains zrow radius = Ok b.
Proof.
  intros Hne. unfold box_contains.
  destruct (np_min_nonempty zrow Hne) as [m ->].
  destruct (np_max_nonempty zrow Hne) as [M ->].
  eexists. reflexivity.
Qed.

Lemma intersects_true_iff (self : ses3d_fields) (radius : Q) (p : nat) :
  intersects self radius p = true
  <-> exists zrow, nth_error (z (coords self)) p = Some zrow
                   /\ in_z_range zrow radius.
Proof.
  unfold intersects. split.
  - destruct (nth_error (z (coords self)) p) as [zrow|]; [|discriminate].
    destruct (box_contains zrow radius) as [b|e] eqn:E; [|discriminate].
    intros ->. exists zrow. split; [reflexivity|].
    apply box_contains_true_iff. exact E.
  - intros (zrow & -> & Hr). apply box_contains_true_iff in Hr.
    rewrite Hr. reflexivity.
Qed.

Lemma for_each_unchanged {A S : Type} (body : S -> A -> result S) (l : list A)
    (s : S) :
  (forall a, In a l -> body s a = Ok s) -> for_each l body s = Ok s.
Proof.
  induction l as [|a l IH]; intros H; [reflexivity|].
  rewrite for_each_cons, (H a (or_introl eq_refl)). cbn [bind].
  apply IH. intros a' Ha'. apply H. right. exact Ha'.
Qed.

Lemma plot_box_skip (fs : filesystem) (self : ses3d_fields)
    (component : string) (radius : Q) (iteration : Z) (loc : locals_t)
    (p : nat) (zrow : list Q) :
  nth_error (z (coords self)) p = Some zrow -> zrow <> [] ->
  ~ in_z_range zrow radius ->
  plot_box fs self component radius iteration loc p = Ok loc.
Proof.
  intros Hrow Hne Hout. unfold plot_box, row. rewrite Hrow. cbn [bind].
  destruct (box_contains_nonempty zrow radius Hne) as [b Hb].
  rewrite Hb. cbn [bind].
  destruct b; [|reflexivity].
  exfalso. apply Hout. apply box_contains_true_iff. exact Hb.
Qed.

(* ------------------------------------------------------------------ *)
(** ** plot_depth_slice *)
(* ------------------------------------------------------------------ *)

Lemma plot_depth_slice_inv (fs : filesystem) (self : ses3d_fields)
    (component : string) (depth : Q) (iteration : Z) (fig : figure_t) :
  plot_depth_slice fs self component depth iteration = Ok fig ->
  exists lines loc,
    graticule (setup self) = Ok lines /\
    for_each (seq 0 (Z.to_nat (n_procs_of self)))
      (plot_box fs self component (radius_of depth) iteration)
      (mk_locals (S754_infinity true) (S754_infinity false) None None [])
    = Ok loc /\
    meshes fig = drawn loc /\
    im loc = Some (colorbar_of fig) /\
    value_min fig = vmin loc /\ value_max fig = vmax loc /\
    exists i zrow zval,
      idz loc = Some i /\
      nth_error (z (coords self)) (Z.to_nat (n_procs_of self) - 1) = Some zrow /\
      nth_error zrow i = Some zval /\
      title_km fig = py_int (F64.div zval 1000).
Proof.
  unfold plot_depth_slice. cbv zeta. fold (n_procs_of self) (radius_of depth).
  intros H.
  bind_inv H. rename v into lines, E into Eg.
  bind_inv H. rename v into loc, E into Eloop.
  bind_inv H. rename v into image, E into Eim.
  bind_inv H. rename v into i, E into Eidz.
  bind_inv H. rename v into zrow, E into Erow.
  bind_inv H. rename v into zval, E into Eval.
  injection H as <-. cbn [meshes colorbar_of title_km value_min value_max].
  exists lines, loc. split; [exact Eg|]. split; [exact Eloop|].
  split; [reflexivity|].
  split; [destruct (im loc); [injection Eim as ->; reflexivity|discriminate Eim]|].
  split; [reflexivity|]. split; [reflexivity|].
  exists i, zrow, zval.
  split; [destruct (idz loc); [injection Eidz as ->; reflexivity|discriminate Eidz]|].
  unfold row in Erow.
  destruct (nth_error (z (coords self)) _) as [r|] eqn:Er; [|discriminate Erow].
  injection Erow as ->. split; [reflexivity|].
  unfold index in Eval. rewrite Nat2Z.id in Eval.
  destruct (nth_error zrow i) as [x|]; [|discriminate Eval].
  injection Eval as ->. split; reflexivity.
Qed.

(** C8: when [plot_depth_slice] returns, the boxes it has drawn are, in
    increasing order and once each, the boxes that pass the test of line
    325; a box passes exactly when the target radius, computed in binary64
    as line 294 does, lies between the smallest and the largest z
    coordinate of the box, both bounds included, so a radius equal to either
    bound selects the box. *)
Theorem plot_depth_slice_draws_intersecting_boxes
    (fs : filesystem) (self : ses3d_fields) (component : string) (depth : Q)
    (iteration : Z) (fig : figure_t) :
  plot_depth_slice fs self component depth iteration = Ok fig ->
  map box (meshes fig)
  = filter (intersects self (radius_of depth))
           (seq 0 (Z.to_nat (n_procs_of self)))
  /\
  forall p,
    In p (map box (meshes fig))
    <-> (Z.of_nat p < n_procs_of self /\
         exists zrow lo hi,
           nth_error (z (coords self)) p = Some zrow /\
           least lo zrow /\ greatest hi zrow /\
           (lo <= radius_of depth)%Q /\ (radius_of depth <= hi)%Q).
Proof.
  intros H. apply plot_depth_slice_inv in H.
  destruct H as (lines & loc & _ & E & Hm & _).
  apply plot_loop_outcome in E.
  destruct E as (ms & Hd & Hb & _). cbn [drawn app] in Hd.
  rewrite Hm, Hd.
  split; [exact Hb|].
  intros p. rewrite Hb, filter_In, in_seq, intersects_true_iff.
  unfold in_z_range. split.
  - intros [Hp (zrow & Hz & lo & hi & Hr)].
    split; [lia|]. exists zrow, lo, hi. tauto.
  - intros [Hp (zrow & lo & hi & Hz & Hr)].
    split; [lia|]. exists zrow. split; [exact Hz|]. exists lo, hi. tauto.
Qed.

(** C9: when [plot_depth_slice] returns, every box that passes the test of
    line 325 has been drawn, and it was sliced at a radial index whose
    distance to the target radius, computed in binary64 as line 334 does
    (np.abs(z - radius), with the radius of line 294), is minimal over the
    box; no lower index of the box is at that distance. *)
Theorem plot_depth_slice_nearest_index
    (fs : filesystem) (self : ses3d_fields) (component : string) (depth : Q)
    (iteration : Z) (fig : figure_t) :
  plot_depth_slice fs self component depth iteration = Ok fig ->
  forall p,
    Z.of_nat p < n_procs_of self ->
    intersects self (radius_of depth) p = true ->
    exists m zrow zsel,
      In m (meshes fig) /\ box m = p /\
      nth_error (z (coords self)) p = Some zrow /\
      nth_error zrow (idz_of m) = Some zsel /\
      forall j zj, nth_error zrow j = Some zj ->
        (distance zsel (radius_of depth) <= distance zj (radius_of depth))%Q /\
        ((distance zj (radius_of depth) == distance zsel (radius_of depth))%Q ->
         (idz_of m <= j)%nat).
Proof.
  intros H p Hp Hin. apply plot_depth_slice_inv in H.
  destruct H as (lines & loc & _ & E & Hm & _).
  apply plot_loop_outcome in E.
  destruct E as (ms & Hd & Hb & Hok & _). cbn [drawn app] in Hd.
  rewrite Hm, Hd.
  assert (Hbox : In p (map box ms)).
  { rewrite Hb. apply filter_In. split; [apply in_seq; lia|exact Hin]. }
  apply in_map_iff in Hbox. destruct Hbox as (m & <- & Hmem).
  rewrite Forall_forall in Hok.
  destruct (Hok m Hmem) as (zrow & Hz & _ & Hi).
  apply depth_index_nearest_first in Hi. destruct Hi as (zsel & Hsel & Hnear).
  exists m, zrow, zsel. auto.
Qed.



(* ------------------------------------------------------------------ *)
(** ** Index arithmetic of arrays *)
(* ------------------------------------------------------------------ *)

Local Close Scope Z_scope.
Local Open Scope nat_scope.

Lemma in_bounds_length (idx shp : list nat) :
  in_bounds idx shp = true -> List.length idx = List.length shp.
Proof.
  revert shp. induction idx as [|i idx IH]; intros [|d shp]; cbn [in_bounds];
    try discriminate; [reflexivity|].
  intros H. apply andb_true_iff in H. destruct H as [_ H].
  cbn [List.length]. f_equal. apply IH. exact H.
Qed.

Lemma in_bounds_cons (i d : nat) (idx shp : list nat) :
  in_bounds (i :: idx) (d :: shp) = true <-> i < d /\ in_bounds idx shp = true.
Proof.
  cbn [in_bounds]. rewrite andb_true_iff, Nat.ltb_lt. reflexivity.
Qed.

Lemma length_flat_map_uniform {A B : Type} (f : A -> list B) (l : list A)
    (m : nat) :
  (forall a, In a l -> List.length (f a) = m) ->
  List.length (flat_map f l) = List.length l * m.
Proof.
  induction l as [|a l IH]; intros H; [reflexivity|].
  cbn [flat_map List.length]. rewrite length_app, (H a (or_introl eq_refl)), IH.
  - lia.
  - intros a' Ha'. apply H. right. exact Ha'.
Qed.

Lemma nth_error_flat_map_uniform {A B : Type} (f : A -> list B) (l : list A)
    (m i j : nat) (a : A) :
  (forall a', In a' l -> List.length (f a') = m) ->
  nth_error l i = Some a -> j < m ->
  nth_error (flat_map f l) (i * m + j) = nth_error (f a) j.
Proof.
  revert i. induction l as [|a0 l IH]; intros i Hlen Hi Hj.
  - destruct i; discriminate Hi.
  - cbn [flat_map]. destruct i as [|i].
    + injection Hi as ->. cbn [Nat.mul Nat.add].
      apply nth_error_app1. rewrite (Hlen a (or_introl eq_refl)). exact Hj.
    + cbn [nth_error] in Hi.
      rewrite nth_error_app2 by (rewrite (Hlen a0 (or_introl eq_refl)); lia).
      rewrite (Hlen a0 (or_introl eq_refl)).
      replace (Datatypes.S i * m + j - m) with (i * m + j) by lia.
      apply IH; auto. intros a' Ha'. apply Hlen. right. exact Ha'.
Qed.

Lemma length_ndindex (shp : list nat) :
  List.length (ndindex shp) = size_of shp.
Proof.
  induction shp as [|d ds IH]; [reflexivity|].
  cbn [ndindex size_of fold_right].
  rewrite (length_flat_map_uniform _ _ (size_of ds)).
  - rewrite length_seq. reflexivity.
  - intros i _. rewrite length_map. exact IH.
Qed.

Lemma dot_strides_C_lt (idx shp : list nat) :
  in_bounds idx shp = true -> dot idx (strides_C shp) < size_of shp.
Proof.
  revert idx. induction shp as [|d ds IH]; intros [|i idx]; cbn [in_bounds];
    try discriminate.
  - intros _. cbn. lia.
  - intros H. apply andb_true_iff in H. destruct H as [Hi H].
    apply Nat.ltb_lt in Hi. specialize (IH idx H).
    cbn [strides_C dot size_of fold_right]. fold (size_of ds). nia.
Qed.

Lemma nth_error_ndindex (idx shp : list nat) :
  in_bounds idx shp = true ->
  nth_error (ndindex shp) (dot idx (strides_C shp)) = Some idx.
Proof.
  revert idx. induction shp as [|d ds IH]; intros [|i idx]; cbn [in_bounds];
    try discriminate.
  - intros _. reflexivity.
  - intros H. apply andb_true_iff in H. destruct H as [Hi H].
    apply Nat.ltb_lt in Hi.
    cbn [ndindex strides_C dot].
    rewrite (nth_error_flat_map_uniform _ _ (size_of ds) i _ i).
    + rewrite nth_error_map, (IH idx H). reflexivity.
    + intros i' _. rewrite length_map. apply length_ndindex.
    + rewrite nth_error_seq. destruct (Nat.ltb_spec i d); [reflexivity|lia].
    + apply dot_strides_C_lt. exact H.
Qed.

Lemma in_ndindex (idx shp : list nat) :
  In idx (ndindex shp) -> in_bounds idx shp = true.
Proof.
  revert idx. induction shp as [|d ds IH]; intros idx; cbn [ndindex].
  - intros [<-|[]]. reflexivity.
  - rewrite in_flat_map. intros (i & Hi & Hin).
    apply in_seq in Hi. apply in_map_iff in Hin. destruct Hin as (idx' & <- & Hin).
    apply in_bounds_cons. split; [lia|]. apply IH. exact Hin.
Qed.

Lemma in_bounds_positive (idx shp : list nat) :
  in_bounds idx shp = true -> Forall (fun d => 0 < d) shp.
Proof.
  revert idx. induction shp as [|d ds IH]; intros [|i idx]; cbn [in_bounds];
    try discriminate; [constructor|].
  intros H. apply andb_true_iff in H. destruct H as [Hi H].
  apply Nat.ltb_lt in Hi. constructor; [lia|]. apply (IH idx H).
Qed.

Lemma dot_le_max (idx shp str : list nat) :
  in_bounds idx shp = true -> dot idx str <= dot (map pred shp) str.
Proof.
  revert idx str. induction shp as [|d ds IH]; intros [|i idx] str;
    cbn [in_bounds]; try discriminate; [intros _; reflexivity|].
  intros H. apply andb_true_iff in H. destruct H as [Hi H].
  apply Nat.ltb_lt in Hi. destruct str as [|s str]; [reflexivity|].
  cbn [map dot]. specialize (IH idx str H).
  assert (i * s <= pred d * s) by (apply Nat.mul_le_mono_r; lia). lia.
Qed.

Lemma well_laid_offset {T : Type} (a : ndarray T) (idx : list nat) :
  well_laid a -> in_bounds idx (shape a) = true ->
  dot idx (strides a) < List.length (buffer a).
Proof.
  intros [_ Hmax] Hin.
  specialize (Hmax (in_bounds_positive _ _ Hin)).
  pose proof (dot_le_max idx (shape a) (strides a) Hin). unfold max_offset in Hmax.
  lia.
Qed.

Lemma rollaxis_by_plan {T : Type} (a : ndarray T) (axis start : Z) :
  rollaxis a axis start
  = (plan <- rollaxis_plan (List.length (shape a)) axis start ;;
     Ok (apply_plan a plan))%py.
Proof.
  unfold rollaxis, rollaxis_plan. cbv zeta.
  repeat match goal with
         | |- context [if ?c then _ else _] => destruct c
         end; reflexivity.
Qed.

Lemma list_remove_perm (x : nat) (l : list nat) :
  In x l -> Permutation (x :: list_remove x l) l.
Proof.
  induction l as [|y l IH]; [intros []|].
  intros Hin. cbn [list_remove]. destruct (Nat.eqb_spec x y) as [->|Hne].
  - reflexivity.
  - destruct Hin as [->|Hin]; [contradiction|].
    rewrite perm_swap. constructor. apply IH. exact Hin.
Qed.

Lemma list_insert_perm (i x : nat) (l : list nat) :
  Permutation (list_insert i x l) (x :: l).
Proof.
  unfold list_insert. rewrite <- Permutation_middle, firstn_skipn. reflexivity.
Qed.

Lemma rollaxis_plan_perm (ndim : nat) (axis start : Z) (axes : list nat) :
  rollaxis_plan ndim axis start = Ok (Some axes) ->
  Permutation axes (seq 0 ndim).
Proof.
  unfold rollaxis_plan. cbv zeta.
  set (ax := if (axis <? 0)%Z then (axis + Z.of_nat ndim)%Z else axis).
  set (st := if (start <? 0)%Z then (start + Z.of_nat ndim)%Z else start).
  destruct ((0 <=? ax)%Z && (ax <? Z.of_nat ndim)%Z) eqn:Eax; cbn [negb];
    [|discriminate].
  destruct ((0 <=? st)%Z && (st <? Z.of_nat ndim + 1)%Z); cbn [negb];
    [|discriminate].
  destruct (ax =? _)%Z; [discriminate|].
  intros H. injection H as <-.
  rewrite list_insert_perm. apply list_remove_perm.
  apply andb_true_iff in Eax. destruct Eax as [H0 H1].
  apply in_seq. lia.
Qed.

Lemma dot_map_sum (f g : nat -> nat) (axes : list nat) :
  dot (map f axes) (map g axes) = list_sum (map (fun ax => f ax * g ax) axes).
Proof.
  induction axes as [|ax axes IH]; [reflexivity|].
  cbn [map dot list_sum fold_right]. rewrite IH. reflexivity.
Qed.

Lemma map_nth_seq {A : Type} (l : list A) (d : A) :
  map (fun k => nth k l d) (seq 0 (List.length l)) = l.
Proof.
  induction l as [|x l IH]; [reflexivity|].
  cbn [List.length seq map nth]. f_equal.
  rewrite <- seq_shift, map_map. exact IH.
Qed.

Lemma transpose_identity_layout {T : Type} (a : ndarray T) :
  List.length (strides a) = List.length (shape a) ->
  max_offset a
  = list_sum (map (fun ax => pred (nth ax (shape a) 0) * nth ax (strides a) 0)
                  (seq 0 (List.length (shape a)))).
Proof.
  intros Hlen. unfold max_offset.
  rewrite <- (dot_map_sum (fun ax => pred (nth ax (shape a) 0))
                          (fun ax => nth ax (strides a) 0)).
  rewrite <- (map_map (fun ax => nth ax (shape a) 0) pred).
  assert (E1 : map (fun ax => nth ax (shape a) 0) (seq 0 (List.length (shape a)))
               = shape a) by apply map_nth_seq.
  assert (E2 : map (fun ax => nth ax (strides a) 0) (seq 0 (List.length (shape a)))
               = strides a) by (rewrite <- Hlen; apply map_nth_seq).
  rewrite E1, E2. reflexivity.
Qed.

Lemma well_laid_transpose {T : Type} (a : ndarray T) (axes : list nat) :
  well_laid a -> Permutation axes (seq 0 (List.length (shape a))) ->
  well_laid (transpose a axes).
Proof.
  intros [Hlen Hmax] Hperm. split.
  - cbn [transpose shape strides]. rewrite !length_map. reflexivity.
  - intros Hpos. cbn [transpose shape buffer] in *.
    assert (Hpos' : Forall (fun d => 0 < d) (shape a)).
    { apply Forall_forall. intros d Hd.
      destruct (In_nth _ _ 0 Hd) as (k & Hk & <-).
      rewrite Forall_forall in Hpos. apply Hpos.
      apply in_map_iff. exists k. split; [reflexivity|].
      eapply Permutation_in; [symmetry; exact Hperm|]. apply in_seq. lia. }
    specialize (Hmax Hpos').
    unfold max_offset. cbn [transpose shape strides].
    rewrite map_map.
    rewrite (dot_map_sum (fun ax => pred (nth ax (shape a) 0))
                         (fun ax => nth ax (strides a) 0)).
    rewrite (Permutation_list_sum
               (Permutation_map
                  (fun ax => pred (nth ax (shape a) 0) * nth ax (strides a) 0)
                  Hperm)).
    rewrite <- (transpose_identity_layout a Hlen). exact Hmax.
Qed.

Lemma well_laid_apply_plan {T : Type} (a : ndarray T) (axis start : Z)
    (plan : option (list nat)) :
  well_laid a ->
  rollaxis_plan (List.length (shape a)) axis start = Ok plan ->
  well_laid (apply_plan a plan).
Proof.
  intros Hwl Hplan. destruct plan as [axes|]; [|exact Hwl].
  apply well_laid_transpose; [exact Hwl|].
  eapply rollaxis_plan_perm. exact Hplan.
Qed.

Lemma length_shape_apply_plan {T : Type} (a : ndarray T) (axis start : Z)
    (plan : option (list nat)) :
  rollaxis_plan (List.length (shape a)) axis start = Ok plan ->
  List.length (shape (apply_plan a plan)) = List.length (shape a).
Proof.
  intros Hplan. destruct plan as [axes|]; [|reflexivity].
  cbn [apply_plan transpose shape]. rewrite length_map.
  rewrite (Permutation_length (rollaxis_plan_perm _ _ _ _ Hplan)).
  apply length_seq.
Qed.

(* ------------------------------------------------------------------ *)
(** ** Element-wise operations commute with the reshape *)
(* ------------------------------------------------------------------ *)

Lemma nth_map_lt {A B : Type} (f : A -> B) (l : list A) (k : nat) (d : A) (d' : B) :
  k < List.length l -> nth k (map f l) d' = f (nth k l d).
Proof.
  intros Hk. rewrite (nth_indep _ d' (f d)) by (rewrite length_map; exact Hk).
  apply map_nth.
Qed.

Lemma nth_combine_lt {A B : Type} (l1 : list A) (l2 : list B) (k : nat)
    (d1 : A) (d2 : B) :
  k < List.length l1 -> k < List.length l2 ->
  nth k (combine l1 l2) (d1, d2) = (nth k l1 d1, nth k l2 d2).
Proof.
  revert l2 k. induction l1 as [|x l1 IH]; intros [|y l2] [|k]; cbn [List.length];
    try lia; intros H1 H2; [reflexivity|].
  cbn [combine nth]. apply IH; lia.
Qed.

Lemma combine_map_same {A B C : Type} (f : A -> B) (g : A -> C) (l : list A) :
  combine (map f l) (map g l) = map (fun x => (f x, g x)) l.
Proof.
  induction l as [|x l IH]; [reflexivity|]. cbn [map combine]. f_equal. exact IH.
Qed.

Section Elementwise.

Context {T : Type} `{Default T}.

Lemma well_laid_np_map (f : T -> T) (a : ndarray T) :
  well_laid a -> well_laid (np_map f a).
Proof.
  intros [Hlen Hmax]. split; [exact Hlen|].
  intros Hpos. unfold max_offset. cbn [np_map shape strides buffer].
  rewrite length_map. apply Hmax. exact Hpos.
Qed.

Lemma well_laid_np_map2 (f : T -> T -> T) (a b : ndarray T) :
  well_laid a -> well_laid b -> same_layout a b -> well_laid (np_map2 f a b).
Proof.
  intros [Hlen Hmax] [Hlen' Hmax'] [Hs Hst]. split; [exact Hlen|].
  intros Hpos. unfold max_offset. cbn [np_map2 shape strides buffer] in *.
  rewrite length_map, length_combine.
  specialize (Hmax Hpos). rewrite Hs in Hpos. specialize (Hmax' Hpos).
  unfold max_offset in *. rewrite <- Hs, <- Hst in Hmax'. lia.
Qed.

Lemma item_at_np_map (f : T -> T) (a : ndarray T) (idx : list nat) :
  well_laid a -> in_bounds idx (shape a) = true ->
  item_at (np_map f a) idx = f (item_at a idx).
Proof.
  intros Hwl Hin. unfold item_at. cbn [np_map strides buffer].
  apply nth_map_lt. apply well_laid_offset; assumption.
Qed.

Lemma item_at_np_map2 (f : T -> T -> T) (a b : ndarray T) (idx : list nat) :
  well_laid a -> well_laid b -> same_layout a b ->
  in_bounds idx (shape a) = true ->
  item_at (np_map2 f a b) idx = f (item_at a idx) (item_at b idx).
Proof.
  intros Hwa Hwb [Hs Hst] Hin. unfold item_at. cbn [np_map2 strides buffer].
  pose proof (well_laid_offset a idx Hwa Hin) as Ha.
  rewrite Hs in Hin. pose proof (well_laid_offset b idx Hwb Hin) as Hb.
  rewrite <- Hst in Hb.
  rewrite (nth_map_lt _ _ _ (dflt, dflt))
    by (rewrite length_combine; lia).
  rewrite nth_combine_lt by assumption. rewrite Hst. reflexivity.
Qed.

Lemma apply_plan_np_map (f : T -> T) (a : ndarray T) (plan : option (list nat)) :
  apply_plan (np_map f a) plan = np_map f (apply_plan a plan).
Proof. destruct plan; reflexivity. Qed.

Lemma apply_plan_np_map2 (f : T -> T -> T) (a b : ndarray T)
    (plan : option (list nat)) :
  apply_plan (np_map2 f a b) plan
  = np_map2 f (apply_plan a plan) (apply_plan b plan).
Proof. destruct plan; reflexivity. Qed.

Lemma same_layout_apply_plan (a b : ndarray T) (plan : option (list nat)) :
  same_layout a b -> same_layout (apply_plan a plan) (apply_plan b plan).
Proof.
  intros [Hs Hst]. destruct plan as [axes|]; [|split; assumption].
  split; cbn [apply_plan transpose shape strides];
    [rewrite Hs|rewrite Hst]; reflexivity.
Qed.

Lemma reshape_C_np_map (f : T -> T) (a : ndarray T) (ns : list nat) :
  well_laid a ->
  reshape_C (np_map f a) ns = (r <- reshape_C a ns ;; Ok (np_map f r))%py.
Proof.
  intros Hwl. unfold reshape_C. cbn [np_map shape].
  destruct (size_of ns =? size_of (shape a)); [|reflexivity].
  cbn [bind]. unfold np_map at 2. cbn [shape strides buffer].
  f_equal. f_equal. rewrite map_map. apply map_ext_in.
  intros idx Hidx. apply item_at_np_map; [exact Hwl|].
  apply in_ndindex. exact Hidx.
Qed.

Lemma reshape_C_np_map2 (f : T -> T -> T) (a b : ndarray T) (ns : list nat) :
  well_laid a -> well_laid b -> same_layout a b ->
  reshape_C (np_map2 f a b) ns
  = (ra <- reshape_C a ns ;; rb <- reshape_C b ns ;; Ok (np_map2 f ra rb))%py.
Proof.
  intros Hwa Hwb Hsl. unfold reshape_C. cbn [np_map2 shape].
  destruct Hsl as [Hs Hst]. rewrite <- Hs.
  destruct (size_of ns =? size_of (shape a)); [|reflexivity].
  cbn [bind]. unfold np_map2 at 2. cbn [shape strides buffer].
  f_equal. f_equal. rewrite combine_map_same, map_map. apply map_ext_in.
  intros idx Hidx. cbn [fst snd].
  apply item_at_np_map2; [exact Hwa|exact Hwb|split; assumption|].
  apply in_ndindex. exact Hidx.
Qed.

Lemma reshape_box_by_plans (st : setup_t) (shp : list Z) (a : ndarray T) :
  reshape_box st shp a
  = (p1 <- rollaxis_plan (List.length (shape a)) 3 1 ;;
     p2 <- rollaxis_plan (List.length (shape a)) 3 (lpd st + 1) ;;
     reshape_C (apply_plan (apply_plan a p1) p2)
       (map Z.to_nat
          (map (fun ij => (fst ij * snd ij)%Z)
               (combine (firstn 3 shp) (skipn 3 shp)))))%py.
Proof.
  unfold reshape_box. rewrite rollaxis_by_plan.
  destruct (rollaxis_plan (List.length (shape a)) 3 1) as [p1|e] eqn:E1;
    [|reflexivity].
  cbn [bind]. rewrite rollaxis_by_plan.
  rewrite (length_shape_apply_plan a 3 1 p1 E1).
  destruct (rollaxis_plan (List.length (shape a)) 3 (lpd st + 1)); reflexivity.
Qed.

Lemma reshape_box_np_map (st : setup_t) (shp : list Z) (f : T -> T)
    (a : ndarray T) :
  well_laid a ->
  reshape_box st shp (np_map f a)
  = (r <- reshape_box st shp a ;; Ok (np_map f r))%py.
Proof.
  intros Hwl. rewrite !reshape_box_by_plans. cbn [np_map shape].
  destruct (rollaxis_plan (List.length (shape a)) 3 1) as [p1|e] eqn:E1;
    [|reflexivity].
  cbn [bind].
  destruct (rollaxis_plan (List.length (shape a)) 3 (lpd st + 1))
    as [p2|e] eqn:E2; [|reflexivity].
  cbn [bind]. rewrite !apply_plan_np_map. apply reshape_C_np_map.
  apply (well_laid_apply_plan _ 3 (lpd st + 1)).
  - apply (well_laid_apply_plan _ 3 1); assumption.
  - rewrite (length_shape_apply_plan a 3 1 p1 E1). exact E2.
Qed.

Lemma reshape_box_np_map2 (st : setup_t) (shp : list Z) (f : T -> T -> T)
    (a b : ndarray T) :
  well_laid a -> well_laid b -> same_layout a b ->
  reshape_box st shp (np_map2 f a b)
  = (ra <- reshape_box st shp a ;;
     rb <- reshape_box st shp b ;;
     Ok (np_map2 f ra rb))%py.
Proof.
  intros Hwa Hwb Hsl. rewrite !reshape_box_by_plans. cbn [np_map2 shape].
  pose proof Hsl as [Hs _]. rewrite <- Hs.
  destruct (rollaxis_plan (List.length (shape a)) 3 1) as [p1|e] eqn:E1;
    [|reflexivity].
  cbn [bind].
  destruct (rollaxis_plan (List.length (shape a)) 3 (lpd st + 1))
    as [p2|e] eqn:E2; [|reflexivity].
  cbn [bind]. rewrite !apply_plan_np_map2.
  assert (Ha : well_laid (apply_plan (apply_plan a p1) p2)).
  { apply (well_laid_apply_plan _ 3 (lpd st + 1)).
    - apply (well_laid_apply_plan _ 3 1); assumption.
    - rewrite (length_shape_apply_plan a 3 1 p1 E1). exact E2. }
  assert (Hb : well_laid (apply_plan (apply_plan b p1) p2)).
  { rewrite Hs in E1, E2. apply (well_laid_apply_plan _ 3 (lpd st + 1)).
    - apply (well_laid_apply_plan _ 3 1); assumption.
    - rewrite (length_shape_apply_plan b 3 1 p1 E1). exact E2. }
  rewrite (reshape_C_np_map2 f _ _ _ Ha Hb
             (same_layout_apply_plan _ _ p2 (same_layout_apply_plan _ _ p1 Hsl))).
  destruct (reshape_C (apply_plan (apply_plan a p1) p2) _); reflexivity.
Qed.

Lemma reshape_box_layout (st : setup_t) (shp : list Z) (a r : ndarray T) :
  reshape_box st shp a = Ok r ->
  let ns := map Z.to_nat
              (map (fun ij => (fst ij * snd ij)%Z)
                   (combine (firstn 3 shp) (skipn 3 shp))) in
  shape r = ns /\ strides r = strides_C ns
  /\ List.length (buffer r) = size_of ns.
Proof.
  rewrite reshape_box_by_plans. intros Hr. bind_inv Hr. bind_inv Hr.
  unfold reshape_C in Hr.
  destruct (Nat.eqb_spec
              (size_of (map Z.to_nat
                 (map (fun ij => (fst ij * snd ij)%Z)
                      (combine (firstn 3 shp) (skipn 3 shp)))))
              (size_of (shape (apply_plan (apply_plan a v) v0))))
    as [Hsz|Hsz]; [|discriminate Hr].
  injection Hr as <-. cbn [shape strides buffer].
  repeat split. rewrite length_map, length_ndindex. symmetry. exact Hsz.
Qed.

End Elementwise.

(* ------------------------------------------------------------------ *)
(** ** Arrays read from files *)
(* ------------------------------------------------------------------ *)

Lemma length_frombuffer_ge (n : nat) (bs : list Byte.byte) :
  4 * n <= List.length bs -> n <= List.length (frombuffer bs).
Proof.
  revert bs. induction n as [|n IH]; intros bs Hlen; [lia|].
  destruct bs as [|b0 [|b1 [|b2 [|b3 bs]]]]; cbn [List.length] in Hlen; try lia.
  cbn [frombuffer List.length]. apply le_n_S. apply IH. lia.
Qed.

Lemma length_strides_F_from (acc : nat) (shp : list nat) :
  List.length (strides_F_from acc shp) = List.length shp.
Proof.
  revert acc. induction shp as [|d ds IH]; intros acc; [reflexivity|].
  cbn [strides_F_from List.length]. f_equal. apply IH.
Qed.

Lemma max_offset_strides_F_from (acc : nat) (shp : list nat) :
  Forall (fun d => 0 < d) shp ->
  dot (map pred shp) (strides_F_from acc shp) + acc <= acc * size_of shp.
Proof.
  revert acc. induction shp as [|d ds IH]; intros acc Hpos.
  - cbn. lia.
  - inversion Hpos as [|d' ds' Hd Hds]; subst.
    cbn [map strides_F_from dot size_of fold_right]. fold (size_of ds).
    specialize (IH (acc * d) Hds).
    destruct d as [|d]; [lia|]. cbn [pred]. nia.
Qed.

Lemma read_raw_well_laid (fs : filesystem) (filename : string) (shp : list Z)
    (a : ndarray spec_float) :
  read_raw fs filename shp = Ok a ->
  well_laid a /\ shape a = map Z.to_nat shp
  /\ strides a = strides_F (map Z.to_nat shp).
Proof.
  unfold read_raw. intros H. bind_inv H. unfold np_ndarray in H.
  destruct (existsb (fun d => (d <? 0)%Z) shp); [discriminate H|].
  destruct (Nat.ltb_spec (List.length (strip_markers v))
              (4 * size_of (map Z.to_nat shp))) as [Hlt|Hge]; [discriminate H|].
  injection H as <-. cbn [shape strides buffer].
  split; [|split; reflexivity].
  split; cbn [shape strides buffer].
  - apply length_strides_F_from.
  - intros Hpos. unfold max_offset. cbn [shape strides].
    pose proof (max_offset_strides_F_from 1 _ Hpos) as Hmax.
    pose proof (length_frombuffer_ge _ _ Hge) as Hbuf.
    unfold strides_F. lia.
Qed.

Lemma read_raw_same_layout (fs : filesystem) (f1 f2 : string) (shp : list Z)
    (a b : ndarray spec_float) :
  read_raw fs f1 shp = Ok a -> read_raw fs f2 shp = Ok b -> same_layout a b.
Proof.
  intros Ha Hb.
  destruct (read_raw_well_laid _ _ _ _ Ha) as (_ & Hs & Hst).
  destruct (read_raw_well_laid _ _ _ _ Hb) as (_ & Hs' & Hst').
  split; congruence.
Qed.





Local Close Scope nat_scope.
Local Open Scope Z_scope.

Lemma compose_filenames_material (self : ses3d_fields) (component : string)
    (p iteration : Z) :
  material_model self ->
  compose_filenames self component p iteration = Ok (model_file self component p).
Proof.
  intros (Hft & _). unfold compose_filenames. rewrite Hft. reflexivity.
Qed.

Lemma init_material_model (uninit : Q) (lines : setup_lines) (dir : string)
    (self : ses3d_fields) :
  init uninit lines dir "earth_model" = Ok self -> material_model self.
Proof.
  unfold init. intros H. bind_inv H. bind_inv H. injection H as <-.
  repeat split.
Qed.

(** Reading a primitive component of a material model. *)
Lemma read_primitive (fs : filesystem) (self : ses3d_fields) (component : string)
    (p iteration : Z) :
  material_model self ->
  In component ["A"; "B"; "C"; "lambda"; "mu"; "rhoinv"; "Q"]%string ->
  read_single_box fs self component p iteration
  = (field <- read_raw fs (model_file self component p) (file_shape (setup self)) ;;
     reshape_box (setup self) (file_shape (setup self)) field)%py.
Proof.
  intros Hm Hin. apply read_single_box_pure.
  - destruct Hm as (_ & -> & _). unfold in_components.
    repeat (destruct Hin as [<-|Hin]; [reflexivity|]). destruct Hin.
  - apply compose_filenames_material. exact Hm.
Qed.

Ltac unfold_derived_read self Hm :=
  let Hft := fresh "Hft" in
  let Hpure := fresh "Hpure" in
  let Hder := fresh "Hder" in
  pose proof Hm as (Hft & Hpure & Hder);
  unfold read_single_box; rewrite Hpure, Hder;
  cbv beta iota zeta delta
    [getattr str_in existsb String.eqb Ascii.eqb Bool.eqb orb];
  cbn [bind];
  rewrite ?(compose_filenames_material _ _ _ _ Hm);
  cbn [bind];
  fold (file_shape (setup self)).

(** Reading the derived components of a material model. *)
Lemma read_rho (fs : filesystem) (self : ses3d_fields) (p iteration : Z) :
  material_model self ->
  read_single_box fs self "rho" p iteration
  = (rhoinv <- read_raw fs (model_file self "rhoinv" p) (file_shape (setup self)) ;;
     reshape_box (setup self) (file_shape (setup self))
       (np_map (F32.div F32.one) rhoinv))%py.
Proof.
  intros Hm. unfold_derived_read self Hm.
  destruct (read_raw fs (model_file self "rhoinv" p) _); reflexivity.
Qed.

Lemma read_vp (fs : filesystem) (self : ses3d_fields) (p iteration : Z) :
  material_model self ->
  read_single_box fs self "vp" p iteration
  = (lam <- read_raw fs (model_file self "lambda" p) (file_shape (setup self)) ;;
     mu <- read_raw fs (model_file self "mu" p) (file_shape (setup self)) ;;
     rhoinv <- read_raw fs (model_file self "rhoinv" p) (file_shape (setup self)) ;;
     reshape_box (setup self) (file_shape (setup self))
       (np_map F32.sqrt
          (np_map2 F32.mul
             (np_map2 F32.add lam (np_map (F32.mul F32.two) mu)) rhoinv)))%py.
Proof.
  intros Hm. unfold_derived_read self Hm.
  destruct (read_raw fs (model_file self "lambda" p) _); [|reflexivity].
  destruct (read_raw fs (model_file self "mu" p) _); [|reflexivity].
  destruct (read_raw fs (model_file self "rhoinv" p) _); reflexivity.
Qed.

Lemma read_vsh (fs : filesystem) (self : ses3d_fields) (p iteration : Z) :
  material_model self ->
  read_single_box fs self "vsh" p iteration
  = (mu <- read_raw fs (model_file self "mu" p) (file_shape (setup self)) ;;
     rhoinv <- read_raw fs (model_file self "rhoinv" p) (file_shape (setup self)) ;;
     reshape_box (setup self) (file_shape (setup self))
       (np_map F32.sqrt (np_map2 F32.mul mu rhoinv)))%py.
Proof.
  intros Hm. unfold_derived_read self Hm.
  destruct (read_raw fs (model_file self "mu" p) _); [|reflexivity].
  destruct (read_raw fs (model_file self "rhoinv" p) _); reflexivity.
Qed.

Lemma read_vsv (fs : filesystem) (self : ses3d_fields) (p iteration : Z) :
  material_model self ->
  read_single_box fs self "vsv" p iteration
  = (mu <- read_raw fs (model_file self "mu" p) (file_shape (setup self)) ;;
     rhoinv <- read_raw fs (model_file self "rhoinv" p) (file_shape (setup self)) ;;
     b <- read_raw fs (model_file self "B" p) (file_shape (setup self)) ;;
     reshape_box (setup self) (file_shape (setup self))
       (np_map F32.sqrt (np_map2 F32.mul (np_map2 F32.add mu b) rhoinv)))%py.
Proof.
  intros Hm. unfold_derived_read self Hm.
  destruct (read_raw fs (model_file self "mu" p) _); [|reflexivity].
  destruct (read_raw fs (model_file self "rhoinv" p) _); [|reflexivity].
  destruct (read_raw fs (model_file self "B" p) _); reflexivity.
Qed.

(* ------------------------------------------------------------------ *)
(** ** Derived components *)
(* ------------------------------------------------------------------ *)








Ltac invert_ok :=
  repeat match goal with
         | H : Raise _ = Ok _ |- _ => discriminate H
         | H : Ok _ = Ok _ |- _ => injection H as H; first [subst | idtac]
         | H : bind _ _ = Ok _ |- _ =>
             apply bind_Ok in H; destruct H as (? & ? & H)
         | H : (if ?b then _ else _) = Ok _ |- _ => destruct b eqn:?
         | H : getattr (Some _) = Ok _ |- _ => cbn [getattr] in H
         | H : getattr None = Ok _ |- _ => discriminate H
         | H : getattr ?o = Ok _ |- _ => destruct o
         | H : local (Some _) = Ok _ |- _ => cbn [local] in H
         | H : local None = Ok _ |- _ => discriminate H
         | H : local ?o = Ok _ |- _ => destruct o
         | H : read_raw _ _ _ = Ok _ |- _ => apply read_raw_well_laid in H
         | H : _ /\ _ |- _ => destruct H
         end.

(** Whatever the component, the array handed to the reshape has the six
    axes of the file shape. *)
Lemma read_single_box_field (fs : filesystem) (self : ses3d_fields)
    (component : string) (p iteration : Z) (cube : ndarray spec_float) :
  read_single_box fs self component p iteration = Ok cube ->
  exists field,
    reshape_box (setup self) (file_shape (setup self)) field = Ok cube /\
    shape field = map Z.to_nat (file_shape (setup self)).
Proof.
  intros H. unfold read_single_box in H. cbv zeta in H.
  fold (file_shape (setup self)) in H.
  invert_ok;
    (eexists; split; [eassumption|]; cbn [np_map np_map2 shape]; assumption).
Qed.






(* ------------------------------------------------------------------ *)
(** ** The reshape of read_single_box *)
(* ------------------------------------------------------------------ *)

Local Close Scope Z_scope.
Local Open Scope nat_scope.

Lemma mixed_radix_lt (i n e m : nat) : i < n -> e < m -> i + n * e < n * m.
Proof. intros Hi He. nia. Qed.

(** The two axis moves that regroup (X, Y, W, n, n, n) as
    (X, n, Y, n, W, n), followed by the C-ordered reshape: the node lands at
    its global index on each axis. *)
Lemma regroup_element_major {T : Type} `{Default T} (buf : list T)
    (X Y W n i j k a b c : nat) :
  X * Y * W * (n * n * n) <= List.length buf ->
  i < X -> j < Y -> k < W -> a < n -> b < n -> c < n ->
  let raw := mk_ndarray [X; Y; W; n; n; n] (strides_F [X; Y; W; n; n; n]) buf in
  let rolled := transpose (transpose raw [0; 3; 1; 2; 4; 5]) [0; 1; 2; 4; 3; 5] in
  exists cube,
    reshape_C rolled [X * n; Y * n; W * n] = Ok cube /\
    shape cube = [X * n; Y * n; W * n] /\
    getitem cube [i * n + a; j * n + b; k * n + c]
    = nth_error buf (node_offset X Y W n i j k a b c).
Proof.
  intros Hlen Hi Hj Hk Ha Hb Hc raw rolled.
  assert (Hshape : shape rolled = [X; n; Y; n; W; n]) by reflexivity.
  unfold reshape_C. rewrite Hshape.
  assert (Hsize : size_of [X * n; Y * n; W * n] = size_of [X; n; Y; n; W; n])
    by (cbn [size_of fold_right]; ring).
  rewrite Hsize, Nat.eqb_refl.
  eexists. split; [reflexivity|]. split; [reflexivity|].
  unfold getitem. cbn [shape strides buffer].
  assert (Hin3 : in_bounds [i * n + a; j * n + b; k * n + c]
                           [X * n; Y * n; W * n] = true).
  { cbn [in_bounds].
    destruct (Nat.ltb_spec (i * n + a) (X * n)); [|nia].
    destruct (Nat.ltb_spec (j * n + b) (Y * n)); [|nia].
    destruct (Nat.ltb_spec (k * n + c) (W * n)); [|nia].
    reflexivity. }
  rewrite Hin3.
  assert (Hin6 : in_bounds [i; a; j; b; k; c] [X; n; Y; n; W; n] = true).
  { cbn [in_bounds].
    repeat match goal with
           | |- context [?u <? ?v] => destruct (Nat.ltb_spec u v); [|lia]
           end.
    reflexivity. }
  assert (Hdot : dot [i * n + a; j * n + b; k * n + c]
                     (strides_C [X * n; Y * n; W * n])
                 = dot [i; a; j; b; k; c] (strides_C [X; n; Y; n; W; n]))
    by (cbn [dot strides_C size_of fold_right]; ring).
  rewrite Hdot, nth_error_map, (nth_error_ndindex _ _ Hin6).
  cbn [option_map]. unfold item_at.
  assert (Hoff : dot [i; a; j; b; k; c] (strides rolled)
                 = node_offset X Y W n i j k a b c).
  { unfold node_offset. cbn. ring. }
  rewrite Hoff. symmetry. apply nth_error_nth'.
  unfold node_offset.
  eapply Nat.lt_le_trans; [|exact Hlen].
  replace (X * Y * W * (n * n * n)) with (X * (Y * (W * (n * (n * n))))) by ring.
  repeat apply mixed_radix_lt; assumption.
Qed.

Local Close Scope nat_scope.
Local Open Scope Z_scope.

(** X6: at degree 4, where [lpd + 1] is the axis position 5, the second
    [rollaxis] regroups the axes as intended and [read_single_box] returns
    the cube in element-major node order: node (a, b, c) of element
    (i, j, k) of the Fortran-ordered payload is found at the global index
    (5 i + a, 5 j + b, 5 k + c). *)
Lemma read_single_box_degree_4
    (fs : filesystem) (self : ses3d_fields) (component : string)
    (proc_number iteration : Z) (filename : string) (data : list Byte.byte)
    (i j k a b c : nat) :
  lpd (setup self) = 4 ->
  nonneg_shape (setup self) ->
  in_components (pure_components self) component = true ->
  compose_filenames self component proc_number iteration = Ok filename ->
  fs filename = Some data ->
  4 * box_items (setup self) <= Z.of_nat (List.length (strip_markers data)) ->
  let X := Z.to_nat (nx (elements (setup self))) in
  let Y := Z.to_nat (ny (elements (setup self))) in
  let W := Z.to_nat (nz (elements (setup self))) in
  (i < X)%nat -> (j < Y)%nat -> (k < W)%nat ->
  (a < 5)%nat -> (b < 5)%nat -> (c < 5)%nat ->
  exists cube,
    read_single_box fs self component proc_number iteration = Ok cube /\
    shape cube = [X * 5; Y * 5; W * 5]%nat /\
    getitem cube [i * 5 + a; j * 5 + b; k * 5 + c]%nat
    = nth_error (frombuffer (strip_markers data))
                (node_offset X Y W 5 i j k a b c).
Proof.
  intros Hlpd Hnn Hp Hf Hfs Hlen X Y W Hi Hj Hk Ha Hb Hc.
  rewrite (read_single_box_by_length fs self component proc_number iteration
             filename data Hp Hf Hfs Hnn).
  destruct (Z.ltb_spec (Z.of_nat (List.length (strip_markers data)))
              (4 * box_items (setup self))) as [Hshort|_]; [lia|].
  pose proof (size_of_file_shape (setup self) Hnn) as Hsize.
  rewrite <- Hsize in Hlen.
  destruct Hnn as (Hx & Hy & Hz & _).
  rewrite reshape_box_by_plans.
  unfold file_shape in *. rewrite Hlpd in *.
  cbn [map shape List.length firstn skipn combine fst snd] in *.
  change (Z.to_nat (4 + 1)) with 5%nat in *.
  fold X Y W in Hlen |- *.
  change (rollaxis_plan 6 3 1) with (@Ok (option (list nat)) (Some [0; 3; 1; 2; 4; 5]%nat)).
  change (rollaxis_plan 6 3 (4 + 1))
    with (@Ok (option (list nat)) (Some [0; 1; 2; 4; 3; 5]%nat)).
  cbn [bind apply_plan].
  rewrite !Z2Nat.inj_mul by lia.
  change (Z.to_nat (4 + 1)) with 5%nat. fold X Y W.
  apply (regroup_element_major (frombuffer (strip_markers data)) X Y W 5);
    try assumption.
  apply length_frombuffer_ge.
  cbn [size_of fold_right] in Hlen. lia.
Qed.

(** What the second [rollaxis] of line 271 does to the six axes, degree by
    degree: nothing at degrees 2 and 3, the intended exchange at degree 4,
    a move to the last place at degree 5, an error at degrees 6 and 7. *)
Example second_rollaxis_by_degree :
  rollaxis_plan 6 3 (2 + 1) = Ok None /\
  rollaxis_plan 6 3 (3 + 1) = Ok None /\
  rollaxis_plan 6 3 (4 + 1) = Ok (Some [0; 1; 2; 4; 3; 5]%nat) /\
  rollaxis_plan 6 3 (5 + 1) = Ok (Some [0; 1; 2; 4; 5; 3]%nat) /\
  rollaxis_plan 6 3 (6 + 1) = Raise ValueError /\
  rollaxis_plan 6 3 (7 + 1) = Raise ValueError.
Proof. repeat split. Qed.

(** C1 does not hold of the code.  At degree 2, with a well-framed file of
    54 items for a box of 1 x 1 x 2 elements, the cube has the announced
    shape (3, 3, 6), but the value found at the global index of element
    (0, 0, 1), node (0, 0, 0), which is (0, 0, 3), is item 6 of the file, not
    the raw value of that node, which is item 1.  At degree 6 the second
    [rollaxis] is asked for position 7 of a six-axis array and the read
    stops with ValueError. *)
Theorem read_single_box_degree_2_misplaces_nodes :
  (exists raw cube,
     read_raw Degrees.files2 "MODELS/rhoinv0" (file_shape (setup Degrees.model2))
     = Ok raw /\
     read_single_box Degrees.files2 Degrees.model2 "rhoinv" 0 0 = Ok cube /\
     shape raw = [1; 1; 2; 3; 3; 3]%nat /\
     shape cube = [3; 3; 6]%nat /\
     getitem raw [0; 0; 1; 0; 0; 0]%nat = Some (S754_finite false 1 (-149)) /\
     getitem cube [0 * 3 + 0; 0 * 3 + 0; 1 * 3 + 0]%nat
     = Some (S754_finite false 6 (-149)))
  /\
  read_single_box Degrees.files6 Degrees.model6 "rhoinv" 0 0 = Raise ValueError.
Proof.
  split.
  - eexists. eexists.
    split; [vm_compute; reflexivity|].
    split; [vm_compute; reflexivity|].
    repeat split.
  - vm_compute. reflexivity.
Qed.

(* ------------------------------------------------------------------ *)
(** ** make_coordinates: the loop over the processors *)
(* ------------------------------------------------------------------ *)

Lemma set_row_ok (a : list (list Q)) (p : nat) (r : list Q) :
  (p < List.length a)%nat ->
  exists a',
    set_row a p r = Ok a' /\
    List.length a' = List.length a /\
    nth_error a' p = Some r /\
    forall q, q <> p -> nth_error a' q = nth_error a q.
Proof.
  revert p. induction a as [|r0 a IH]; intros p Hp; cbn [List.length] in Hp; [lia|].
  destruct p as [|p].
  - exists (r :: a). cbn [set_row]. repeat split.
    intros [|q] Hq; [contradiction|reflexivity].
  - destruct (IH p ltac:(lia)) as (a' & Ha & Hl & Hn & Ho).
    exists (r0 :: a'). cbn [set_row]. rewrite Ha. cbn [bind List.length nth_error].
    repeat split; [congruence|exact Hn|].
    intros [|q] Hq; [reflexivity|]. cbn [nth_error]. apply Ho. lia.
Qed.

Lemma for_each_ext {A S : Type} (body body' : S -> A -> result S) (l : list A)
    (s : S) :
  (forall s' a, body s' a = body' s' a) ->
  for_each l body s = for_each l body' s.
Proof.
  intros Hext. revert s. induction l as [|a l IH]; intros s; [reflexivity|].
  rewrite !for_each_cons, Hext. destruct (body' s a); cbn [bind]; auto.
Qed.

Lemma for_each_map {A B S : Type} (f : A -> B) (body : S -> B -> result S)
    (l : list A) (s : S) :
  for_each (map f l) body s = for_each l (fun s' a => body s' (f a)) s.
Proof.
  revert s. induction l as [|a l IH]; intros s; [reflexivity|].
  cbn [map]. rewrite !for_each_cons. destruct (body s (f a)); cbn [bind]; auto.
Qed.

Lemma for_each_flat_map {A B S : Type} (f : A -> list B)
    (body : S -> B -> result S) (l : list A) (s : S) :
  for_each (flat_map f l) body s
  = for_each l (fun s' a => for_each (f a) body s') s.
Proof.
  revert s. induction l as [|a l IH]; intros s; [reflexivity|].
  cbn [flat_map]. rewrite for_each_app, for_each_cons.
  destruct (for_each (f a) body s); cbn [bind]; auto.
Qed.

Section FillRows.

Variables boundaries_theta boundaries_phi boundaries_z : list Q.
Variables knot_x knot_y knot_z : list Q.
Variables origin_theta origin_phi origin_z : Z -> Q.

Local Abbreviation fill_box :=
  (fill_box boundaries_theta boundaries_phi boundaries_z knot_x knot_y knot_z).
Local Abbreviation origins_found :=
  (origins_found boundaries_theta boundaries_phi boundaries_z
                 origin_theta origin_phi origin_z).
Local Abbreviation theta_row := (theta_row knot_x origin_theta).
Local Abbreviation phi_row := (phi_row knot_y origin_phi).
Local Abbreviation z_row := (z_row knot_z origin_z).

Lemma fill_loop (items : list (Z * Z * Z)) :
  forall c,
    (p_next c + List.length items <= List.length (theta c))%nat ->
    (p_next c + List.length items <= List.length (phi c))%nat ->
    (p_next c + List.length items <= List.length (z c))%nat ->
    Forall origins_found items ->
    exists c',
      for_each items fill_box c = Ok c' /\
      p_next c' = (p_next c + List.length items)%nat /\
      List.length (theta c') = List.length (theta c) /\
      List.length (phi c') = List.length (phi c) /\
      List.length (z c') = List.length (z c) /\
      (forall i t, nth_error items i = Some t ->
         nth_error (theta c') (p_next c + i) = Some (theta_row t) /\
         nth_error (phi c') (p_next c + i) = Some (phi_row t) /\
         nth_error (z c') (p_next c + i) = Some (z_row t)) /\
      (forall q, (q < p_next c)%nat ->
         nth_error (theta c') q = nth_error (theta c) q /\
         nth_error (phi c') q = nth_error (phi c) q /\
         nth_error (z c') q = nth_error (z c) q).
Proof.
  induction items as [|t items IH]; intros c Ht Hp Hz Hfound.
  - exists c. rewrite for_each_nil. cbn [List.length].
    repeat split; try lia; auto.
    + destruct i; discriminate H.
    + destruct i; discriminate H.
    + destruct i; discriminate H.
  - cbn [List.length] in Ht, Hp, Hz.
    inversion Hfound as [|t' items' Hf Hrest]; subst.
    destruct t as [[iz iy] ix]. destruct Hf as (Et & Ep & Ez).
    destruct (set_row_ok (theta c) (p_next c) (map (F64.add (origin_theta ix)) knot_x))
      as (th & Eth & Lth & Nth & Oth); [lia|].
    destruct (set_row_ok (phi c) (p_next c) (map (F64.add (origin_phi iy)) knot_y))
      as (ph & Eph & Lph & Nph & Oph); [lia|].
    destruct (set_row_ok (z c) (p_next c) (rev (map (F64.add (origin_z iz)) knot_z)))
      as (zz & Ezz & Lzz & Nzz & Ozz); [lia|].
    rewrite for_each_cons. unfold fill_box at 1.
    rewrite Et. cbn [bind]. rewrite Eth. cbn [bind].
    rewrite Ep. cbn [bind]. rewrite Eph. cbn [bind].
    rewrite Ez. cbn [bind]. rewrite Ezz. cbn [bind].
    destruct (IH (mk_coords th ph zz (S (p_next c)))) as
      (c' & Ec & Pn & L1 & L2 & L3 & Hnew & Hold);
      cbn [theta phi z p_next]; try lia; [exact Hrest|].
    cbn [theta phi z p_next] in *.
    exists c'. split; [exact Ec|].
    split; [cbn [List.length]; lia|].
    split; [congruence|]. split; [congruence|]. split; [congruence|].
    split.
    + intros [|i] t Hi.
      * cbn [nth_error] in Hi. injection Hi as <-.
        rewrite Nat.add_0_r.
        destruct (Hold (p_next c)) as (H1 & H2 & H3); [lia|].
        rewrite H1, H2, H3. cbn [theta_row phi_row z_row]. auto.
      * cbn [nth_error] in Hi.
        replace (p_next c + S i)%nat with (S (p_next c) + i)%nat by lia.
        apply Hnew. exact Hi.
    + intros q Hq. destruct (Hold q) as (H1 & H2 & H3); [lia|].
      rewrite H1, H2, H3. rewrite Oth, Oph, Ozz by lia. auto.
Qed.

End FillRows.

Lemma index_nth {A : Type} (l : list A) (i : Z) (v d : A) :
  index l i = Ok v -> v = nth (Z.to_nat i) l d.
Proof.
  unfold index. destruct (nth_error l (Z.to_nat i)) as [x|] eqn:E; [|discriminate].
  intros H. injection H as <-. symmetry. apply nth_error_nth. exact E.
Qed.

Lemma index_Some {A : Type} (l : list A) (i : Z) (v : A) :
  index l i = Ok v <-> nth_error l (Z.to_nat i) = Some v.
Proof.
  unfold index. destruct (nth_error l (Z.to_nat i)) as [x|]; split; intros H;
    first [injection H as <-; reflexivity | discriminate H].
Qed.

(** A loop that returned has found a block origin at every lookup. *)
Lemma fill_loop_found (bt bp bz kx ky kz : list Q) (items : list (Z * Z * Z)) :
  forall c c',
    for_each items (fill_box bt bp bz kx ky kz) c = Ok c' ->
    Forall (origins_found bt bp bz
              (fun i => nth (Z.to_nat i) bt 0%Q)
              (fun i => nth (Z.to_nat i) bp 0%Q)
              (fun i => nth (Z.to_nat i) bz 0%Q)) items.
Proof.
  induction items as [|t items IH]; intros c c' H; constructor.
  - rewrite for_each_cons in H. bind_inv H.
    destruct t as [[iz iy] ix]. unfold fill_box in E.
    bind_inv E. rename E0 into Et. bind_inv E. bind_inv E. rename E1 into Ep.
    bind_inv E. bind_inv E. rename E2 into Ez.
    unfold origins_found.
    rewrite Et, Ep, Ez.
    rewrite <- (index_nth _ _ _ 0%Q Et), <- (index_nth _ _ _ 0%Q Ep),
      <- (index_nth _ _ _ 0%Q Ez).
    repeat split.
  - rewrite for_each_cons in H. bind_inv H. exact (IH _ _ H).
Qed.

(* ------------------------------------------------------------------ *)
(** ** make_coordinates: block boundaries and knot lines *)
(* ------------------------------------------------------------------ *)

Lemma float_div_int_nonzero (a : Q) (n : Z) :
  n <> 0 -> float_div_int a n = Ok (F64.div a (inject_Z n)).
Proof.
  intros Hn. unfold float_div_int.
  destruct (Z.eqb_spec n 0); [contradiction|reflexivity].
Qed.

Lemma inject_Z_pos (n : Z) : 0 < n -> (0 < inject_Z n)%Q.
Proof. intros Hn. unfold Qlt. cbn. lia. Qed.

(** The four operations are monotone where the exact ones are. *)
Lemma add_mono (a a' b b' : Q) :
  (a <= a')%Q -> (b <= b')%Q -> (F64.add a b <= F64.add a' b')%Q.
Proof. intros Ha Hb. apply round_mono. lra. Qed.

Lemma sub_nonneg (a b : Q) : (b <= a)%Q -> (0 <= F64.sub a b)%Q.
Proof. intros H. apply round_nonneg. lra. Qed.

Lemma mul_mono_r (a a' w : Q) :
  (0 <= w)%Q -> (a <= a')%Q -> (F64.mul a w <= F64.mul a' w)%Q.
Proof.
  intros Hw Ha. apply round_mono. apply Qmult_le_compat_r; assumption.
Qed.

Lemma div_mono_l (a a' m : Q) :
  (0 < m)%Q -> (a <= a')%Q -> (F64.div a m <= F64.div a' m)%Q.
Proof.
  intros Hm Ha. apply round_mono. unfold Qdiv.
  apply Qmult_le_compat_r; [exact Ha|].
  apply Qlt_le_weak, Qinv_lt_0_compat. exact Hm.
Qed.

Lemma div_nonneg (a m : Q) : (0 <= a)%Q -> (0 < m)%Q -> (0 <= F64.div a m)%Q.
Proof.
  intros Ha Hm. apply round_nonneg. unfold Qdiv.
  apply Qmult_le_0_compat; [exact Ha|].
  apply Qlt_le_weak, Qinv_lt_0_compat. exact Hm.
Qed.

(** The operations respect the equality of rationals. *)
Lemma add_comp (a a' b b' : Q) :
  (a == a')%Q -> (b == b')%Q -> F64.add a b = F64.add a' b'.
Proof. intros Ha Hb. apply round_comp. rewrite Ha, Hb. reflexivity. Qed.

Lemma mul_comp (a a' b b' : Q) :
  (a == a')%Q -> (b == b')%Q -> F64.mul a b = F64.mul a' b'.
Proof. intros Ha Hb. apply round_comp. rewrite Ha, Hb. reflexivity. Qed.

Lemma div_comp (a a' b b' : Q) :
  (a == a')%Q -> (b == b')%Q -> F64.div a b = F64.div a' b'.
Proof. intros Ha Hb. apply round_comp. rewrite Ha, Hb. reflexivity. Qed.

Lemma add_0_r (b : Q) : (F64.round b == b)%Q -> (F64.add b 0 == b)%Q.
Proof.
  intros Hb. unfold F64.add.
  rewrite (round_comp (b + 0) b) by ring. exact Hb.
Qed.

Lemma round_2 : F64.round 2 = 2%Q.
Proof. vm_compute. reflexivity. Qed.

(** A width computed from an ordered pair of bounds is not negative. *)
Lemma width_nonneg (lo hi : Q) (n : Z) :
  0 < n -> (lo <= hi)%Q -> (0 <= F64.div (F64.sub hi lo) (inject_Z n))%Q.
Proof.
  intros Hn Hle. apply div_nonneg; [apply sub_nonneg; exact Hle|].
  apply inject_Z_pos. exact Hn.
Qed.

Lemma np_arange_nonzero (start stop step : Q) :
  ~ (step == 0)%Q -> np_arange start stop step = Ok (arange_values start stop step).
Proof.
  intros H. unfold np_arange. destruct (Qeq_bool step 0) eqn:E; [|reflexivity].
  apply Qeq_bool_iff in E. contradiction.
Qed.

Lemma np_arange_zero (start stop step : Q) :
  (step == 0)%Q -> np_arange start stop step = Raise ZeroDivisionError.
Proof.
  intros H. unfold np_arange. destruct (Qeq_bool step 0) eqn:E; [reflexivity|].
  apply Qeq_bool_neq in E. contradiction.
Qed.

(** Every boundary is a binary64 number when the first one is. *)
Lemma arange_item_binary64 (start step : Q) (i : nat) :
  (F64.round start == start)%Q ->
  (F64.round (arange_item start step i) == arange_item start step i)%Q.
Proof.
  intros Hs. destruct i as [|[|i]]; cbn [arange_item];
    [exact Hs|apply round_idem|apply round_idem].
Qed.

Lemma arange_values_binary64 (start stop step : Q) (i : nat) (v : Q) :
  (F64.round start == start)%Q ->
  nth_error (arange_values start stop step) i = Some v ->
  (F64.round v == v)%Q.
Proof.
  intros Hs. unfold arange_values. rewrite nth_error_map.
  destruct (nth_error (seq 0 _) i) as [k|]; [|discriminate].
  cbn [option_map]. intros H. injection H as <-.
  apply arange_item_binary64. exact Hs.
Qed.


Lemma knot_line_blocks (st : setup_t) (n : Z) (g : list Q) :
  get_GLL st = Ok g ->
  knot_line st n = Ok (knot_blocks g (Z.to_nat (n - 1))).
Proof.
  intros Hg. unfold knot_line, np_arange_int. rewrite Hg. cbn [bind].
  generalize (Z.to_nat (n - 1)) as k. intros k.
  induction k as [|k IH]; [unfold knot_blocks; cbn [seq flat_map map fold_left];
                           rewrite app_nil_r; reflexivity|].
  rewrite seq_S, map_app, fold_left_app, IH. cbn [map fold_left bind Nat.add].
  unfold knot_blocks.
  rewrite seq_S, flat_map_app. cbn [flat_map Nat.add].
  rewrite app_nil_r, app_assoc. reflexivity.
Qed.

Lemma tabulates_map (h : Q -> Q) (l : list Q) (len : nat) (f : nat -> Q) :
  (forall x y, (x == y)%Q -> (h x == h y)%Q) ->
  tabulates l len f -> tabulates (map h l) len (fun i => h (f i)).
Proof.
  intros Hh [Hlen Hent]. split; [rewrite length_map; exact Hlen|].
  intros i Hi. destruct (Hent i Hi) as (v & Hv & Ev).
  exists (h v). rewrite nth_error_map, Hv. split; [reflexivity|]. apply Hh. exact Ev.
Qed.

Lemma tabulates_rev (l : list Q) (len : nat) (f : nat -> Q) :
  tabulates l len f -> tabulates (rev l) len (fun i => f (len - S i)%nat).
Proof.
  intros [Hlen Hent]. split; [rewrite length_rev; exact Hlen|].
  intros i Hi. rewrite nth_error_rev, Hlen.
  destruct (Nat.ltb_spec i len); [|lia].
  apply Hent. lia.
Qed.

Lemma tabulates_ext (l : list Q) (len : nat) (f f' : nat -> Q) :
  (forall i, (i < len)%nat -> (f i == f' i)%Q) ->
  tabulates l len f -> tabulates l len f'.
Proof.
  intros Hff [Hlen Hent]. split; [exact Hlen|].
  intros i Hi. destruct (Hent i Hi) as (v & Hv & Ev).
  exists v. split; [exact Hv|]. rewrite Ev. apply Hff. exact Hi.
Qed.

Lemma increasing_nth (l : list Q) :
  increasing l ->
  forall t1 t2, (t1 < t2 < List.length l)%nat -> (nth t1 l 0 < nth t2 l 0)%Q.
Proof.
  induction l as [|a l IH]; intros Hinc t1 t2 [H12 H2]; cbn [List.length] in H2; [lia|].
  destruct l as [|b l]; [cbn [List.length] in H2; lia|].
  destruct Hinc as [Hab Hinc]. specialize (IH Hinc).
  destruct t2 as [|t2]; [lia|]. destruct t1 as [|t1].
  - change (nth (S t2) (a :: b :: l) 0%Q) with (nth t2 (b :: l) 0%Q).
    change (nth 0 (a :: b :: l) 0%Q) with a.
    destruct t2 as [|t2]; [exact Hab|].
    eapply Qlt_trans; [exact Hab|].
    apply (IH 0%nat (S t2)). cbn [List.length] in *. lia.
  - change (nth (S t2) (a :: b :: l) 0%Q) with (nth t2 (b :: l) 0%Q).
    change (nth (S t1) (a :: b :: l) 0%Q) with (nth t1 (b :: l) 0%Q).
    apply IH. cbn [List.length] in *. lia.
Qed.

Lemma last_as_nth (l : list Q) (d : Q) :
  l <> [] -> last l d = nth (List.length l - 1) l d.
Proof.
  induction l as [|a l IH]; [contradiction|]. intros _.
  destruct l as [|b l]; [reflexivity|].
  change (last (a :: b :: l) d) with (last (b :: l) d).
  rewrite IH by discriminate. cbn [List.length].
  replace (S (S (List.length l)) - 1)%nat with (S (S (List.length l) - 1)) by lia.
  reflexivity.
Qed.

Lemma get_GLL_facts (st : setup_t) (g : list Q) :
  get_GLL st = Ok g ->
  supported_degree (lpd st) /\
  Z.of_nat (List.length g) = lpd st + 1 /\
  gll_facts g.
Proof.
  intros Hg.
  assert (Hs : supported_degree (lpd st)).
  { unfold supported_degree.
    destruct (Z_le_gt_dec 2 (lpd st)); [destruct (Z_le_gt_dec (lpd st) 7)|];
      [split; assumption| |];
      rewrite get_GLL_unsupported in Hg by (unfold supported_degree; lia);
      discriminate Hg. }
  destruct (get_GLL_supported st Hs) as (knots & E & Hl & Hh & Hla & Hi & _).
  rewrite Hg in E. injection E as <-.
  split; [exact Hs|]. split; [exact Hl|].
  assert (Hpos : (0 < List.length g)%nat) by (destruct Hs; lia).
  assert (Hne : g <> []) by (destruct g; [cbn in Hpos; lia|discriminate]).
  split; [exact Hpos|]. split; [|split].
  - destruct g; [contradiction|]. cbn [hd] in Hh. cbn [nth]. rewrite Hh. reflexivity.
  - rewrite <- (last_as_nth g 0%Q Hne), Hla. reflexivity.
  - intros t1 t2 [H12 H2]. destruct (Nat.eq_dec t1 t2) as [->|Hne'].
    + apply Qle_refl.
    + apply Qlt_le_weak. apply increasing_nth; [exact Hi|lia].
Qed.

Lemma gll_bounds (g : list Q) (t : nat) :
  gll_facts g -> (t < List.length g)%nat -> (-1 <= nth t g 0 <= 1)%Q.
Proof.
  intros (Hpos & H0 & H1 & Hmono) Ht. split.
  - rewrite <- H0. apply Hmono. lia.
  - rewrite <- H1. apply Hmono. lia.
Qed.

Lemma div_mod_of_parts (n e t : nat) :
  (t < n)%nat -> ((e * n + t) / n = e /\ (e * n + t) mod n = t)%nat.
Proof.
  intros Ht. split.
  - symmetry. apply (Nat.div_unique _ _ e t); [exact Ht|lia].
  - symmetry. apply (Nat.mod_unique _ _ e t); [exact Ht|lia].
Qed.

Lemma knot_blocks_tabulates (g : list Q) (k : nat) :
  (0 < List.length g)%nat ->
  tabulates (knot_blocks g k) (S k * List.length g) (knot_entry g).
Proof.
  intros Hg. set (n := List.length g).
  assert (Hlen : List.length (knot_blocks g k) = (S k * n)%nat).
  { unfold knot_blocks. rewrite length_app, length_map.
    rewrite (length_flat_map_uniform _ _ n).
    - rewrite length_seq. fold n. lia.
    - intros i _. apply length_map. }
  split; [exact Hlen|].
  intros i Hi. unfold knot_entry. fold n.
  pose proof (Nat.div_mod_eq i n) as Hdm.
  pose proof (Nat.mod_upper_bound i n ltac:(lia)) as Ht.
  set (e := (i / n)%nat) in *. set (t := (i mod n)%nat) in *.
  assert (He : (e < S k)%nat).
  { destruct (Nat.lt_ge_cases e (S k)) as [H|H]; [exact H|]. exfalso. nia. }
  assert (Hnth : nth_error g t = Some (nth t g 0%Q))
    by (apply nth_error_nth'; exact Ht).
  unfold knot_blocks. destruct e as [|e'] eqn:Ee.
  - exists (F64.add (nth t g 0%Q) 1). split; [|reflexivity].
    rewrite nth_error_app1 by (rewrite length_map; fold n; lia).
    rewrite nth_error_map. replace i with t by lia. rewrite Hnth. reflexivity.
  - exists (F64.add (F64.add (nth t g 0%Q) 1) (inject_Z (2 * (Z.of_nat e' + 1)))).
    split; [|reflexivity].
    rewrite nth_error_app2 by (rewrite length_map; fold n; nia).
    rewrite length_map. fold n.
    replace (i - n)%nat with (e' * n + t)%nat by nia.
    rewrite (nth_error_flat_map_uniform _ _ n e' t e').
    + rewrite nth_error_map, Hnth. reflexivity.
    + intros a _. apply length_map.
    + rewrite nth_error_seq. destruct (Nat.ltb_spec e' k); [reflexivity|lia].
    + exact Ht.
Qed.

Lemma knot_entry_parts (g : list Q) (e t : nat) :
  (t < List.length g)%nat ->
  knot_entry g (e * List.length g + t)
  = match e with
    | O => F64.add (nth t g 0%Q) 1
    | S e' => F64.add (F64.add (nth t g 0%Q) 1) (inject_Z (2 * (Z.of_nat e' + 1)))
    end.
Proof.
  intros Ht. unfold knot_entry.
  destruct (div_mod_of_parts (List.length g) e t Ht) as [-> ->]. reflexivity.
Qed.

Lemma knot_entry_same_element (g : list Q) (e t1 t2 : nat) :
  gll_facts g -> (t1 <= t2 < List.length g)%nat ->
  (knot_entry g (e * List.length g + t1)
   <= knot_entry g (e * List.length g + t2))%Q.
Proof.
  intros (_ & _ & _ & Hmono) Ht.
  rewrite !knot_entry_parts by lia.
  pose proof (Hmono t1 t2 Ht) as Hle.
  destruct e as [|e].
  - apply add_mono; [exact Hle|apply Qle_refl].
  - apply add_mono; [|apply Qle_refl]. apply add_mono; [exact Hle|apply Qle_refl].
Qed.

(** The first knot of element [e] is 2e, rounded. *)
Lemma knot_entry_block_start (g : list Q) (e : nat) :
  gll_facts g ->
  knot_entry g (e * List.length g) = F64.round (inject_Z (2 * Z.of_nat e)).
Proof.
  intros (Hpos & H0 & _).
  replace (e * List.length g)%nat with (e * List.length g + 0)%nat by lia.
  rewrite knot_entry_parts by exact Hpos.
  assert (E0 : F64.add (nth 0 g 0%Q) 1 = 0%Q).
  { apply round_zero. rewrite H0. reflexivity. }
  rewrite E0. destruct e as [|e]; [reflexivity|].
  apply round_comp. rewrite Qplus_0_l.
  replace (2 * Z.of_nat (S e)) with (2 * (Z.of_nat e + 1)) by lia. reflexivity.
Qed.

(** The last knot of element [e] is 2(e+1), rounded. *)
Lemma knot_entry_block_end (g : list Q) (e : nat) :
  gll_facts g ->
  knot_entry g (S e * List.length g - 1)
  = F64.round (inject_Z (2 * Z.of_nat (S e))).
Proof.
  intros (Hpos & _ & H1 & _).
  replace (S e * List.length g - 1)%nat
    with (e * List.length g + (List.length g - 1))%nat by nia.
  rewrite knot_entry_parts by lia.
  assert (E1 : F64.add (nth (List.length g - 1) g 0%Q) 1 = 2%Q).
  { rewrite <- round_2. apply round_comp. rewrite H1. reflexivity. }
  rewrite E1. destruct e as [|e]; [symmetry; exact round_2|].
  apply round_comp.
  replace (2 * Z.of_nat (S (S e))) with (2 + 2 * (Z.of_nat e + 1)) by lia.
  rewrite inject_Z_plus. reflexivity.
Qed.

(** At the interface of two elements the shared node appears twice. *)
Lemma knot_entry_interface (g : list Q) (e : nat) :
  gll_facts g -> (1 <= e)%nat ->
  knot_entry g (e * List.length g - 1) = knot_entry g (e * List.length g).
Proof.
  intros Hg He. destruct e as [|e]; [lia|].
  rewrite (knot_entry_block_end g e Hg), (knot_entry_block_start g (S e) Hg).
  reflexivity.
Qed.

Lemma knot_entry_mono (g : list Q) (i1 i2 : nat) :
  gll_facts g -> (i1 <= i2)%nat -> (knot_entry g i1 <= knot_entry g i2)%Q.
Proof.
  intros Hg H12. pose proof Hg as (Hpos & _).
  set (n := List.length g) in *.
  pose proof (Nat.div_mod_eq i1 n) as D1. pose proof (Nat.div_mod_eq i2 n) as D2.
  pose proof (Nat.mod_upper_bound i1 n ltac:(lia)) as T1.
  pose proof (Nat.mod_upper_bound i2 n ltac:(lia)) as T2.
  set (e1 := (i1 / n)%nat) in *. set (t1 := (i1 mod n)%nat) in *.
  set (e2 := (i2 / n)%nat) in *. set (t2 := (i2 mod n)%nat) in *.
  replace i1 with (e1 * n + t1)%nat by lia.
  replace i2 with (e2 * n + t2)%nat by lia.
  destruct (Nat.lt_trichotomy e1 e2) as [Hlt|[Heq|Hgt]].
  - apply Qle_trans with (knot_entry g (e1 * n + (n - 1))).
    { apply knot_entry_same_element; [exact Hg|fold n; lia]. }
    apply Qle_trans with (knot_entry g (e2 * n + 0)).
    2:{ apply knot_entry_same_element; [exact Hg|fold n; lia]. }
    replace (e1 * n + (n - 1))%nat with (S e1 * n - 1)%nat by nia.
    rewrite Nat.add_0_r. unfold n.
    rewrite (knot_entry_block_end g e1 Hg), (knot_entry_block_start g e2 Hg).
    apply round_mono. rewrite <- Zle_Qle. lia.
  - rewrite Heq. apply knot_entry_same_element; [exact Hg|fold n; nia].
  - exfalso. nia.
Qed.

Lemma knot_entry_last_pos (g : list Q) (k : nat) :
  gll_facts g -> (0 < knot_entry g (S k * List.length g - 1))%Q.
Proof.
  intros Hg. rewrite (knot_entry_block_end g k Hg).
  apply Qlt_le_trans with (F64.round 2); [rewrite round_2; reflexivity|].
  apply round_mono. change 2%Q with (inject_Z 2). rewrite <- Zle_Qle. lia.
Qed.

Lemma knot_blocks_max (g : list Q) (k : nat) (M : Q) :
  gll_facts g -> np_max (knot_blocks g k) = Ok M ->
  (M == knot_entry g (S k * List.length g - 1))%Q.
Proof.
  intros Hg Hmax. pose proof Hg as (Hpos & _).
  destruct (knot_blocks_tabulates g k Hpos) as [Hlen Hent].
  destruct (np_max_greatest _ _ Hmax) as [Hin Hge].
  set (n := List.length g) in *.
  assert (Hlast : (S k * n - 1 < S k * n)%nat) by nia.
  apply Qle_antisym.
  - apply In_nth_error in Hin. destruct Hin as [i Hi].
    assert (Hlt : (i < S k * n)%nat)
      by (rewrite <- Hlen; apply nth_error_Some; congruence).
    destruct (Hent i Hlt) as (v & Hv & Ev).
    rewrite Hi in Hv. injection Hv as <-.
    rewrite Ev. apply knot_entry_mono; [exact Hg|lia].
  - destruct (Hent _ Hlast) as (v & Hv & Ev).
    rewrite <- Ev. apply Hge. eapply nth_error_In. exact Hv.
Qed.

Lemma rescale_blocks (g : list Q) (k : nat) (w : Q) :
  gll_facts g ->
  exists knot,
    rescale (knot_blocks g k) w = Ok knot /\
    tabulates knot (S k * List.length g) (knot_value g (S k) w).
Proof.
  intros Hg. pose proof Hg as (Hpos & _).
  pose proof (knot_blocks_tabulates g k Hpos) as Htab.
  assert (Hne : knot_blocks g k <> []).
  { destruct Htab as [Hlen _]. intros E. rewrite E in Hlen. cbn in Hlen. nia. }
  destruct (np_max_nonempty _ Hne) as [M HM].
  pose proof (knot_blocks_max g k M Hg HM) as EM.
  unfold rescale. rewrite HM. cbn [bind]. eexists. split; [reflexivity|].
  apply (tabulates_ext _ _ (fun i => F64.div (F64.mul (knot_entry g i) w) M)).
  - intros i _. unfold knot_value.
    rewrite (div_comp _ (F64.mul (knot_entry g i) w) M
               (knot_entry g (S k * List.length g - 1)));
      [reflexivity|reflexivity|exact EM].
  - apply (tabulates_map (fun v => F64.div (F64.mul v w) M)); [|exact Htab].
    intros x y E.
    rewrite (div_comp (F64.mul x w) (F64.mul y w) M M); [reflexivity| |reflexivity].
    rewrite (mul_comp x y w w E); reflexivity.
Qed.

Lemma shifted_line_tabulates (g : list Q) (m : nat) (w b : Q) (knot : list Q) :
  tabulates knot (m * List.length g) (knot_value g m w) ->
  tabulates (map (F64.add b) knot) (m * List.length g) (line_value g m w b).
Proof.
  intros Htab.
  apply (tabulates_map (F64.add b)) in Htab; [exact Htab|].
  intros x y E. rewrite (add_comp b b x y); [reflexivity|reflexivity|exact E].
Qed.

Lemma knot_value_mono (g : list Q) (m : nat) (w : Q) (i1 i2 : nat) :
  gll_facts g -> (0 < m)%nat -> (0 <= w)%Q -> (i1 <= i2)%nat ->
  (knot_value g m w i1 <= knot_value g m w i2)%Q.
Proof.
  intros Hg Hm Hw H12. destruct m as [|k]; [lia|]. unfold knot_value.
  apply div_mono_l; [apply knot_entry_last_pos; exact Hg|].
  apply mul_mono_r; [exact Hw|]. apply knot_entry_mono; assumption.
Qed.

Lemma line_value_mono (g : list Q) (m : nat) (w b : Q) (i1 i2 : nat) :
  gll_facts g -> (0 < m)%nat -> (0 <= w)%Q -> (i1 <= i2)%nat ->
  (line_value g m w b i1 <= line_value g m w b i2)%Q.
Proof.
  intros Hg Hm Hw H12. unfold line_value.
  apply add_mono; [apply Qle_refl|]. apply knot_value_mono; assumption.
Qed.

Lemma knot_value_first (g : list Q) (m : nat) (w : Q) :
  gll_facts g -> knot_value g m w 0 = 0%Q.
Proof.
  intros Hg. unfold knot_value.
  change (knot_entry g 0) with (knot_entry g (0 * List.length g)).
  rewrite (knot_entry_block_start g 0 Hg).
  change (F64.round (inject_Z (2 * Z.of_nat 0))) with 0%Q.
  assert (E : F64.mul 0 w = 0%Q) by (apply round_zero; ring).
  rewrite E. apply round_zero. unfold Qdiv. ring.
Qed.

(** The first entry of a line is its origin. *)
Lemma line_value_first (g : list Q) (m : nat) (w b : Q) :
  gll_facts g -> (F64.round b == b)%Q -> (line_value g m w b 0 == b)%Q.
Proof.
  intros Hg Hb. unfold line_value. rewrite (knot_value_first g m w Hg).
  apply add_0_r. exact Hb.
Qed.

Lemma line_value_interface (g : list Q) (m : nat) (w b : Q) (e : nat) :
  gll_facts g -> (1 <= e)%nat ->
  line_value g m w b (e * List.length g - 1)
  = line_value g m w b (e * List.length g).
Proof.
  intros Hg He. unfold line_value, knot_value.
  rewrite (knot_entry_interface g e Hg He). reflexivity.
Qed.

(** The last entry of a line is its origin plus the width as the last knot
    carries it. *)
Lemma line_value_last (g : list Q) (m : nat) (w b : Q) :
  gll_facts g -> (0 < m)%nat ->
  line_value g m w b (m * List.length g - 1) = F64.add b (span (Z.of_nat m) w).
Proof.
  intros Hg Hm. destruct m as [|k]; [lia|].
  unfold line_value, knot_value, span.
  rewrite (knot_entry_block_end g k Hg). reflexivity.
Qed.

(* ------------------------------------------------------------------ *)
(** ** make_coordinates: the rows of every box *)
(* ------------------------------------------------------------------ *)

(** ** make_coordinates: the rows of every box *)
(* ------------------------------------------------------------------ *)

Lemma nested_as_flat {S : Type} (lz ly lx : list Z)
    (body : S -> Z * Z * Z -> result S) (s : S) :
  for_each lz (fun c iz =>
    for_each ly (fun c iy =>
      for_each lx (fun c ix => body c (iz, iy, ix)) c) c) s
  = for_each
      (flat_map (fun iz => flat_map (fun iy => map (fun ix => (iz, iy, ix)) lx) ly) lz)
      body s.
Proof.
  rewrite for_each_flat_map. apply for_each_ext. intros s' iz.
  rewrite for_each_flat_map. apply for_each_ext. intros s'' iy.
  rewrite for_each_map. reflexivity.
Qed.

Lemma length_np_arange_int (n : Z) : List.length (np_arange_int n) = Z.to_nat n.
Proof. unfold np_arange_int. rewrite length_map, length_seq. reflexivity. Qed.

Lemma nth_error_np_arange_int (n : Z) (i : nat) :
  (i < Z.to_nat n)%nat -> nth_error (np_arange_int n) i = Some (Z.of_nat i).
Proof.
  intros Hi. unfold np_arange_int. rewrite nth_error_map, nth_error_seq.
  destruct (Nat.ltb_spec i (Z.to_nat n)); [reflexivity|lia].
Qed.

Lemma length_processor_order (npx npy npz : Z) :
  List.length (processor_order npx npy npz)
  = (Z.to_nat npz * (Z.to_nat npy * Z.to_nat npx))%nat.
Proof.
  unfold processor_order.
  rewrite (length_flat_map_uniform _ _ (Z.to_nat npy * Z.to_nat npx)).
  - rewrite length_np_arange_int. reflexivity.
  - intros iz _. rewrite (length_flat_map_uniform _ _ (Z.to_nat npx)).
    + rewrite length_np_arange_int. reflexivity.
    + intros iy _. rewrite length_map. apply length_np_arange_int.
Qed.

Lemma nth_error_processor_order (npx npy npz : Z) (iz iy ix : nat) :
  (iz < Z.to_nat npz)%nat -> (iy < Z.to_nat npy)%nat -> (ix < Z.to_nat npx)%nat ->
  nth_error (processor_order npx npy npz)
            ((iz * Z.to_nat npy + iy) * Z.to_nat npx + ix)
  = Some (Z.of_nat iz, Z.of_nat iy, Z.of_nat ix).
Proof.
  intros Hz Hy Hx. unfold processor_order.
  replace ((iz * Z.to_nat npy + iy) * Z.to_nat npx + ix)%nat
    with (iz * (Z.to_nat npy * Z.to_nat npx) + (iy * Z.to_nat npx + ix))%nat by ring.
  rewrite (nth_error_flat_map_uniform _ _ (Z.to_nat npy * Z.to_nat npx)
             iz _ (Z.of_nat iz)).
  - rewrite (nth_error_flat_map_uniform _ _ (Z.to_nat npx) iy _ (Z.of_nat iy)).
    + rewrite nth_error_map, nth_error_np_arange_int by exact Hx. reflexivity.
    + intros a _. rewrite length_map. apply length_np_arange_int.
    + apply nth_error_np_arange_int. exact Hy.
    + exact Hx.
  - intros a _. rewrite (length_flat_map_uniform _ _ (Z.to_nat npx)).
    + rewrite length_np_arange_int. reflexivity.
    + intros b _. rewrite length_map. apply length_np_arange_int.
  - apply nth_error_np_arange_int. exact Hz.
  - nia.
Qed.



Lemma tabulates_lookup (l : list Q) (len : nat) (f : nat -> Q) (i : nat) (v : Q) :
  tabulates l len f -> nth_error l i = Some v -> (i < len)%nat /\ (v == f i)%Q.
Proof.
  intros [Hlen Hent] Hv.
  assert (Hi : (i < len)%nat) by (rewrite <- Hlen; apply nth_error_Some; congruence).
  split; [exact Hi|].
  destruct (Hent i Hi) as (v' & Hv' & Ev). congruence.
Qed.

Lemma tabulates_ascending (l : list Q) (len : nat) (f : nat -> Q) :
  tabulates l len f ->
  (forall i1 i2, (i1 <= i2 < len)%nat -> (f i1 <= f i2)%Q) ->
  ascending l.
Proof.
  intros Htab Hmono q1 q2 a b H12 Ha Hb.
  destruct (tabulates_lookup _ _ _ _ _ Htab Ha) as [H1 ->].
  destruct (tabulates_lookup _ _ _ _ _ Htab Hb) as [H2 ->].
  apply Hmono. lia.
Qed.

Lemma tabulates_descending (l : list Q) (len : nat) (f : nat -> Q) :
  tabulates l len f ->
  (forall i1 i2, (i1 <= i2 < len)%nat -> (f i2 <= f i1)%Q) ->
  descending l.
Proof.
  intros Htab Hmono q1 q2 a b H12 Ha Hb.
  destruct (tabulates_lookup _ _ _ _ _ Htab Ha) as [H1 ->].
  destruct (tabulates_lookup _ _ _ _ _ Htab Hb) as [H2 ->].
  apply Hmono. lia.
Qed.

Lemma box_index_parts (npx npy npz p : nat) :
  (p < npz * (npy * npx))%nat ->
  (p / npx / npy < npz)%nat /\ ((p / npx) mod npy < npy)%nat /\
  (p mod npx < npx)%nat /\
  (p = (p / npx / npy * npy + (p / npx) mod npy) * npx + p mod npx)%nat.
Proof.
  intros Hp.
  assert (Hx : (0 < npx)%nat) by nia. assert (Hy : (0 < npy)%nat) by nia.
  pose proof (Nat.div_mod_eq p npx) as D1.
  pose proof (Nat.div_mod_eq (p / npx) npy) as D2.
  pose proof (Nat.mod_upper_bound p npx ltac:(lia)) as M1.
  pose proof (Nat.mod_upper_bound (p / npx) npy ltac:(lia)) as M2.
  set (a := (p / npx)%nat) in *. set (ix := (p mod npx)%nat) in *.
  set (iz := (a / npy)%nat) in *. set (iy := (a mod npy)%nat) in *.
  split; [|split; [exact M2|split; [exact M1|]]].
  - destruct (Nat.lt_ge_cases iz npz) as [H|H]; [exact H|].
    exfalso.
    assert (H1 : (npy * npz <= npy * iz)%nat) by (apply Nat.mul_le_mono_l; exact H).
    assert (H2 : (npx * (npy * npz) <= npx * a)%nat)
      by (apply Nat.mul_le_mono_l; lia).
    lia.
  - rewrite D1 at 1. rewrite D2 at 1. ring.
Qed.

(** With three non-zero widths [make_coordinates] reaches its loop, which
    fills the rows from the block boundaries and the rescaled knot lines. *)
Lemma make_coordinates_loop (uninit : Q) (st : setup_t) (g : list Q) :
  valid_setup st -> get_GLL st = Ok g ->
  ~ (width_theta st == 0)%Q -> ~ (width_phi st == 0)%Q ->
  ~ (width_z st == 0)%Q ->
  exists kx ky kz,
    tabulates kx (Z.to_nat (nx (elements st)) * List.length g)
      (knot_value g (Z.to_nat (nx (elements st))) (width_theta st)) /\
    tabulates ky (Z.to_nat (ny (elements st)) * List.length g)
      (knot_value g (Z.to_nat (ny (elements st))) (width_phi st)) /\
    tabulates kz (Z.to_nat (nz (elements st)) * List.length g)
      (knot_value g (Z.to_nat (nz (elements st))) (width_z st)) /\
    make_coordinates uninit st
    = for_each (processor_order (px (procs st)) (py (procs st)) (pz (procs st)))
        (fill_box (boundaries_theta st) (boundaries_phi st) (boundaries_z st)
                  kx ky kz)
        (mk_coords
           (repeat (repeat uninit (List.length kx))
              (Z.to_nat (px (procs st) * py (procs st) * pz (procs st))))
           (repeat (repeat uninit (List.length ky))
              (Z.to_nat (px (procs st) * py (procs st) * pz (procs st))))
           (repeat (repeat uninit (List.length kz))
              (Z.to_nat (px (procs st) * py (procs st) * pz (procs st))))
           0).
Proof.
  intros (Hdeg & Hpx & Hpy & Hpz & Hnx & Hny & Hnz & Ht & Hp & Hz) Hg Wt Wp Wz.
  destruct (get_GLL_facts st g Hg) as (_ & Hlen & Hgf).
  unfold make_coordinates. cbv zeta.
  rewrite !float_div_int_nonzero by lia. cbn [bind].
  fold (width_theta st) (width_phi st) (width_z st).
  rewrite !np_arange_nonzero by assumption. cbn [bind].
  fold (boundaries_theta st) (boundaries_phi st) (boundaries_z st).
  rewrite !(knot_line_blocks st _ g Hg). cbn [bind].
  destruct (rescale_blocks g (Z.to_nat (nx (elements st) - 1)) (width_theta st) Hgf)
    as (kx & Ex & Tx).
  destruct (rescale_blocks g (Z.to_nat (ny (elements st) - 1)) (width_phi st) Hgf)
    as (ky & Ey & Ty).
  destruct (rescale_blocks g (Z.to_nat (nz (elements st) - 1)) (width_z st) Hgf)
    as (kz & Ez & Tz).
  rewrite Ex, Ey, Ez. cbn [bind].
  unfold np_empty.
  destruct (Z.ltb_spec (px (procs st) * py (procs st) * pz (procs st)) 0); [nia|].
  cbn [bind].
  replace (S (Z.to_nat (nx (elements st) - 1))) with (Z.to_nat (nx (elements st)))
    in Tx by lia.
  replace (S (Z.to_nat (ny (elements st) - 1))) with (Z.to_nat (ny (elements st)))
    in Ty by lia.
  replace (S (Z.to_nat (nz (elements st) - 1))) with (Z.to_nat (nz (elements st)))
    in Tz by lia.
  exists kx, ky, kz.
  split; [exact Tx|]. split; [exact Ty|]. split; [exact Tz|].
  unfold processor_order.
  rewrite <- (nested_as_flat (np_arange_int (pz (procs st)))
                (np_arange_int (py (procs st))) (np_arange_int (px (procs st)))
                (fill_box (boundaries_theta st) (boundaries_phi st)
                          (boundaries_z st) kx ky kz)).
  reflexivity.
Qed.

(** A width that rounds to zero stops [make_coordinates] at [np.arange]. *)
Lemma make_coordinates_zero_width (uninit : Q) (st : setup_t) :
  px (procs st) <> 0 -> py (procs st) <> 0 -> pz (procs st) <> 0 ->
  (width_theta st == 0)%Q \/ (width_phi st == 0)%Q \/ (width_z st == 0)%Q ->
  make_coordinates uninit st = Raise ZeroDivisionError.
Proof.
  intros Hpx Hpy Hpz Hw.
  unfold make_coordinates. cbv zeta.
  rewrite !float_div_int_nonzero by assumption. cbn [bind].
  fold (width_theta st) (width_phi st) (width_z st).
  destruct (Qeq_dec (width_theta st) 0) as [Wt|Wt];
    [rewrite (np_arange_zero _ _ _ Wt); reflexivity|].
  rewrite (np_arange_nonzero _ _ _ Wt). cbn [bind].
  destruct (Qeq_dec (width_phi st) 0) as [Wp|Wp];
    [rewrite (np_arange_zero _ _ _ Wp); reflexivity|].
  rewrite (np_arange_nonzero _ _ _ Wp). cbn [bind].
  destruct (Qeq_dec (width_z st) 0) as [Wz|Wz];
    [rewrite (np_arange_zero _ _ _ Wz); reflexivity|].
  exfalso. tauto.
Qed.

Lemma processor_count (st : setup_t) :
  0 < px (procs st) -> 0 < py (procs st) -> 0 < pz (procs st) ->
  Z.to_nat (px (procs st) * py (procs st) * pz (procs st))
  = (Z.to_nat (pz (procs st)) * (Z.to_nat (py (procs st)) * Z.to_nat (px (procs st))))%nat.
Proof. intros Hx Hy Hz. rewrite !Z2Nat.inj_mul by lia. lia. Qed.

(** The rows of the box with processor indices (iz, iy, ix), when
    [make_coordinates] returns. *)
Lemma make_coordinates_rows (uninit : Q) (st : setup_t) (c : coords_t)
    (g : list Q) :
  valid_setup st -> get_GLL st = Ok g ->
  make_coordinates uninit st = Ok c ->
  blocks_tabulated st /\
  forall iz iy ix,
    (iz < Z.to_nat (pz (procs st)))%nat ->
    (iy < Z.to_nat (py (procs st)))%nat ->
    (ix < Z.to_nat (px (procs st)))%nat ->
    exists ot op oz trow prow zrow,
      let p := ((iz * Z.to_nat (py (procs st)) + iy)
                * Z.to_nat (px (procs st)) + ix)%nat in
      let n := List.length g in
      nth_error (boundaries_theta st) ix = Some ot /\
      nth_error (boundaries_phi st) iy = Some op /\
      nth_error (boundaries_z st) iz = Some oz /\
      nth_error (theta c) p = Some trow /\
      nth_error (phi c) p = Some prow /\
      nth_error (z c) p = Some zrow /\
      tabulates trow (Z.to_nat (nx (elements st)) * n)
        (line_value g (Z.to_nat (nx (elements st))) (width_theta st) ot) /\
      tabulates prow (Z.to_nat (ny (elements st)) * n)
        (line_value g (Z.to_nat (ny (elements st))) (width_phi st) op) /\
      tabulates zrow (Z.to_nat (nz (elements st)) * n)
        (fun i => line_value g (Z.to_nat (nz (elements st))) (width_z st) oz
                    (Z.to_nat (nz (elements st)) * n - S i)).
Proof.
  intros Hvalid Hg Hc.
  pose proof Hvalid as (Hdeg & Hpx & Hpy & Hpz & Hnx & Hny & Hnz & Ht & Hp & Hz).
  destruct (Qeq_dec (width_theta st) 0) as [Wt|Wt].
  { rewrite make_coordinates_zero_width in Hc by (try lia; tauto). discriminate Hc. }
  destruct (Qeq_dec (width_phi st) 0) as [Wp|Wp].
  { rewrite make_coordinates_zero_width in Hc by (try lia; tauto). discriminate Hc. }
  destruct (Qeq_dec (width_z st) 0) as [Wz|Wz].
  { rewrite make_coordinates_zero_width in Hc by (try lia; tauto). discriminate Hc. }
  destruct (make_coordinates_loop uninit st g Hvalid Hg Wt Wp Wz)
    as (kx & ky & kz & Tx & Ty & Tz & Eloop).
  rewrite Eloop in Hc.
  set (bt := boundaries_theta st) in *. set (bp := boundaries_phi st) in *.
  set (bz := boundaries_z st) in *.
  set (items := processor_order (px (procs st)) (py (procs st)) (pz (procs st))) in *.
  set (c0 := mk_coords _ _ _ 0) in *.
  pose proof (fill_loop_found bt bp bz kx ky kz items c0 c Hc) as Hfound.
  destruct (fill_loop bt bp bz kx ky kz
              (fun i => nth (Z.to_nat i) bt 0%Q)
              (fun i => nth (Z.to_nat i) bp 0%Q)
              (fun i => nth (Z.to_nat i) bz 0%Q) items c0)
    as (c' & Ec & _ & _ & _ & _ & Hnew & _);
    [subst c0 items; cbn [theta p_next];
     rewrite length_processor_order, repeat_length, processor_count by lia; lia
    |subst c0 items; cbn [phi p_next];
     rewrite length_processor_order, repeat_length, processor_count by lia; lia
    |subst c0 items; cbn [z p_next];
     rewrite length_processor_order, repeat_length, processor_count by lia; lia
    |exact Hfound|].
  rewrite Hc in Ec. injection Ec as <-.
  assert (Hrow : forall iz iy ix,
    (iz < Z.to_nat (pz (procs st)))%nat ->
    (iy < Z.to_nat (py (procs st)))%nat ->
    (ix < Z.to_nat (px (procs st)))%nat ->
    nth_error bt ix = Some (nth ix bt 0%Q) /\
    nth_error bp iy = Some (nth iy bp 0%Q) /\
    nth_error bz iz = Some (nth iz bz 0%Q) /\
    nth_error (theta c) ((iz * Z.to_nat (py (procs st)) + iy)
                         * Z.to_nat (px (procs st)) + ix)
    = Some (map (F64.add (nth ix bt 0%Q)) kx) /\
    nth_error (phi c) ((iz * Z.to_nat (py (procs st)) + iy)
                       * Z.to_nat (px (procs st)) + ix)
    = Some (map (F64.add (nth iy bp 0%Q)) ky) /\
    nth_error (z c) ((iz * Z.to_nat (py (procs st)) + iy)
                     * Z.to_nat (px (procs st)) + ix)
    = Some (rev (map (F64.add (nth iz bz 0%Q)) kz))).
  { intros iz iy ix Hiz Hiy Hix.
    pose proof (nth_error_processor_order _ _ _ iz iy ix Hiz Hiy Hix) as Hitem.
    fold items in Hitem.
    rewrite Forall_forall in Hfound.
    pose proof (Hfound _ (nth_error_In _ _ Hitem)) as (F1 & F2 & F3).
    apply index_Some in F1, F2, F3. rewrite !Nat2Z.id in F1, F2, F3.
    destruct (Hnew _ _ Hitem) as (H1 & H2 & H3).
    subst c0. cbn [p_next Nat.add theta_row phi_row z_row] in H1, H2, H3.
    rewrite !Nat2Z.id in H1, H2, H3. auto 10. }
  split.
  - unfold blocks_tabulated. fold bt bp bz.
    split; [exact Wt|]. split; [exact Wp|]. split; [exact Wz|].
    destruct (Hrow (Z.to_nat (pz (procs st)) - 1)%nat
                (Z.to_nat (py (procs st)) - 1)%nat
                (Z.to_nat (px (procs st)) - 1)%nat)
      as (B1 & B2 & B3 & _); try lia.
    assert (L1 : (Z.to_nat (px (procs st)) - 1 < List.length bt)%nat)
      by (apply nth_error_Some; rewrite B1; discriminate).
    assert (L2 : (Z.to_nat (py (procs st)) - 1 < List.length bp)%nat)
      by (apply nth_error_Some; rewrite B2; discriminate).
    assert (L3 : (Z.to_nat (pz (procs st)) - 1 < List.length bz)%nat)
      by (apply nth_error_Some; rewrite B3; discriminate).
    lia.
  - intros iz iy ix Hiz Hiy Hix.
    destruct (Hrow iz iy ix Hiz Hiy Hix) as (B1 & B2 & B3 & R1 & R2 & R3).
    do 6 eexists. cbv zeta.
    split; [exact B1|]. split; [exact B2|]. split; [exact B3|].
    split; [exact R1|]. split; [exact R2|]. split; [exact R3|].
    split; [apply shifted_line_tabulates; exact Tx|].
    split; [apply shifted_line_tabulates; exact Ty|].
    apply tabulates_rev. apply shifted_line_tabulates. exact Tz.
Qed.


(** The rows of the box with processor indices (iz, iy, ix): lengths, order,
    ends and element interfaces. *)
Lemma make_coordinates_lines (uninit : Q) (st : setup_t) (c : coords_t) :
  valid_setup st -> binary64_domain st ->
  make_coordinates uninit st = Ok c ->
  forall iz iy ix,
    (iz < Z.to_nat (pz (procs st)))%nat ->
    (iy < Z.to_nat (py (procs st)))%nat ->
    (ix < Z.to_nat (px (procs st)))%nat ->
    exists trow prow zrow origin,
      let p := ((iz * Z.to_nat (py (procs st)) + iy)
                * Z.to_nat (px (procs st)) + ix)%nat in
      let n := Z.to_nat (lpd st + 1) in
      nth_error (boundaries_z st) iz = Some origin /\
      nth_error (theta c) p = Some trow /\
      nth_error (phi c) p = Some prow /\
      nth_error (z c) p = Some zrow /\
      List.length trow = (Z.to_nat (nx (elements st)) * n)%nat /\
      List.length prow = (Z.to_nat (ny (elements st)) * n)%nat /\
      List.length zrow = (Z.to_nat (nz (elements st)) * n)%nat /\
      descending zrow /\
      (exists top, nth_error zrow 0 = Some top
                   /\ (top == F64.add origin
                                (span (nz (elements st)) (width_z st)))%Q) /\
      (exists bottom, nth_error zrow (List.length zrow - 1) = Some bottom
                      /\ (bottom == origin)%Q) /\
      (forall e, (1 <= e < Z.to_nat (nz (elements st)))%nat ->
         exists a b, nth_error zrow (e * n - 1) = Some a /\
                     nth_error zrow (e * n) = Some b /\ (a == b)%Q) /\
      ascending trow /\
      ascending prow.
Proof.
  intros Hvalid Hbin Hc.
  pose proof Hvalid as (Hdeg & Hpx & Hpy & Hpz & Hnx & Hny & Hnz & Ht & Hp & Hz).
  destruct Hbin as (_ & _ & _ & _ & Bz & _).
  destruct (get_GLL_supported st Hdeg) as (g & Hg & _).
  destruct (get_GLL_facts st g Hg) as (_ & Hlen & Hgf).
  destruct (make_coordinates_rows uninit st c g Hvalid Hg Hc) as (_ & Hrows).
  intros iz iy ix Hiz Hiy Hix.
  destruct (Hrows iz iy ix Hiz Hiy Hix)
    as (ot & op & oz & trow & prow & zrow & H). cbv zeta in H.
  destruct H as (Bt & Bp & Bo & Rt & Rp & Rz & Tt & Tp & Tz).
  exists trow, prow, zrow, oz. cbv zeta.
  assert (Hn : Z.to_nat (lpd st + 1) = List.length g) by lia.
  rewrite Hn.
  set (W := Z.to_nat (nz (elements st))) in *.
  set (len := (W * List.length g)%nat) in *.
  assert (HW : (0 < W)%nat) by (unfold W; lia).
  assert (Hlenpos : (0 < len)%nat) by (destruct Hgf as (Hpos & _); unfold len; nia).
  pose proof (width_nonneg _ _ _ Hpx (Qlt_le_weak _ _ Ht)) as Wt.
  pose proof (width_nonneg _ _ _ Hpy (Qlt_le_weak _ _ Hp)) as Wp.
  pose proof (width_nonneg _ _ _ Hpz (Qlt_le_weak _ _ Hz)) as Wz.
  fold (width_theta st) in Wt. fold (width_phi st) in Wp. fold (width_z st) in Wz.
  assert (Horigin : (F64.round oz == oz)%Q)
    by (apply (arange_values_binary64 _ _ _ _ _ Bz Bo)).
  split; [exact Bo|]. split; [exact Rt|]. split; [exact Rp|]. split; [exact Rz|].
  split; [destruct Tt as [Hl _]; exact Hl|].
  split; [destruct Tp as [Hl _]; exact Hl|].
  split; [destruct Tz as [Hl _]; exact Hl|].
  split; [|split; [|split; [|split; [|split]]]].
  - apply (tabulates_descending _ _ _ Tz). intros i1 i2 H12.
    apply line_value_mono; [exact Hgf|exact HW|exact Wz|lia].
  - destruct Tz as [_ Hent]. destruct (Hent 0%nat Hlenpos) as (v & Hv & Ev).
    exists v. split; [exact Hv|]. rewrite Ev.
    replace (len - 1)%nat with (W * List.length g - 1)%nat by reflexivity.
    rewrite (line_value_last g W _ _ Hgf HW).
    unfold W. rewrite Z2Nat.id by lia. reflexivity.
  - destruct Tz as [Hl Hent]. rewrite Hl.
    destruct (Hent (len - 1)%nat ltac:(lia)) as (v & Hv & Ev).
    exists v. split; [exact Hv|]. rewrite Ev.
    replace (len - S (len - 1))%nat with 0%nat by lia.
    apply line_value_first; assumption.
  - intros e He. destruct Tz as [_ Hent].
    destruct Hgf as (Hpos & Hrest).
    assert (He1 : (e * List.length g - 1 < len)%nat) by (unfold len; nia).
    assert (He2 : (e * List.length g < len)%nat) by (unfold len; nia).
    destruct (Hent _ He1) as (a & Ha & Ea). destruct (Hent _ He2) as (b' & Hb & Eb).
    exists a, b'. split; [exact Ha|]. split; [exact Hb|].
    rewrite Ea, Eb.
    replace (len - S (e * List.length g - 1))%nat
      with ((W - e) * List.length g)%nat by (unfold len; nia).
    replace (len - S (e * List.length g))%nat
      with ((W - e) * List.length g - 1)%nat by (unfold len; nia).
    rewrite (line_value_interface g W _ _ (W - e)); [reflexivity|split; assumption|lia].
  - apply (tabulates_ascending _ _ _ Tt).
    intros i1 i2 H12. apply line_value_mono; [exact Hgf|lia|exact Wt|lia].
  - apply (tabulates_ascending _ _ _ Tp).
    intros i1 i2 H12. apply line_value_mono; [exact Hgf|lia|exact Wp|lia].
Qed.

(* ------------------------------------------------------------------ *)
(** ** The example model *)
(* ------------------------------------------------------------------ *)

Lemma demo_material_model : material_model Demo.model.
Proof. repeat split. Qed.

Lemma demo_valid_setup : valid_setup (setup Demo.model).
Proof.
  vm_compute. repeat split; try reflexivity; intros H; discriminate H.
Qed.

(** rhoinv = 0.5 everywhere gives rho = 2 everywhere; lambda = 4, mu = 2
    give vp = sqrt((4 + 2*2) * 0.5) = 2 and vsh = sqrt(2 * 0.5) = 1. *)
Example demo_constant_rho :
  exists V,
    read_single_box Demo.files Demo.model "rho" 0 0 = Ok V /\
    shape V = [5; 5; 5]%nat /\
    map (getitem V) (ndindex [5; 5; 5]%nat)
    = repeat (Some (S754_finite false 8388608 (-22))) 125.
Proof. eexists. split; [vm_compute; reflexivity|]. split; reflexivity. Qed.

Example demo_constant_vp_vsh :
  (exists V,
     read_single_box Demo.files Demo.model "vp" 1 0 = Ok V /\
     map (getitem V) (ndindex [5; 5; 5]%nat)
     = repeat (Some (S754_finite false 8388608 (-22))) 125) /\
  (exists V,
     read_single_box Demo.files Demo.model "vsh" 1 0 = Ok V /\
     map (getitem V) (ndindex [5; 5; 5]%nat)
     = repeat (Some (S754_finite false 8388608 (-23))) 125).
Proof.
  split; eexists; (split; [vm_compute; reflexivity|reflexivity]).
Qed.


(** A radius on the common boundary of the two boxes (depth 185.5 km)
    selects both. *)
Lemma plot_depth_slice_draws_intersecting_boxes_witness :
  exists fig,
    plot_depth_slice Demo.files Demo.model "rhoinv" (371 # 2) 0 = Ok fig /\
    map box (meshes fig)
    = filter (intersects Demo.model (radius_of (371 # 2)))
             (seq 0 (Z.to_nat (n_procs_of Demo.model))).
Proof.
  destruct (plot_depth_slice Demo.files Demo.model "rhoinv" (371 # 2) 0)
    as [fig|e] eqn:E.
  - exists fig. split; [reflexivity|].
    apply (plot_depth_slice_draws_intersecting_boxes _ _ _ _ _ _ E).
  - vm_compute in E. discriminate E.
Defined.

Example demo_boundary_radius_selects_both_boxes :
  filter (intersects Demo.model (radius_of (371 # 2)))
         (seq 0 (Z.to_nat (n_procs_of Demo.model))) = [0; 1]%nat.
Proof. vm_compute. reflexivity. Qed.

Lemma plot_depth_slice_nearest_index_witness :
  exists fig m zrow zsel,
    plot_depth_slice Demo.files Demo.model "rhoinv" 100 0 = Ok fig /\
    In m (meshes fig) /\ box m = 1%nat /\
    nth_error (z (coords Demo.model)) 1 = Some zrow /\
    nth_error zrow (idz_of m) = Some zsel.
Proof.
  destruct (plot_depth_slice Demo.files Demo.model "rhoinv" 100 0)
    as [fig|e] eqn:E.
  - destruct (plot_depth_slice_nearest_index _ _ _ _ _ _ E 1%nat)
      as (m & zrow & zsel & Hm & Hb & Hz & Hsel & _).
    + vm_compute. reflexivity.
    + vm_compute. reflexivity.
    + exists fig, m, zrow, zsel. repeat split; assumption.
  - vm_compute in E. discriminate E.
Defined.

(** At a depth of 100 km (radius 6271 km) the upper box of the example is
    sliced at its index 2, where z is 6278.25 km. *)
Example demo_nearest_index :
  exists fig,
    plot_depth_slice Demo.files Demo.model "rhoinv" 100 0 = Ok fig /\
    map box (meshes fig) = [1%nat] /\
    map idz_of (meshes fig) = [2%nat] /\
    option_map (fun zrow : list Q => nth 2 zrow 0%Q)
      (nth_error (z (coords Demo.model)) 1)
    = Some 6278250%Q.
Proof.
  eexists. split; [vm_compute; reflexivity|]. repeat split.
Qed.



(** An extent of four degrees in latitude: the step of the parallels rounds
    to zero and [np.arange] fails before the loop over the boxes. *)
Example narrow_domain_has_no_graticule :
  exists st e,
    read_setup (mk_setup_lines 0 4 0 20 6000000 6371000 0 0 0 4 1 1 2) = Ok st /\
    graticule st = Raise e /\
    forall fs self component depth iteration,
      setup self = st ->
      plot_depth_slice fs self component depth iteration = Raise e.
Proof.
  eexists. exists OverflowError. split; [reflexivity|].
  split; [vm_compute; reflexivity|].
  intros fs self component depth iteration Hs.
  unfold plot_depth_slice. rewrite Hs.
  replace (graticule _) with (@Raise (list Q * list Q) OverflowError)
    by (vm_compute; reflexivity).
  reflexivity.
Qed.

(** An object built by [__init__] from a setup as the data model describes
    it has a non-empty row of z coordinates for every box. *)
Lemma init_has_z_rows (uninit : Q) (lines : setup_lines) (dir ftype : string)
    (self : ses3d_fields) :
  init uninit lines dir ftype = Ok self ->
  valid_setup (setup self) ->
  has_z_rows self.
Proof.
  unfold init. intros H Hvalid. bind_inv H. bind_inv H. injection H as <-.
  cbn [setup] in Hvalid.
  pose proof Hvalid as (Hdeg & Hpx & Hpy & Hpz & _ & _ & Hnz & _).
  destruct (get_GLL_supported v Hdeg) as (g & Hg & _).
  destruct (get_GLL_facts v g Hg) as (_ & Hlen & Hgf).
  destruct (make_coordinates_rows uninit v v0 g Hvalid Hg E0) as (_ & Hboxes).
  intros p Hp. unfold n_procs_of in Hp. cbn [setup coords] in *.
  destruct (box_index_parts (Z.to_nat (px (procs v))) (Z.to_nat (py (procs v)))
              (Z.to_nat (pz (procs v))) p) as (Hiz & Hiy & Hix & Eq).
  { assert (Hp' : (p < Z.to_nat (px (procs v) * py (procs v) * pz (procs v)))%nat)
      by lia.
    rewrite !Z2Nat.inj_mul in Hp' by lia. lia. }
  destruct (Hboxes _ _ _ Hiz Hiy Hix) as (ot & op & oz & trow & prow & zrow & H).
  cbv zeta in H. rewrite <- Eq in H.
  destruct H as (_ & _ & _ & _ & _ & Hz & _ & _ & [Hl _]).
  exists zrow. split; [exact Hz|].
  intros ->. cbn [List.length] in Hl.
  destruct Hgf as (Hpos & _). nia.
Qed.

(** [read_setup] stores binary64 numbers. *)
Lemma read_setup_binary64 (lines : setup_lines) (st : setup_t) :
  read_setup lines = Ok st -> binary64_domain st.
Proof.
  unfold read_setup. intros H. bind_inv H. bind_inv H. bind_inv H.
  injection H as <-. unfold binary64_domain, radians, F64.div.
  cbn [domain theta_min theta_max phi_min phi_max z_min z_max].
  repeat split; apply round_idem.
Qed.

(** C10 as stated fails in the last place.  In a mantle model from the
    core-mantle boundary (3480 km) to the surface with nine radial blocks of
    six elements each, the first z of box 0 is neither the block origin
    plus the block width, nor their binary64 sum, and it lies above the
    origin of the next block. *)
Lemma make_coordinates_top_is_not_origin_plus_width :
  exists c zrow top next,
    valid_setup Mantle.st /\
    make_coordinates 0 Mantle.st = Ok c /\
    nth_error (z c) 0 = Some zrow /\ nth_error zrow 0 = Some top /\
    nth_error (boundaries_z Mantle.st) 0 = Some (z_min (domain Mantle.st)) /\
    nth_error (boundaries_z Mantle.st) 1 = Some next /\
    ~ (top == z_min (domain Mantle.st) + width_z Mantle.st)%Q /\
    ~ (top == F64.add (z_min (domain Mantle.st)) (width_z Mantle.st))%Q /\
    (next < top)%Q.
Proof.
  do 4 eexists.
  split; [vm_compute; repeat split; try reflexivity; intros H; discriminate H|].
  split; [vm_compute; reflexivity|].
  split; [reflexivity|]. split; [reflexivity|].
  split; [vm_compute; reflexivity|]. split; [vm_compute; reflexivity|].
  split; [intros H; vm_compute in H; discriminate H|].
  split; [intros H; vm_compute in H; discriminate H|].
  vm_compute. reflexivity.
Qed.





(* ================================================================== *)
(** * Further properties of the module *)
(* ================================================================== *)

(* ------------------------------------------------------------------ *)
(** ** Framing of the binary records *)
(* ------------------------------------------------------------------ *)

Lemma length_strip_markers (data : list Byte.byte) :
  List.length (strip_markers data) = (List.length data - 8)%nat.
Proof.
  unfold strip_markers. rewrite length_firstn, length_skipn. lia.
Qed.

(** X1: the slice [[4:-4]] gives back the payload of a framed record
    exactly, whatever the eight marker bytes are, so the array built from a
    file depends on the payload only; a file of eight bytes or fewer has an
    empty payload. *)
Theorem strip_markers_framed (lead trail payload : list Byte.byte)
    (fs : filesystem) (filename : string) (shp : list Z) :
  List.length lead = 4%nat -> List.length trail = 4%nat ->
  strip_markers (lead ++ payload ++ trail) = payload /\
  (fs filename = Some (lead ++ payload ++ trail) ->
   read_raw fs filename shp = np_ndarray shp payload) /\
  (forall data, (List.length data <= 8)%nat -> strip_markers data = []).
Proof.
  intros Hl Ht.
  assert (Hs : strip_markers (lead ++ payload ++ trail) = payload).
  { unfold strip_markers. rewrite !length_app, Hl, Ht.
    destruct lead as [|b0 [|b1 [|b2 [|b3 [|b4 lead]]]]]; try discriminate Hl.
    cbn [skipn app].
    replace (4 + (List.length payload + 4) - 8)%nat
      with (List.length payload + 0)%nat by lia.
    rewrite firstn_app_2. cbn [firstn]. apply app_nil_r. }
  split; [exact Hs|]. split.
  - intros Hfs. unfold read_raw, open_read. rewrite Hfs. cbn [bind].
    rewrite Hs. reflexivity.
  - intros data Hd. unfold strip_markers.
    replace (List.length data - 8)%nat with 0%nat by lia. reflexivity.
Qed.

Lemma strip_markers_framed_witness :
  strip_markers (Demo.record 3 Byte.x00 Byte.x00 Byte.x80 Byte.x3f)
  = Demo.constant 3 Byte.x00 Byte.x00 Byte.x80 Byte.x3f.
Proof.
  apply (strip_markers_framed Demo.marker Demo.marker
           (Demo.constant 3 Byte.x00 Byte.x00 Byte.x80 Byte.x3f)
           Demo.files "MODELS/rhoinv0" []); reflexivity.
Defined.

(* ------------------------------------------------------------------ *)
(** ** Field types and iterations *)
(* ------------------------------------------------------------------ *)

Lemma compose_filenames_earth_model (self : ses3d_fields) (component : string)
    (p iteration : Z) :
  field_type self = "earth_model"%string ->
  compose_filenames self component p iteration = Ok (model_file self component p).
Proof.
  intros Hft. unfold compose_filenames. rewrite Hft. reflexivity.
Qed.

(** X2: for a material model the iteration argument of [read_single_box]
    has no effect at all, for primitive and derived components alike: the
    file names do not contain it. *)
Theorem read_single_box_ignores_iteration
    (fs : filesystem) (self : ses3d_fields) (component : string)
    (p iteration iteration' : Z) :
  field_type self = "earth_model"%string ->
  read_single_box fs self component p iteration
  = read_single_box fs self component p iteration'.
Proof.
  intros Hft. unfold read_single_box.
  rewrite !(compose_filenames_earth_model self _ _ _ Hft). reflexivity.
Qed.

Lemma read_single_box_ignores_iteration_witness :
  read_single_box Demo.files Demo.model "vp" 1 0
  = read_single_box Demo.files Demo.model "vp" 1 7.
Proof.
  apply read_single_box_ignores_iteration. reflexivity.
Defined.

(** X3: [__init__] does not check the field type.  With a type other than
    "earth_model" and "velocity_snapshot" it builds the object whenever the
    setup allows it, but the object has no component list, and every
    [read_single_box] on it stops with AttributeError before a file is
    touched. *)
Theorem init_unknown_field_type (uninit : Q) (lines : setup_lines)
    (dir ftype : string) (self : ses3d_fields) :
  ftype <> "earth_model"%string -> ftype <> "velocity_snapshot"%string ->
  init uninit lines dir ftype = Ok self ->
  (exists self', init uninit lines dir "earth_model" = Ok self'
                 /\ setup self' = setup self /\ coords self' = coords self) /\
  pure_components self = None /\
  forall fs component p iteration,
    read_single_box fs self component p iteration = Raise AttributeError.
Proof.
  intros H1 H2 H. unfold init in H.
  destruct (String.eqb_spec ftype "earth_model") as [E|_]; [contradiction|].
  destruct (String.eqb_spec ftype "velocity_snapshot") as [E|_]; [contradiction|].
  bind_inv H. bind_inv H. injection H as <-.
  split; [|split].
  - unfold init. rewrite E. cbn [bind]. rewrite E0. cbn [bind].
    eexists. split; [reflexivity|]. split; reflexivity.
  - reflexivity.
  - intros fs component p iteration. reflexivity.
Qed.

Lemma init_unknown_field_type_witness :
  exists self,
    init 0 Demo.lines "KERNELS" "kernel" = Ok self /\
    read_single_box Demo.files self "rhoinv" 0 0 = Raise AttributeError.
Proof.
  destruct (init 0 Demo.lines "KERNELS" "kernel") as [self|e] eqn:E.
  - exists self. split; [reflexivity|].
    apply (init_unknown_field_type 0 Demo.lines "KERNELS" "kernel" self);
      [discriminate|discriminate|exact E].
  - vm_compute in E. discriminate E.
Defined.

(* ------------------------------------------------------------------ *)
(** ** What a successful read went through *)
(* ------------------------------------------------------------------ *)



Lemma rollaxis_plan_beyond (ndim : nat) (axis start : Z) :
  0 <= axis < Z.of_nat ndim -> Z.of_nat ndim < start ->
  rollaxis_plan ndim axis start = Raise ValueError.
Proof.
  intros Ha Hs. unfold rollaxis_plan.
  destruct (Z.ltb_spec axis 0); [lia|].
  destruct (Z.ltb_spec start 0); [lia|].
  destruct (Z.leb_spec 0 axis); [|lia].
  destruct (Z.ltb_spec axis (Z.of_nat ndim)); [|lia].
  cbn [andb negb].
  destruct (Z.ltb_spec start (Z.of_nat ndim + 1)); [lia|].
  rewrite andb_false_r. reflexivity.
Qed.

(** X5: at the degrees 6 and above, among them 6 and 7 for which [get_GLL]
    has nodes, [read_single_box] never returns a cube, whatever the
    component and the files: the second [rollaxis] is asked for a position
    past the six axes.  For a primitive component with a well-formed file
    the error is the ValueError of [rollaxis]. *)
Theorem read_single_box_high_degree (fs : filesystem) (self : ses3d_fields)
    (component : string) (p iteration : Z) :
  6 <= lpd (setup self) ->
  (exists e, read_single_box fs self component p iteration = Raise e) /\
  (forall filename data,
     nonneg_shape (setup self) ->
     in_components (pure_components self) component = true ->
     compose_filenames self component p iteration = Ok filename ->
     fs filename = Some data ->
     4 * box_items (setup self) <= Z.of_nat (List.length (strip_markers data)) ->
     read_single_box fs self component p iteration = Raise ValueError).
Proof.
  intros Hlpd.
  assert (Hplan : rollaxis_plan 6 3 (lpd (setup self) + 1) = Raise ValueError)
    by (apply rollaxis_plan_beyond; cbn; lia).
  split.
  - destruct (read_single_box fs self component p iteration) as [cube|e] eqn:E;
      [|exists e; reflexivity].
    destruct (read_single_box_field _ _ _ _ _ _ E) as (field & Hr & Hs).
    rewrite reshape_box_by_plans, Hs in Hr. cbn [file_shape map List.length] in Hr.
    rewrite Hplan in Hr. discriminate Hr.
  - intros filename data Hnn Hp Hf Hfs Hlen.
    rewrite (read_single_box_by_length fs self component p iteration
               filename data Hp Hf Hfs Hnn).
    destruct (Z.ltb_spec (Z.of_nat (List.length (strip_markers data)))
                (4 * box_items (setup self))) as [Hshort|_]; [lia|].
    rewrite reshape_box_by_plans. cbn [shape file_shape map List.length].
    rewrite Hplan. reflexivity.
Qed.

Lemma read_single_box_high_degree_witness :
  read_single_box Degrees.files6 Degrees.model6 "rhoinv" 0 0 = Raise ValueError.
Proof.
  apply (proj2 (read_single_box_high_degree Degrees.files6 Degrees.model6
                  "rhoinv" 0 0 ltac:(vm_compute; discriminate))
           "MODELS/rhoinv0"%string
           (Demo.record 343 Byte.x00 Byte.x00 Byte.x00 Byte.x3f)).
  - vm_compute. repeat split; discriminate.
  - reflexivity.
  - reflexivity.
  - reflexivity.
  - vm_compute. discriminate.
Defined.

(* ------------------------------------------------------------------ *)
(** ** Node order of the cubes *)
(* ------------------------------------------------------------------ *)

Lemma read_single_box_degree_4_witness :
  let fs : filesystem := fun name =>
    if String.eqb name "MODELS/rhoinv0"
    then Some (Demo.marker ++ Degrees.counting 0 125 ++ Demo.marker)%list
    else None in
  exists cube,
    read_single_box fs Demo.model "rhoinv" 0 0 = Ok cube /\
    shape cube = [5; 5; 5]%nat /\
    getitem cube [1; 2; 3]%nat = Some (S754_finite false 86 (-149)).
Proof.
  intros fs.
  destruct (read_single_box_degree_4 fs Demo.model "rhoinv" 0 0
              "MODELS/rhoinv0"
              (Demo.marker ++ Degrees.counting 0 125 ++ Demo.marker)%list
              0 0 0 1 2 3)%nat
    as (cube & Hr & Hs & Hg).
  - reflexivity.
  - vm_compute. repeat split; discriminate.
  - reflexivity.
  - reflexivity.
  - reflexivity.
  - vm_compute. discriminate.
  - vm_compute. lia.
  - vm_compute. lia.
  - vm_compute. lia.
  - lia.
  - lia.
  - lia.
  - exists cube. split; [exact Hr|]. split; [exact Hs|].
    etransitivity; [exact Hg|]. vm_compute. reflexivity.
Defined.

Local Close Scope Z_scope.
Local Open Scope nat_scope.




Local Close Scope nat_scope.
Local Open Scope Z_scope.



(* ------------------------------------------------------------------ *)
(** ** Derived components need their primitives *)
(* ------------------------------------------------------------------ *)

Lemma read_primitive_from_raw (fs : filesystem) (self : ses3d_fields)
    (component : string) (p : Z) (raw cube : ndarray spec_float) :
  material_model self ->
  In component ["A"; "B"; "C"; "lambda"; "mu"; "rhoinv"; "Q"]%string ->
  read_raw fs (model_file self component p) (file_shape (setup self)) = Ok raw ->
  reshape_box (setup self) (file_shape (setup self)) raw = Ok cube ->
  read_single_box fs self component p 0 = Ok cube.
Proof.
  intros Hm Hin Er Ec.
  rewrite (read_primitive fs self component p 0 Hm Hin), Er. exact Ec.
Qed.

(** X8: in a material model a derived component is read only when every
    primitive component it is made of can be read for the same box, and the
    cube returned is then the formula of the code applied to the primitive
    cubes: rho from rhoinv; vp from lambda, mu, rhoinv; vsh from mu, rhoinv;
    vsv from mu, rhoinv, B. *)
Theorem derived_components_need_primitives
    (fs : filesystem) (self : ses3d_fields) (p iteration : Z)
    (V : ndarray spec_float) :
  material_model self ->
  (read_single_box fs self "rho" p iteration = Ok V ->
   exists R,
     read_single_box fs self "rhoinv" p 0 = Ok R /\
     V = np_map (F32.div F32.one) R) /\
  (read_single_box fs self "vp" p iteration = Ok V ->
   exists L M R,
     read_single_box fs self "lambda" p 0 = Ok L /\
     read_single_box fs self "mu" p 0 = Ok M /\
     read_single_box fs self "rhoinv" p 0 = Ok R /\
     V = np_map F32.sqrt
           (np_map2 F32.mul (np_map2 F32.add L (np_map (F32.mul F32.two) M)) R)) /\
  (read_single_box fs self "vsh" p iteration = Ok V ->
   exists M R,
     read_single_box fs self "mu" p 0 = Ok M /\
     read_single_box fs self "rhoinv" p 0 = Ok R /\
     V = np_map F32.sqrt (np_map2 F32.mul M R)) /\
  (read_single_box fs self "vsv" p iteration = Ok V ->
   exists M R B,
     read_single_box fs self "mu" p 0 = Ok M /\
     read_single_box fs self "rhoinv" p 0 = Ok R /\
     read_single_box fs self "B" p 0 = Ok B /\
     V = np_map F32.sqrt (np_map2 F32.mul (np_map2 F32.add M B) R)).
Proof.
  intros Hm. repeat split.
  - intros H. rewrite (read_rho fs self p iteration Hm) in H.
    bind_inv H. rename v into r, E into Er.
    destruct (read_raw_well_laid _ _ _ _ Er) as (Wr & _).
    rewrite (reshape_box_np_map _ _ _ _ Wr) in H. bind_inv H. injection H as <-.
    exists v. split; [|reflexivity].
    apply (read_primitive_from_raw fs self "rhoinv" p r v Hm); [cbn; tauto| |];
      assumption.
  - intros H. rewrite (read_vp fs self p iteration Hm) in H.
    bind_inv H. rename v into l, E into El.
    bind_inv H. rename v into m, E into Em.
    bind_inv H. rename v into r, E into Er.
    destruct (read_raw_well_laid _ _ _ _ El) as (Wl & _).
    destruct (read_raw_well_laid _ _ _ _ Em) as (Wm & _).
    destruct (read_raw_well_laid _ _ _ _ Er) as (Wr & _).
    pose proof (read_raw_same_layout _ _ _ _ _ _ El Em) as Slm.
    pose proof (read_raw_same_layout _ _ _ _ _ _ El Er) as Slr.
    assert (W2m : well_laid (np_map (F32.mul F32.two) m))
      by (apply well_laid_np_map; exact Wm).
    assert (Wsum : well_laid (np_map2 F32.add l (np_map (F32.mul F32.two) m)))
      by (apply well_laid_np_map2; [exact Wl|exact W2m|exact Slm]).
    assert (Wprod : well_laid
              (np_map2 F32.mul (np_map2 F32.add l (np_map (F32.mul F32.two) m)) r))
      by (apply well_laid_np_map2; [exact Wsum|exact Wr|exact Slr]).
    rewrite (reshape_box_np_map _ _ _ _ Wprod) in H.
    rewrite (reshape_box_np_map2 _ _ _ _ _ Wsum Wr Slr) in H.
    rewrite (reshape_box_np_map2 _ _ _ _ _ Wl W2m Slm) in H.
    rewrite (reshape_box_np_map _ _ _ _ Wm) in H.
    destruct (reshape_box _ _ l) as [L|] eqn:EL; [|discriminate H].
    destruct (reshape_box _ _ m) as [M|] eqn:EM; [|discriminate H].
    destruct (reshape_box _ _ r) as [R|] eqn:ER; [|discriminate H].
    cbn [bind] in H. injection H as <-.
    exists L, M, R. repeat split.
    + apply (read_primitive_from_raw fs self "lambda" p l L Hm); [cbn; tauto| |];
        assumption.
    + apply (read_primitive_from_raw fs self "mu" p m M Hm); [cbn; tauto| |];
        assumption.
    + apply (read_primitive_from_raw fs self "rhoinv" p r R Hm); [cbn; tauto| |];
        assumption.
  - intros H. rewrite (read_vsh fs self p iteration Hm) in H.
    bind_inv H. rename v into m, E into Em.
    bind_inv H. rename v into r, E into Er.
    destruct (read_raw_well_laid _ _ _ _ Em) as (Wm & _).
    destruct (read_raw_well_laid _ _ _ _ Er) as (Wr & _).
    pose proof (read_raw_same_layout _ _ _ _ _ _ Em Er) as Smr.
    assert (Wprod : well_laid (np_map2 F32.mul m r))
      by (apply well_laid_np_map2; assumption).
    rewrite (reshape_box_np_map _ _ _ _ Wprod) in H.
    rewrite (reshape_box_np_map2 _ _ _ _ _ Wm Wr Smr) in H.
    destruct (reshape_box _ _ m) as [M|] eqn:EM; [|discriminate H].
    destruct (reshape_box _ _ r) as [R|] eqn:ER; [|discriminate H].
    cbn [bind] in H. injection H as <-.
    exists M, R. repeat split.
    + apply (read_primitive_from_raw fs self "mu" p m M Hm); [cbn; tauto| |];
        assumption.
    + apply (read_primitive_from_raw fs self "rhoinv" p r R Hm); [cbn; tauto| |];
        assumption.
  - intros H. rewrite (read_vsv fs self p iteration Hm) in H.
    bind_inv H. rename v into m, E into Em.
    bind_inv H. rename v into r, E into Er.
    bind_inv H. rename v into b, E into Eb.
    destruct (read_raw_well_laid _ _ _ _ Em) as (Wm & _).
    destruct (read_raw_well_laid _ _ _ _ Er) as (Wr & _).
    destruct (read_raw_well_laid _ _ _ _ Eb) as (Wb & _).
    pose proof (read_raw_same_layout _ _ _ _ _ _ Em Eb) as Smb.
    pose proof (read_raw_same_layout _ _ _ _ _ _ Em Er) as Smr.
    assert (Wsum : well_laid (np_map2 F32.add m b))
      by (apply well_laid_np_map2; assumption).
    assert (Wprod : well_laid (np_map2 F32.mul (np_map2 F32.add m b) r))
      by (apply well_laid_np_map2; assumption).
    rewrite (reshape_box_np_map _ _ _ _ Wprod) in H.
    rewrite (reshape_box_np_map2 _ _ _ _ _ Wsum Wr Smr) in H.
    rewrite (reshape_box_np_map2 _ _ _ _ _ Wm Wb Smb) in H.
    destruct (reshape_box _ _ m) as [M|] eqn:EM; [|discriminate H].
    destruct (reshape_box _ _ b) as [B|] eqn:EB; [|discriminate H].
    destruct (reshape_box _ _ r) as [R|] eqn:ER; [|discriminate H].
    cbn [bind] in H. injection H as <-.
    exists M, R, B. repeat split.
    + apply (read_primitive_from_raw fs self "mu" p m M Hm); [cbn; tauto| |];
        assumption.
    + apply (read_primitive_from_raw fs self "rhoinv" p r R Hm); [cbn; tauto| |];
        assumption.
    + apply (read_primitive_from_raw fs self "B" p b B Hm); [cbn; tauto| |];
        assumption.
Qed.

Lemma derived_components_need_primitives_witness :
  exists V R,
    read_single_box Demo.files Demo.model "rho" 1 0 = Ok V /\
    read_single_box Demo.files Demo.model "rhoinv" 1 0 = Ok R /\
    V = np_map (F32.div F32.one) R.
Proof.
  destruct (read_single_box Demo.files Demo.model "rho" 1 0) as [V|e] eqn:E.
  - destruct (proj1 (derived_components_need_primitives Demo.files Demo.model
                       1 0 V demo_material_model) E) as (R & HR & HV).
    exists V, R. split; [reflexivity|]. split; [exact HR|exact HV].
  - vm_compute in E. discriminate E.
Defined.

(* ------------------------------------------------------------------ *)
(** ** The radial range of the boxes *)
(* ------------------------------------------------------------------ *)

(** ** The radial range of the boxes *)
(* ------------------------------------------------------------------ *)

Lemma descending_ends (zrow : list Q) (top bottom : Q) :
  descending zrow ->
  nth_error zrow 0 = Some top ->
  nth_error zrow (List.length zrow - 1) = Some bottom ->
  least bottom zrow /\ greatest top zrow.
Proof.
  intros Hd Ht Hb. split; split.
  - eapply nth_error_In. exact Hb.
  - intros x Hx. apply In_nth_error in Hx. destruct Hx as [q Hq].
    assert (q < List.length zrow)%nat
      by (apply nth_error_Some; rewrite Hq; discriminate).
    apply (Hd q (List.length zrow - 1)%nat x bottom); [lia|exact Hq|exact Hb].
  - eapply nth_error_In. exact Ht.
  - intros x Hx. apply In_nth_error in Hx. destruct Hx as [q Hq].
    apply (Hd 0%nat q top x); [lia|exact Ht|exact Hq].
Qed.

Lemma box_count_nat (st : setup_t) (p : nat) :
  valid_setup st ->
  Z.of_nat p < px (procs st) * py (procs st) * pz (procs st) <->
  (p < Z.to_nat (pz (procs st))
       * (Z.to_nat (py (procs st)) * Z.to_nat (px (procs st))))%nat.
Proof.
  intros (_ & Hpx & Hpy & Hpz & _).
  rewrite <- !Z2Nat.inj_mul by lia. split; lia.
Qed.

(** ** Depth slices of an object built by __init__ *)
(* ------------------------------------------------------------------ *)

Lemma init_parts (uninit : Q) (lines : setup_lines) (dir ftype : string)
    (self : ses3d_fields) :
  init uninit lines dir ftype = Ok self ->
  read_setup lines = Ok (setup self) /\
  make_coordinates uninit (setup self) = Ok (coords self) /\
  directory self = dir /\ field_type self = ftype.
Proof.
  unfold init. intros H. bind_inv H. bind_inv H. injection H as <-.
  cbn [setup coords directory field_type]. repeat split; assumption.
Qed.

Lemma init_binary64 (uninit : Q) (lines : setup_lines) (dir ftype : string)
    (self : ses3d_fields) :
  init uninit lines dir ftype = Ok self -> binary64_domain (setup self).
Proof.
  intros H. destruct (init_parts _ _ _ _ _ H) as (Hs & _).
  exact (read_setup_binary64 lines _ Hs).
Qed.

(** The rows of box [p] of an object built by [__init__]. *)
Lemma init_lines (uninit : Q) (lines : setup_lines) (dir ftype : string)
    (self : ses3d_fields) (p : nat) :
  init uninit lines dir ftype = Ok self ->
  valid_setup (setup self) ->
  Z.of_nat p < n_procs_of self ->
  exists trow prow zrow origin,
    let st := setup self in
    let n := Z.to_nat (lpd st + 1) in
    let iz := (p / Z.to_nat (px (procs st)) / Z.to_nat (py (procs st)))%nat in
    nth_error (boundaries_z st) iz = Some origin /\
    nth_error (theta (coords self)) p = Some trow /\
    nth_error (phi (coords self)) p = Some prow /\
    nth_error (z (coords self)) p = Some zrow /\
    List.length trow = (Z.to_nat (nx (elements st)) * n)%nat /\
    List.length prow = (Z.to_nat (ny (elements st)) * n)%nat /\
    List.length zrow = (Z.to_nat (nz (elements st)) * n)%nat /\
    descending zrow /\
    (exists top, nth_error zrow 0 = Some top
                 /\ (top == F64.add origin
                              (span (nz (elements st)) (width_z st)))%Q) /\
    (exists bottom, nth_error zrow (List.length zrow - 1) = Some bottom
                    /\ (bottom == origin)%Q) /\
    ascending trow /\
    ascending prow.
Proof.
  intros Hinit Hvalid Hp.
  destruct (init_parts _ _ _ _ _ Hinit) as (_ & Ec & _).
  pose proof (init_binary64 _ _ _ _ _ Hinit) as Hbin.
  apply (box_count_nat (setup self) p Hvalid) in Hp.
  destruct (box_index_parts _ _ _ p Hp) as (Hiz & Hiy & Hix & Eq).
  destruct (make_coordinates_lines uninit (setup self) (coords self) Hvalid Hbin Ec
              _ _ _ Hiz Hiy Hix) as (trow & prow & zrow & origin & H).
  cbv zeta in H. rewrite <- Eq in H.
  exists trow, prow, zrow, origin. cbv zeta. tauto.
Qed.

Lemma init_rows (uninit : Q) (lines : setup_lines) (dir ftype : string)
    (self : ses3d_fields) (p : nat) :
  init uninit lines dir ftype = Ok self ->
  valid_setup (setup self) ->
  Z.of_nat p < n_procs_of self ->
  exists trow prow zrow,
    nth_error (theta (coords self)) p = Some trow /\
    nth_error (phi (coords self)) p = Some prow /\
    nth_error (z (coords self)) p = Some zrow /\
    zrow <> [] /\
    List.length zrow
    = (Z.to_nat (nz (elements (setup self))) * Z.to_nat (lpd (setup self) + 1))%nat.
Proof.
  intros Hinit Hvalid Hp.
  destruct (init_lines _ _ _ _ _ p Hinit Hvalid Hp)
    as (trow & prow & zrow & origin & H). cbv zeta in H.
  destruct H as (_ & Ht & Hph & Hz & _ & _ & Hlen & _).
  exists trow, prow, zrow. repeat (split; [assumption|]). split; [|exact Hlen].
  intros ->. cbn [List.length] in Hlen.
  destruct Hvalid as ([Hdeg _] & _ & _ & _ & _ & _ & Hnz & _). nia.
Qed.

(** The z range of a box, from the stored origin of its radial block to
    the binary64 sum of that origin and the width the last knot carries. *)
Lemma z_row_range (uninit : Q) (lines : setup_lines) (dir ftype : string)
    (self : ses3d_fields) (p : nat) :
  init uninit lines dir ftype = Ok self ->
  valid_setup (setup self) ->
  Z.of_nat p < n_procs_of self ->
  exists zrow origin,
    nth_error (z (coords self)) p = Some zrow /\
    nth_error (boundaries_z (setup self))
      (p / Z.to_nat (px (procs (setup self))) / Z.to_nat (py (procs (setup self))))
    = Some origin /\
    forall r,
      in_z_range zrow r <->
      (origin <= r)%Q /\
      (r <= F64.add origin (span (nz (elements (setup self)))
                                 (width_z (setup self))))%Q.
Proof.
  intros Hinit Hvalid Hp.
  destruct (init_lines _ _ _ _ _ p Hinit Hvalid Hp)
    as (trow & prow & zrow & origin & H). cbv zeta in H.
  destruct H as (Ho & _ & _ & Hz & _ & _ & _ & Hdesc & (top & Htop & Etop)
                 & (bottom & Hbot & Ebot) & _).
  exists zrow, origin. split; [exact Hz|]. split; [exact Ho|].
  destruct (descending_ends zrow top bottom Hdesc Htop Hbot) as [Hleast Hgreatest].
  intros r. split.
  - intros (lo & hi & Hlo & Hhi & H1 & H2).
    pose proof (least_unique _ _ _ Hlo Hleast) as E1.
    pose proof (greatest_unique _ _ _ Hhi Hgreatest) as E2.
    rewrite E1, Ebot in H1. rewrite E2, Etop in H2. split; assumption.
  - intros [H1 H2]. exists bottom, top.
    split; [exact Hleast|]. split; [exact Hgreatest|].
    rewrite Ebot, Etop. split; assumption.
Qed.

(** X9: the radial range of a box, read off the setup.  On an object built
    by [__init__] from a valid setup, box p passes the test of line 325 for
    a radius r exactly when r lies between the origin of the radial block
    p / px / py, as [np.arange] tabulated it, and the binary64 sum of that
    origin and of 2nz * width_z / 2nz, both ends included. *)
Theorem box_range_from_setup
    (uninit : Q) (lines : setup_lines) (dir ftype : string)
    (self : ses3d_fields) (p : nat) :
  init uninit lines dir ftype = Ok self ->
  valid_setup (setup self) ->
  Z.of_nat p < n_procs_of self ->
  exists origin,
    nth_error (boundaries_z (setup self))
      (p / Z.to_nat (px (procs (setup self))) / Z.to_nat (py (procs (setup self))))
    = Some origin /\
    forall r,
      intersects self r p = true <->
      (origin <= r)%Q /\
      (r <= F64.add origin (span (nz (elements (setup self)))
                                 (width_z (setup self))))%Q.
Proof.
  intros Hinit Hvalid Hp.
  destruct (z_row_range _ _ _ _ _ p Hinit Hvalid Hp)
    as (zrow & origin & Hz & Ho & Hrange).
  exists origin. split; [exact Ho|].
  intros r. rewrite intersects_true_iff, <- Hrange. split.
  - intros (zrow' & Hz' & Hin). rewrite Hz in Hz'. injection Hz' as <-. exact Hin.
  - intros Hin. exists zrow. split; assumption.
Qed.

Lemma box_range_from_setup_witness :
  exists origin,
    nth_error (boundaries_z (setup Demo.model)) 1 = Some origin /\
    origin = 6185500%Q /\
    intersects Demo.model 6185500 1 = true.
Proof.
  destruct (box_range_from_setup 0 Demo.lines "MODELS" "earth_model"
              Demo.model 1 eq_refl demo_valid_setup)
    as (origin & Ho & Hr).
  - vm_compute. reflexivity.
  - exists origin. split; [exact Ho|].
    assert (E : origin = 6185500%Q).
    { vm_compute in Ho. injection Ho as <-. reflexivity. }
    split; [exact E|]. apply Hr. rewrite E.
    split; [apply Qle_refl|vm_compute; discriminate].
Defined.

(** Every block boundary is at or above the start of the range. *)
Lemma arange_item_ge_start (start step : Q) (i : nat) :
  (F64.round start == start)%Q -> (0 <= step)%Q ->
  (start <= arange_item start step i)%Q.
Proof.
  intros Hs Hstep.
  assert (H1 : (start <= F64.add start step)%Q).
  { rewrite <- Hs at 1. apply round_mono. lra. }
  destruct i as [|[|i]]; cbn [arange_item]; [apply Qle_refl|exact H1|].
  rewrite <- Hs at 1. apply round_mono.
  assert (Hd : (0 <= F64.sub (F64.add start step) start)%Q)
    by (apply sub_nonneg; exact H1).
  assert (Hm : (0 <= F64.mul (inject_Z (Z.of_nat (S (S i))))
                       (F64.sub (F64.add start step) start))%Q).
  { apply round_nonneg. apply Qmult_le_0_compat; [|exact Hd].
    change 0%Q with (inject_Z 0). rewrite <- Zle_Qle. lia. }
  lra.
Qed.

(** X10: on an object built by [__init__] from a valid setup, a depth
    whose radius, computed as line 294 does, lies below z_min makes
    [plot_depth_slice] stop without a figure, whatever the component and
    the files: with the error of [np.arange] when the parallels or
    meridians cannot be computed, and otherwise with UnboundLocalError,
    since no box passes the test of the loop, no file is read, and the
    colour bar finds no image. *)
Theorem plot_depth_slice_below_domain
    (uninit : Q) (lines : setup_lines) (dir ftype : string)
    (self : ses3d_fields) (fs : filesystem) (component : string)
    (depth : Q) (iteration : Z) :
  init uninit lines dir ftype = Ok self ->
  valid_setup (setup self) ->
  (radius_of depth < z_min (domain (setup self)))%Q ->
  (exists e, graticule (setup self) = Raise e /\
             plot_depth_slice fs self component depth iteration = Raise e)
  \/
  (exists g, graticule (setup self) = Ok g /\
             plot_depth_slice fs self component depth iteration
             = Raise UnboundLocalError).
Proof.
  intros Hinit Hvalid Hout.
  pose proof (init_binary64 _ _ _ _ _ Hinit) as (_ & _ & _ & _ & Bz & _).
  unfold plot_depth_slice. cbv zeta.
  fold (n_procs_of self) (radius_of depth).
  destruct (graticule (setup self)) as [g|e];
    [right; exists g|left; exists e; split; reflexivity].
  split; [reflexivity|]. cbn [bind].
  rewrite for_each_unchanged; [reflexivity|].
  intros p Hp. apply in_seq in Hp.
  assert (Hp' : Z.of_nat p < n_procs_of self) by lia.
  destruct (z_row_range _ _ _ _ _ p Hinit Hvalid Hp')
    as (zrow & origin & Hz & Ho & Hrange).
  destruct (init_rows _ _ _ _ _ p Hinit Hvalid Hp')
    as (_ & _ & zrow' & _ & _ & Hz' & Hne & _).
  rewrite Hz in Hz'. injection Hz' as <-.
  apply (plot_box_skip fs self component (radius_of depth) iteration _ p zrow Hz Hne).
  intros Hin. apply Hrange in Hin. destruct Hin as [H1 _].
  assert (Hge : (z_min (domain (setup self)) <= origin)%Q).
  { unfold boundaries_z, arange_values in Ho. rewrite nth_error_map in Ho.
    destruct (nth_error (seq 0 _) _) as [k|]; [|discriminate Ho].
    cbn [option_map] in Ho. injection Ho as <-.
    apply arange_item_ge_start; [exact Bz|].
    destruct Hvalid as (_ & _ & _ & Hpz & _ & _ & _ & _ & _ & Hzz).
    apply width_nonneg; [exact Hpz|apply Qlt_le_weak; exact Hzz]. }
  lra.
Qed.

Lemma plot_depth_slice_below_domain_witness :
  plot_depth_slice Demo.files Demo.model "vp" 500 0 = Raise UnboundLocalError.
Proof.
  destruct (plot_depth_slice_below_domain 0 Demo.lines "MODELS" "earth_model"
              Demo.model Demo.files "vp" 500 0 eq_refl demo_valid_setup)
    as [(e & Hg & _)|(g & _ & H)].
  - vm_compute. reflexivity.
  - vm_compute in Hg. discriminate Hg.
  - exact H.
Defined.

Lemma for_each_invariant {A S : Type} (Inv : S -> Prop)
    (body : S -> A -> result S) (l : list A) :
  (forall s a s', Inv s -> body s a = Ok s' -> Inv s') ->
  forall s s', Inv s -> for_each l body s = Ok s' -> Inv s'.
Proof.
  intros Hstep. induction l as [|a l IH]; intros s s' Hs H.
  - rewrite for_each_nil in H. injection H as <-. exact Hs.
  - rewrite for_each_cons in H. bind_inv H.
    apply (IH v s'); [|exact H]. exact (Hstep s a v Hs E).
Qed.

(** The image and the radial index are those of the mesh drawn last. *)
Lemma plot_loop_last (fs : filesystem) (self : ses3d_fields)
    (component : string) (radius : Q) (iteration : Z) (l : list nat)
    (loc : locals_t) :
  for_each l (plot_box fs self component radius iteration)
    (mk_locals (S754_infinity true) (S754_infinity false) None None []) = Ok loc ->
  (drawn loc = [] /\ im loc = None)
  \/ exists ms m, drawn loc = ms ++ [m] /\ im loc = Some m
                  /\ idz loc = Some (idz_of m).
Proof.
  apply (for_each_invariant
           (fun loc => (drawn loc = [] /\ im loc = None)
                       \/ exists ms m, drawn loc = ms ++ [m] /\ im loc = Some m
                                       /\ idz loc = Some (idz_of m))).
  - intros s p s' Hs H.
    destruct (plot_box_outcome _ _ _ _ _ _ _ _ H)
      as [[_ ->]|(_ & m & _ & _ & Hd & Him & Hidz)]; [exact Hs|].
    right. exists (drawn s), m. repeat split; assumption.
  - left. split; reflexivity.
Qed.

(** X11: whenever [plot_depth_slice] returns, at least one mesh was drawn,
    the colour bar belongs to the mesh drawn last, and the number in the
    title is int(z[p, idz] / 1000.0) with idz the radial index of that last
    mesh but p the last box of the loop, n_procs - 1, whether or not that
    box was drawn. *)
Theorem plot_depth_slice_colorbar_and_title
    (fs : filesystem) (self : ses3d_fields) (component : string)
    (depth : Q) (iteration : Z) (fig : figure_t) :
  plot_depth_slice fs self component depth iteration = Ok fig ->
  exists ms m zrow zval,
    meshes fig = ms ++ [m] /\
    colorbar_of fig = m /\
    nth_error (z (coords self)) (Z.to_nat (n_procs_of self) - 1) = Some zrow /\
    nth_error zrow (idz_of m) = Some zval /\
    title_km fig = py_int (F64.div zval 1000).
Proof.
  intros H. apply plot_depth_slice_inv in H.
  destruct H as (lines & loc & _ & Eloop & Hm & Him & _ & _
                 & i & zrow & zval & Hidz & Hrow & Hval & Htitle).
  destruct (plot_loop_last _ _ _ _ _ _ _ Eloop)
    as [[_ Hnone]|(ms & m & Hd & Him' & Hidz')].
  - rewrite Hnone in Him. discriminate Him.
  - rewrite Him' in Him. injection Him as Him.
    rewrite Hidz' in Hidz. injection Hidz as Hidz.
    exists ms, m, zrow, zval. rewrite Hm, Hd, Hidz, <- Him. auto.
Qed.

Lemma plot_depth_slice_colorbar_and_title_witness :
  exists fig ms m,
    plot_depth_slice Demo.files Demo.model "vp" 300 0 = Ok fig /\
    meshes fig = ms ++ [m] /\ colorbar_of fig = m.
Proof.
  destruct (plot_depth_slice Demo.files Demo.model "vp" 300 0) as [fig|e] eqn:E.
  - destruct (plot_depth_slice_colorbar_and_title Demo.files Demo.model "vp"
                300 0 fig E) as (ms & m & _ & _ & Hm & Hc & _).
    exists fig, ms, m. split; [reflexivity|]. split; assumption.
  - vm_compute in E. discriminate E.
Defined.

(** In the two-box example a depth of 300 km (radius 6071 km) is drawn from
    box 0, at its radial index 2 (radius 6092.75 km), while the title shows
    6278: the z of box 1 at that index. *)
Example demo_title_from_last_box :
  exists fig,
    plot_depth_slice Demo.files Demo.model "vp" 300 0 = Ok fig /\
    map box (meshes fig) = [0%nat] /\
    map idz_of (meshes fig) = [2%nat] /\
    option_map (fun zrow : list Q => nth 2 zrow 0%Q)
      (nth_error (z (coords Demo.model)) 0)
    = Some 6092750%Q /\
    title_km fig = 6278.
Proof.
  eexists. split; [vm_compute; reflexivity|]. repeat split.
Qed.

(* ------------------------------------------------------------------ *)
(** ** When a depth slice is drawn *)
(* ------------------------------------------------------------------ *)










(* ------------------------------------------------------------------ *)
(** ** Degrees without nodes *)
(* ------------------------------------------------------------------ *)




(* ------------------------------------------------------------------ *)
(** ** File names *)
(* ------------------------------------------------------------------ *)

Lemma all_digits_string_of_uint (d : Decimal.uint) :
  all_digits (NilEmpty.string_of_uint d) = true.
Proof.
  induction d; cbn [NilEmpty.string_of_uint all_digits];
    try rewrite IHd; reflexivity.
Qed.

Lemma string_of_uint_digits (d : Decimal.uint) :
  all_digits (NilZero.string_of_uint d) = true /\
  starts_with is_digit (NilZero.string_of_uint d) = true.
Proof.
  destruct d; (split; [|reflexivity]);
    try reflexivity;
    apply (all_digits_string_of_uint (_ d)).
Qed.

(** [str] of a number that is not negative is a non-empty string of digits,
    and [str] never maps two numbers to one string. *)
Lemma str_nonneg (n : Z) :
  0 <= n -> all_digits (str n) = true /\ starts_with is_digit (str n) = true.
Proof.
  intros Hn. unfold str. destruct n as [|p|p]; [split; reflexivity| |lia].
  cbn [Z.to_int NilZero.string_of_int]. apply string_of_uint_digits.
Qed.

Lemma str_inj (n m : Z) : str n = str m -> n = m.
Proof.
  unfold str. intros H. apply DecimalZ.to_int_inj.
  assert (Hnn : forall k, Z.to_int k <> Decimal.Pos Decimal.Nil
                          /\ Z.to_int k <> Decimal.Neg Decimal.Nil).
  { intros [|p|p]; cbn [Z.to_int]; split; try discriminate;
      intros E; injection E as E;
      exact (DecimalPos.Unsigned.to_uint_nonnil p E). }
  pose proof (NilZero.isi (Z.to_int n) (proj1 (Hnn n)) (proj2 (Hnn n))) as H1.
  pose proof (NilZero.isi (Z.to_int m) (proj1 (Hnn m)) (proj2 (Hnn m))) as H2.
  rewrite H in H1. rewrite H1 in H2. injection H2 as H2. exact H2.
Qed.

Lemma append_inv_head (a b c : string) : (a ++ b = a ++ c)%string -> b = c.
Proof.
  induction a as [|x a IH]; cbn [append]; intros H; [exact H|].
  injection H as H. exact (IH H).
Qed.

(** Two strings split at the first character of a class in one way only. *)
Lemma split_at_first (q : ascii -> bool) (c c' d d' : string) :
  none_of q c = true -> none_of q c' = true ->
  starts_with q d = true -> starts_with q d' = true ->
  (c ++ d = c' ++ d')%string -> c = c' /\ d = d'.
Proof.
  revert c'. induction c as [|x c IH]; intros [|x' c'] Hc Hc' Hd Hd' H;
    cbn [append none_of] in *.
  - split; [reflexivity|exact H].
  - subst d. cbn [starts_with] in Hd.
    apply andb_true_iff in Hc'. destruct Hc' as [Hx _].
    rewrite Hd in Hx. discriminate Hx.
  - subst d'. cbn [starts_with] in Hd'.
    apply andb_true_iff in Hc. destruct Hc as [Hx _].
    rewrite Hd' in Hx. discriminate Hx.
  - injection H as -> H.
    apply andb_true_iff in Hc, Hc'.
    destruct (IH c' (proj2 Hc) (proj2 Hc') Hd Hd' H) as [-> ->].
    split; reflexivity.
Qed.

Lemma all_digits_none_of (q : ascii -> bool) (d : string) :
  (forall x, is_digit x = true -> q x = false) ->
  all_digits d = true -> none_of q d = true.
Proof.
  intros Hq. induction d as [|x d IH]; [reflexivity|].
  cbn [all_digits none_of]. intros H. apply andb_true_iff in H.
  destruct H as [Hx Hd]. rewrite (Hq x Hx), (IH Hd). reflexivity.
Qed.

Lemma path_join_inj (a b b' : string) :
  startswith_slash b = false -> startswith_slash b' = false ->
  path_join a b = path_join a b' -> b = b'.
Proof.
  unfold path_join. intros -> ->.
  destruct (String.eqb a EmptyString || endswith_slash a); intros H.
  - exact (append_inv_head _ _ _ H).
  - apply append_inv_head in H. cbn [append] in H. injection H as H. exact H.
Qed.

Lemma str_in_In (c : string) (l : list string) : str_in c l = true -> In c l.
Proof.
  unfold str_in. intros H. apply existsb_exists in H.
  destruct H as (x & Hx & E). apply String.eqb_eq in E. subst x. exact Hx.
Qed.

Lemma digit_not_underscore (x : ascii) :
  is_digit x = true -> Ascii.eqb "_" x = false.
Proof.
  intros Hx. destruct (Ascii.eqb_spec "_"%char x) as [<-|_]; [|reflexivity].
  discriminate Hx.
Qed.

(** X14: the file names are unambiguous.  In a material model two primitive
    components, or two box numbers that are not negative, never share a
    file name; in a velocity snapshot the component, the box number and the
    iteration can all be told from the file name. *)
Theorem compose_filenames_injective (self : ses3d_fields)
    (c c' : string) (p p' iteration iteration' : Z) (filename : string) :
  material_model self \/ snapshot_model self ->
  in_components (pure_components self) c = true ->
  in_components (pure_components self) c' = true ->
  0 <= p -> 0 <= p' -> 0 <= iteration -> 0 <= iteration' ->
  compose_filenames self c p iteration = Ok filename ->
  compose_filenames self c' p' iteration' = Ok filename ->
  c = c' /\ p = p' /\ (snapshot_model self -> iteration = iteration').
Proof.
  intros Hmodel Hc Hc' Hp Hp' Hi Hi' Hf Hf'.
  destruct (str_nonneg p Hp) as [Dp Sp]. destruct (str_nonneg p' Hp') as [Dp' Sp'].
  destruct Hmodel as [(Hft & Hpure & Hder)|(Hft & Hpure & Hder)];
    unfold compose_filenames in Hf, Hf'; rewrite Hft in Hf, Hf';
    cbn [String.eqb Ascii.eqb Bool.eqb local] in Hf, Hf';
    rewrite <- Hf' in Hf; injection Hf as Hf;
    rewrite Hpure in Hc, Hc'; cbn [in_components] in Hc, Hc';
    apply str_in_In in Hc, Hc'.
  - assert (Hname : forall n, In n ["A"; "B"; "C"; "lambda"; "mu"; "rhoinv"; "Q"]%string ->
              none_of is_digit n = true /\
              forall s, startswith_slash (n ++ s) = false).
    { intros n Hn.
      repeat (destruct Hn as [<-|Hn]; [split; [reflexivity|intros s; reflexivity]|]).
      destruct Hn. }
    destruct (Hname c Hc) as [Nc Sc]. destruct (Hname c' Hc') as [Nc' Sc'].
    apply path_join_inj in Hf; [|apply Sc|apply Sc'].
    destruct (split_at_first is_digit c c' (str p) (str p') Nc Nc' Sp Sp' Hf)
      as [-> Hs].
    split; [reflexivity|]. split; [exact (str_inj _ _ Hs)|].
    intros (Hft' & _). rewrite Hft in Hft'. discriminate Hft'.
  - assert (Hname : forall n, In n ["vx"; "vy"; "vz"]%string ->
              none_of (Ascii.eqb "_") n = true /\
              forall s, startswith_slash (n ++ s) = false).
    { intros n Hn.
      repeat (destruct Hn as [<-|Hn]; [split; [reflexivity|intros s; reflexivity]|]).
      destruct Hn. }
    destruct (Hname c Hc) as [Nc Sc]. destruct (Hname c' Hc') as [Nc' Sc'].
    apply path_join_inj in Hf; [|apply Sc|apply Sc'].
    destruct (split_at_first (Ascii.eqb "_") c c'
                ("_" ++ str p ++ "_" ++ str iteration)
                ("_" ++ str p' ++ "_" ++ str iteration') Nc Nc'
                eq_refl eq_refl Hf) as [-> Hs].
    cbn [append] in Hs. injection Hs as Hs.
    destruct (split_at_first (Ascii.eqb "_") (str p) (str p')
                (String "_" (str iteration)) (String "_" (str iteration'))
                (all_digits_none_of _ _ digit_not_underscore Dp)
                (all_digits_none_of _ _ digit_not_underscore Dp')
                eq_refl eq_refl Hs) as [Hsp Hsi].
    injection Hsi as Hsi.
    split; [reflexivity|]. split; [exact (str_inj _ _ Hsp)|].
    intros _. exact (str_inj _ _ Hsi).
Qed.

Lemma compose_filenames_injective_witness :
  compose_filenames Demo.model "mu" 12 0 = Ok "MODELS/mu12"%string /\
  compose_filenames Demo.model "mu" 12 5 = Ok "MODELS/mu12"%string /\
  ("mu" = "mu")%string /\ 12 = 12.
Proof.
  split; [reflexivity|]. split; [reflexivity|].
  destruct (compose_filenames_injective Demo.model "mu" "mu" 12 12 0 5
              "MODELS/mu12" (or_introl demo_material_model))
    as (H1 & H2 & _); try reflexivity; try lia.
  split; [exact H1|exact H2].
Defined.

(* ------------------------------------------------------------------ *)
(** ** What the meshes show *)
(* ------------------------------------------------------------------ *)

Lemma plot_box_mesh (fs : filesystem) (self : ses3d_fields)
    (component : string) (radius : Q) (iteration : Z)
    (loc loc' : locals_t) (p : nat) :
  plot_box fs self component radius iteration loc p = Ok loc' ->
  loc' = loc \/
  exists m, drawn loc' = drawn loc ++ [m] /\ box m = p /\
            mesh_from_box fs self component iteration m.
Proof.
  unfold plot_box, row. intros H.
  destruct (nth_error (z (coords self)) p) as [zrow|]; [|discriminate H].
  cbn [bind] in H. bind_inv H. rename v into inside.
  destruct inside; [|left; injection H as <-; reflexivity].
  bind_inv H. rename v into cube, E0 into Eread.
  destruct (nth_error (theta (coords self)) p) as [trow|] eqn:Et;
    [|discriminate H].
  destruct (nth_error (phi (coords self)) p) as [prow|] eqn:Ep;
    [|discriminate H].
  cbn [bind] in H. bind_inv H. rename v into i.
  bind_inv H. rename v into s, E1 into Es.
  bind_inv H. bind_inv H. injection H as <-.
  right. eexists. split; [reflexivity|]. split; [reflexivity|].
  exists trow, prow, cube. cbn [box lats lons values idz_of].
  repeat split; assumption.
Qed.

Lemma plot_loop_meshes (fs : filesystem) (self : ses3d_fields)
    (component : string) (radius : Q) (iteration : Z) (l : list nat)
    (loc : locals_t) :
  for_each l (plot_box fs self component radius iteration)
    (mk_locals (S754_infinity true) (S754_infinity false) None None []) = Ok loc ->
  Forall (mesh_from_box fs self component iteration) (drawn loc).
Proof.
  apply (for_each_invariant
           (fun loc => Forall (mesh_from_box fs self component iteration)
                         (drawn loc))).
  - intros s p s' Hs Hbody.
    destruct (plot_box_mesh _ _ _ _ _ _ _ _ Hbody) as [->|(m & Hd & _ & Hm)];
      [exact Hs|].
    rewrite Hd. apply Forall_app. split; [exact Hs|].
    constructor; [exact Hm|constructor].
  - constructor.
Qed.

(** X15: when [plot_depth_slice] returns, every mesh it has drawn shows
    data of its own box: the slice [field[:, :, idz]] of the cube that
    [read_single_box] returns for that box, component and iteration, over
    the latitudes 90 - theta * 180 / pi and the longitudes phi * 180 / pi
    of the coordinate rows of that box, in binary64. *)
Theorem plot_depth_slice_meshes_from_boxes
    (fs : filesystem) (self : ses3d_fields) (component : string)
    (depth : Q) (iteration : Z) (fig : figure_t) :
  plot_depth_slice fs self component depth iteration = Ok fig ->
  Forall (mesh_from_box fs self component iteration) (meshes fig).
Proof.
  intros H. apply plot_depth_slice_inv in H.
  destruct H as (lines & loc & _ & Eloop & Hm & _).
  rewrite Hm. exact (plot_loop_meshes _ _ _ _ _ _ _ Eloop).
Qed.

Lemma plot_depth_slice_meshes_from_boxes_witness :
  exists fig,
    plot_depth_slice Demo.files Demo.model "vp" 300 0 = Ok fig /\
    Forall (mesh_from_box Demo.files Demo.model "vp" 0) (meshes fig).
Proof.
  destruct (plot_depth_slice Demo.files Demo.model "vp" 300 0) as [fig|e] eqn:E.
  - exists fig. split; [reflexivity|].
    exact (plot_depth_slice_meshes_from_boxes Demo.files Demo.model "vp" 300 0
             fig E).
  - vm_compute in E. discriminate E.
Defined.

Lemma longitude_mono (a b : Q) : (a <= b)%Q -> (longitude a <= longitude b)%Q.
Proof.
  intros H. unfold longitude.
  apply div_mono_l; [unfold np_pi; reflexivity|].
  apply mul_mono_r; [discriminate|exact H].
Qed.

Lemma latitude_mono (a b : Q) : (a <= b)%Q -> (latitude b <= latitude a)%Q.
Proof.
  intros H. unfold latitude, F64.sub. apply round_mono.
  pose proof (longitude_mono a b H) as Hl. unfold longitude in Hl. lra.
Qed.

Lemma longitudes_ascending (prow : list Q) :
  ascending prow -> ascending (map longitude prow).
Proof.
  intros Ha q1 q2 a b Hq H1 H2. rewrite nth_error_map in H1, H2.
  destruct (nth_error prow q1) as [a0|] eqn:E1; [|discriminate H1].
  destruct (nth_error prow q2) as [b0|] eqn:E2; [|discriminate H2].
  injection H1 as <-. injection H2 as <-.
  apply longitude_mono. exact (Ha q1 q2 a0 b0 Hq E1 E2).
Qed.

Lemma latitudes_descending (trow : list Q) :
  ascending trow -> descending (map latitude trow).
Proof.
  intros Ha q1 q2 a b Hq H1 H2. rewrite nth_error_map in H1, H2.
  destruct (nth_error trow q1) as [a0|] eqn:E1; [|discriminate H1].
  destruct (nth_error trow q2) as [b0|] eqn:E2; [|discriminate H2].
  injection H1 as <-. injection H2 as <-.
  apply latitude_mono. exact (Ha q1 q2 a0 b0 Hq E1 E2).
Qed.

Lemma slice_z_extent (field : ndarray spec_float) (i sx sy sz : nat)
    (s : list (list spec_float)) :
  shape field = [sx; sy; sz] -> slice_z field i = Ok s ->
  List.length s = sx /\ Forall (fun r => List.length r = sy) s.
Proof.
  unfold slice_z. intros ->. destruct (i <? sz)%nat; [|discriminate].
  intros H. injection H as <-. split.
  - rewrite length_map, length_seq. reflexivity.
  - apply Forall_forall. intros r Hr. apply in_map_iff in Hr.
    destruct Hr as (ix & <- & _). rewrite length_map, length_seq. reflexivity.
Qed.

(** X16: on an object built by [__init__] from a valid setup, the grid of
    every mesh matches its slice: with n = lpd + 1 there are nx * n
    latitudes and ny * n longitudes, the slice has nx * n rows of ny * n
    values, the latitudes never increase and the longitudes never decrease
    along their axes. *)
Theorem plot_depth_slice_grid_matches_slice
    (uninit : Q) (lines : setup_lines) (dir ftype : string)
    (self : ses3d_fields) (fs : filesystem) (component : string)
    (depth : Q) (iteration : Z) (fig : figure_t) :
  init uninit lines dir ftype = Ok self ->
  valid_setup (setup self) ->
  plot_depth_slice fs self component depth iteration = Ok fig ->
  Forall (fun m =>
            List.length (lats m)
            = (Z.to_nat (nx (elements (setup self)))
               * Z.to_nat (lpd (setup self) + 1))%nat /\
            List.length (lons m)
            = (Z.to_nat (ny (elements (setup self)))
               * Z.to_nat (lpd (setup self) + 1))%nat /\
            List.length (values m) = List.length (lats m) /\
            Forall (fun r => List.length r = List.length (lons m)) (values m) /\
            descending (lats m) /\ ascending (lons m))
         (meshes fig).
Proof.
  intros Hinit Hvalid H.
  pose proof Hvalid as ([Hdeg _] & _ & _ & _ & Hnx & Hny & Hnz & _).
  apply plot_depth_slice_inv in H.
  destruct H as (lines' & loc & _ & Eloop & Hmeshes & _).
  rewrite Hmeshes.
  pose proof (plot_loop_meshes _ _ _ _ _ _ _ Eloop) as Hfrom.
  destruct (plot_loop_outcome _ _ _ _ _ _ _ _ Eloop) as (ms & Hd & Hmap & _).
  cbn [drawn app] in Hd. rewrite Hd in *.
  rewrite Forall_forall in Hfrom. apply Forall_forall. intros m Hm.
  assert (Hbox : In (box m) (map box ms)) by (apply in_map; exact Hm).
  rewrite Hmap in Hbox. apply filter_In in Hbox. destruct Hbox as [Hseq _].
  apply in_seq in Hseq.
  destruct (init_lines _ _ _ _ _ (box m) Hinit Hvalid ltac:(lia))
    as (trow & prow & zrow & origin & Hl). cbv zeta in Hl.
  destruct Hl as (_ & Ht & Hp & _ & Lt & Lp & _ & _ & _ & _ & At & Ap).
  destruct (Hfrom m Hm) as (trow' & prow' & cube & Ht' & Hp' & Hread
                            & Hlats & Hlons & Hslice).
  rewrite Ht in Ht'. injection Ht' as <-.
  rewrite Hp in Hp'. injection Hp' as <-.
  destruct (read_single_box_field _ _ _ _ _ _ Hread) as (field & Hr & _).
  destruct (reshape_box_layout _ _ _ _ Hr) as (Hs & _).
  cbn [file_shape firstn skipn combine map fst snd] in Hs.
  destruct (slice_z_extent _ _ _ _ _ _ Hs Hslice) as [Lv Lr].
  rewrite Hlats, Hlons, !length_map, Lt, Lp, Lv.
  rewrite !Z2Nat.inj_mul in * by lia.
  repeat split; try assumption.
  - apply latitudes_descending. exact At.
  - apply longitudes_ascending. exact Ap.
Qed.

Lemma plot_depth_slice_grid_matches_slice_witness :
  exists fig,
    plot_depth_slice Demo.files Demo.model "vp" 300 0 = Ok fig /\
    Forall (fun m => List.length (lats m) = 5%nat /\ List.length (lons m) = 5%nat /\
                     List.length (values m) = 5%nat)
           (meshes fig).
Proof.
  destruct (plot_depth_slice Demo.files Demo.model "vp" 300 0) as [fig|e] eqn:E.
  - exists fig. split; [reflexivity|].
    pose proof (plot_depth_slice_grid_matches_slice 0 Demo.lines "MODELS"
                  "earth_model" Demo.model Demo.files "vp" 300 0 fig eq_refl
                  demo_valid_setup E) as H.
    eapply Forall_impl; [|exact H].
    intros m (H1 & H2 & H3 & _). rewrite H3, H1, H2. repeat split.
  - vm_compute in E. discriminate E.
Defined.

(* ------------------------------------------------------------------ *)
(** ** The coordinates of the nodes *)
(* ------------------------------------------------------------------ *)



(** The second node of the phi line of the example: 20 degrees in radians,
    times (1 - 0.6546536707079772) / 2. *)
Example demo_phi_node :
  option_map (fun prow : list Q => nth 1 prow 0%Q)
    (nth_error (phi (coords Demo.model)) 1)
  = Some (line_value (map F64.round
                        [-1; -(6546536707079772 # 10000000000000000); 0;
                         6546536707079772 # 10000000000000000; 1]%Q)
            1 (radians 20) 0 1).
Proof. vm_compute. reflexivity. Qed.

(* ------------------------------------------------------------------ *)
(** ** Failing reads inside a depth slice *)
(* ------------------------------------------------------------------ *)





(* ------------------------------------------------------------------ *)
(** ** Reads and the files they need *)
(* ------------------------------------------------------------------ *)

Lemma existsb_nonneg_shape (st : setup_t) :
  existsb (fun d => d <? 0) (file_shape st) = false -> nonneg_shape st.
Proof.
  unfold file_shape, nonneg_shape. cbn [existsb]. intros H.
  repeat (apply orb_false_iff in H; destruct H as [?H H]).
  repeat match goal with
         | H : (_ <? 0) = false |- _ => apply Z.ltb_ge in H
         end.
  repeat split; assumption.
Qed.

(** X19: a primitive component is read from its file and from nothing else.
    If the file does not exist the read stops with IOError; if the read
    returns a cube, the file exists, no dimension of the shape is negative
    and the payload between the markers has at least four bytes for every
    item of the box. *)
Theorem read_single_box_needs_file
    (fs : filesystem) (self : ses3d_fields) (component : string)
    (p iteration : Z) (filename : string) :
  in_components (pure_components self) component = true ->
  compose_filenames self component p iteration = Ok filename ->
  (fs filename = None ->
   read_single_box fs self component p iteration = Raise IOError) /\
  (forall cube,
     read_single_box fs self component p iteration = Ok cube ->
     exists data,
       fs filename = Some data /\
       nonneg_shape (setup self) /\
       4 * box_items (setup self) <= Z.of_nat (List.length (strip_markers data))).
Proof.
  intros Hp Hf.
  rewrite (read_single_box_pure fs self component p iteration filename Hp Hf).
  unfold read_raw, open_read. split.
  - intros ->. reflexivity.
  - intros cube H. destruct (fs filename) as [data|]; [|discriminate H].
    cbn [bind] in H. bind_inv H. unfold np_ndarray in E.
    destruct (existsb (fun d => d <? 0) (file_shape (setup self))) eqn:Eneg;
      [discriminate E|].
    pose proof (existsb_nonneg_shape _ Eneg) as Hnn.
    destruct (Nat.ltb_spec (List.length (strip_markers data))
                (4 * size_of (map Z.to_nat (file_shape (setup self)))))
      as [|Hge]; [discriminate E|].
    exists data. split; [reflexivity|]. split; [exact Hnn|].
    rewrite <- (size_of_file_shape _ Hnn). lia.
Qed.

Lemma read_single_box_needs_file_witness :
  read_single_box Demo.files Demo.model "Q" 0 0 = Raise IOError.
Proof.
  apply (proj1 (read_single_box_needs_file Demo.files Demo.model "Q" 0 0
                  "MODELS/Q0" eq_refl eq_refl)).
  reflexivity.
Defined.

(* ------------------------------------------------------------------ *)
(** ** The boxes of a depth slice in terms of the setup *)
(* ------------------------------------------------------------------ *)



(* ------------------------------------------------------------------ *)
(** ** The extreme values of a depth slice *)
(* ------------------------------------------------------------------ *)

Ltac float_cases :=
  repeat match goal with
         | s : bool |- _ => destruct s
         end;
  cbn [SFcompare float_key is_nan];
  try discriminate;
  repeat match goal with
         | |- context [Z.compare ?a ?b] => destruct (Z.compare_spec a b)
         | |- context [Pos.compare_cont Eq ?a ?b] =>
             change (Pos.compare_cont Eq a b) with (Pos.compare a b);
             destruct (Pos.compare_spec a b)
         end;
  cbn [CompOpp].

Lemma SFleb_key (f1 f2 : spec_float) :
  is_nan f1 = false -> is_nan f2 = false ->
  (SFleb f1 f2 = true <-> key_le (float_key f1) (float_key f2)).
Proof.
  unfold SFleb, key_le.
  destruct f1, f2; intros H1 H2; float_cases; cbn [fst snd];
    (split; [intros K; try discriminate K; lia|intros K; try reflexivity; lia]).
Qed.

Lemma SFltb_key (f1 f2 : spec_float) :
  is_nan f1 = false -> is_nan f2 = false ->
  (SFltb f1 f2 = true <-> ~ key_le (float_key f2) (float_key f1)).
Proof.
  unfold SFltb, key_le.
  destruct f1, f2; intros H1 H2; float_cases; cbn [fst snd];
    (split; [intros K; try discriminate K; lia|intros K; try reflexivity; lia]).
Qed.

Lemma key_le_refl (k : Z * Z * Z) : key_le k k.
Proof. unfold key_le. lia. Qed.

Lemma key_le_trans (k1 k2 k3 : Z * Z * Z) :
  key_le k1 k2 -> key_le k2 k3 -> key_le k1 k3.
Proof. unfold key_le. lia. Qed.

Lemma key_le_total (k1 k2 : Z * Z * Z) : key_le k1 k2 \/ key_le k2 k1.
Proof. unfold key_le. lia. Qed.

Lemma SFltb_nan_r (a : spec_float) : SFltb a S754_nan = false.
Proof. destruct a; reflexivity. Qed.

Lemma SFltb_nan_l (a : spec_float) : SFltb S754_nan a = false.
Proof. reflexivity. Qed.

(** The builtin [max(a, b)] never leaves a proper value for NaN, never goes
    down, and bounds its second argument unless that is NaN. *)
Lemma py_max2_bounds (a b : spec_float) :
  is_nan a = false ->
  is_nan (py_max2 a b) = false /\
  key_le (float_key a) (float_key (py_max2 a b)) /\
  (is_nan b = false -> key_le (float_key b) (float_key (py_max2 a b))).
Proof.
  intros Ha. unfold py_max2. destruct (is_nan b) eqn:Hb.
  - destruct b; try discriminate Hb. rewrite SFltb_nan_r.
    split; [exact Ha|]. split; [apply key_le_refl|discriminate].
  - destruct (SFltb a b) eqn:E.
    + apply (SFltb_key a b Ha Hb) in E.
      split; [exact Hb|]. split; [|intros _; apply key_le_refl].
      destruct (key_le_total (float_key a) (float_key b)); [assumption|contradiction].
    + split; [exact Ha|]. split; [apply key_le_refl|intros _].
      assert (Hn : ~ SFltb a b = true) by (rewrite E; discriminate).
      rewrite (SFltb_key a b Ha Hb) in Hn.
      unfold key_le in *. lia.
Qed.

Lemma py_min2_bounds (a b : spec_float) :
  is_nan a = false ->
  is_nan (py_min2 a b) = false /\
  key_le (float_key (py_min2 a b)) (float_key a) /\
  (is_nan b = false -> key_le (float_key (py_min2 a b)) (float_key b)).
Proof.
  intros Ha. unfold py_min2. destruct (is_nan b) eqn:Hb.
  - destruct b; try discriminate Hb. rewrite SFltb_nan_l.
    split; [exact Ha|]. split; [apply key_le_refl|discriminate].
  - destruct (SFltb b a) eqn:E.
    + apply (SFltb_key b a Hb Ha) in E.
      split; [exact Hb|]. split; [|intros _; apply key_le_refl].
      destruct (key_le_total (float_key b) (float_key a)); [assumption|contradiction].
    + split; [exact Ha|]. split; [apply key_le_refl|intros _].
      assert (Hn : ~ SFltb b a = true) by (rewrite E; discriminate).
      rewrite (SFltb_key b a Hb Ha) in Hn.
      unfold key_le in *. lia.
Qed.

Lemma np_maximum_bounds (a b : spec_float) :
  is_nan a = false -> is_nan b = false ->
  is_nan (np_maximum a b) = false /\
  key_le (float_key a) (float_key (np_maximum a b)) /\
  key_le (float_key b) (float_key (np_maximum a b)).
Proof.
  intros Ha Hb. unfold np_maximum. rewrite Ha, orb_false_r.
  destruct (SFleb b a) eqn:E.
  - apply (SFleb_key b a Hb Ha) in E.
    split; [exact Ha|]. split; [apply key_le_refl|exact E].
  - assert (Hn : ~ SFleb b a = true) by (rewrite E; discriminate).
    rewrite (SFleb_key b a Hb Ha) in Hn.
    split; [exact Hb|]. split; [|apply key_le_refl].
    destruct (key_le_total (float_key a) (float_key b)); [assumption|contradiction].
Qed.

Lemma np_minimum_bounds (a b : spec_float) :
  is_nan a = false -> is_nan b = false ->
  is_nan (np_minimum a b) = false /\
  key_le (float_key (np_minimum a b)) (float_key a) /\
  key_le (float_key (np_minimum a b)) (float_key b).
Proof.
  intros Ha Hb. unfold np_minimum. rewrite Ha, orb_false_r.
  destruct (SFleb a b) eqn:E.
  - apply (SFleb_key a b Ha Hb) in E.
    split; [exact Ha|]. split; [apply key_le_refl|exact E].
  - assert (Hn : ~ SFleb a b = true) by (rewrite E; discriminate).
    rewrite (SFleb_key a b Ha Hb) in Hn.
    split; [exact Hb|]. split; [|apply key_le_refl].
    destruct (key_le_total (float_key b) (float_key a)); [assumption|contradiction].
Qed.

Lemma fold_np_maximum (l : list spec_float) (x : spec_float) :
  (forall v, In v (x :: l) -> is_nan v = false) ->
  is_nan (fold_left np_maximum l x) = false /\
  forall v, In v (x :: l) ->
    key_le (float_key v) (float_key (fold_left np_maximum l x)).
Proof.
  revert x. induction l as [|b l IH]; intros x Hnan; cbn [fold_left].
  - split; [apply Hnan; left; reflexivity|].
    intros v [<-|[]]. apply key_le_refl.
  - destruct (np_maximum_bounds x b) as (Hy & Hxy & Hby);
      [apply Hnan; left; reflexivity|apply Hnan; right; left; reflexivity|].
    destruct (IH (np_maximum x b)) as (Hr & Hle).
    { intros v [<-|Hv]; [exact Hy|]. apply Hnan. right. right. exact Hv. }
    split; [exact Hr|].
    intros v [<-|[<-|Hv]].
    + eapply key_le_trans; [exact Hxy|]. apply Hle. left. reflexivity.
    + eapply key_le_trans; [exact Hby|]. apply Hle. left. reflexivity.
    + apply Hle. right. exact Hv.
Qed.

Lemma fold_np_minimum (l : list spec_float) (x : spec_float) :
  (forall v, In v (x :: l) -> is_nan v = false) ->
  is_nan (fold_left np_minimum l x) = false /\
  forall v, In v (x :: l) ->
    key_le (float_key (fold_left np_minimum l x)) (float_key v).
Proof.
  revert x. induction l as [|b l IH]; intros x Hnan; cbn [fold_left].
  - split; [apply Hnan; left; reflexivity|].
    intros v [<-|[]]. apply key_le_refl.
  - destruct (np_minimum_bounds x b) as (Hy & Hxy & Hby);
      [apply Hnan; left; reflexivity|apply Hnan; right; left; reflexivity|].
    destruct (IH (np_minimum x b)) as (Hr & Hle).
    { intros v [<-|Hv]; [exact Hy|]. apply Hnan. right. right. exact Hv. }
    split; [exact Hr|].
    intros v [<-|[<-|Hv]].
    + eapply key_le_trans; [|exact Hxy]. apply Hle. left. reflexivity.
    + eapply key_le_trans; [|exact Hby]. apply Hle. left. reflexivity.
    + apply Hle. right. exact Hv.
Qed.

Lemma reduce_bounds (s : list (list spec_float)) (hi lo : spec_float) :
  no_nan s ->
  reduce np_maximum s = Ok hi -> reduce np_minimum s = Ok lo ->
  is_nan hi = false /\ is_nan lo = false /\
  forall r v, In r s -> In v r ->
    key_le (float_key lo) (float_key v) /\ key_le (float_key v) (float_key hi).
Proof.
  intros Hnan. unfold reduce.
  destruct (List.concat s) as [|x l] eqn:Ec; [discriminate|].
  intros Hhi Hlo. injection Hhi as <-. injection Hlo as <-.
  assert (Hall : forall v, In v (x :: l) -> is_nan v = false).
  { intros v Hv. rewrite <- Ec in Hv. apply in_concat in Hv.
    destruct Hv as (r & Hr & Hv). exact (Hnan r v Hr Hv). }
  destruct (fold_np_maximum l x Hall) as [H1 Hmax].
  destruct (fold_np_minimum l x Hall) as [H2 Hmin].
  split; [exact H1|]. split; [exact H2|].
  intros r v Hr Hv.
  assert (Hin : In v (x :: l)).
  { rewrite <- Ec. apply in_concat. exists r. split; assumption. }
  split; [apply Hmin|apply Hmax]; exact Hin.
Qed.

(** What one turn of the loop does to the running extremes. *)
Lemma plot_box_extrema (fs : filesystem) (self : ses3d_fields)
    (component : string) (radius : Q) (iteration : Z)
    (loc loc' : locals_t) (p : nat) :
  plot_box fs self component radius iteration loc p = Ok loc' ->
  loc' = loc \/
  exists m hi lo,
    drawn loc' = drawn loc ++ [m] /\
    reduce np_maximum (values m) = Ok hi /\
    reduce np_minimum (values m) = Ok lo /\
    vmax loc' = py_max2 (vmax loc) hi /\
    vmin loc' = py_min2 (vmin loc) lo.
Proof.
  unfold plot_box, row. intros H.
  destruct (nth_error (z (coords self)) p) as [zrow|]; [|discriminate H].
  cbn [bind] in H. bind_inv H. rename v into inside.
  destruct inside; [|left; injection H as <-; reflexivity].
  bind_inv H.
  destruct (nth_error (theta (coords self)) p) as [trow|]; [|discriminate H].
  destruct (nth_error (phi (coords self)) p) as [prow|]; [|discriminate H].
  cbn [bind] in H. bind_inv H. bind_inv H. bind_inv H. bind_inv H.
  injection H as <-.
  right. do 3 eexists. cbn [drawn vmax vmin values].
  repeat split; eassumption.
Qed.

Lemma plot_loop_extrema (fs : filesystem) (self : ses3d_fields)
    (component : string) (radius : Q) (iteration : Z) (l : list nat)
    (loc : locals_t) :
  for_each l (plot_box fs self component radius iteration)
    (mk_locals (S754_infinity true) (S754_infinity false) None None []) = Ok loc ->
  is_nan (vmax loc) = false /\ is_nan (vmin loc) = false /\
  forall m, In m (drawn loc) -> no_nan (values m) ->
    forall r v, In r (values m) -> In v r ->
      key_le (float_key (vmin loc)) (float_key v) /\
      key_le (float_key v) (float_key (vmax loc)).
Proof.
  apply (for_each_invariant
           (fun loc =>
              is_nan (vmax loc) = false /\ is_nan (vmin loc) = false /\
              forall m, In m (drawn loc) -> no_nan (values m) ->
                forall r v, In r (values m) -> In v r ->
                  key_le (float_key (vmin loc)) (float_key v) /\
                  key_le (float_key v) (float_key (vmax loc)))).
  - intros s p s' (Hmax & Hmin & Hall) Hbody.
    destruct (plot_box_extrema _ _ _ _ _ _ _ _ Hbody)
      as [->|(m & hi & lo & Hd & Ehi & Elo & Evmax & Evmin)];
      [split; [exact Hmax|]; split; [exact Hmin|exact Hall]|].
    destruct (py_max2_bounds (vmax s) hi Hmax) as (N1 & U1 & U2).
    destruct (py_min2_bounds (vmin s) lo Hmin) as (N2 & L1 & L2).
    rewrite Evmax, Evmin, Hd.
    split; [exact N1|]. split; [exact N2|].
    intros m' Hm' Hnan r v Hr Hv. apply in_app_or in Hm'.
    destruct Hm' as [Hold|[<-|[]]].
    + destruct (Hall m' Hold Hnan r v Hr Hv) as [A B].
      split; eapply key_le_trans; eassumption.
    + destruct (reduce_bounds _ _ _ Hnan Ehi Elo) as (Nhi & Nlo & Hb).
      destruct (Hb r v Hr Hv) as [A B].
      split; eapply key_le_trans;
        [exact (L2 Nlo)|exact A|exact B|exact (U2 Nhi)].
  - split; [reflexivity|]. split; [reflexivity|]. intros m [].
Qed.

(** X21: the extreme values reported for a depth slice.  When
    [plot_depth_slice] returns, vmin and vmax are never NaN, and for every
    drawn mesh whose slice holds no NaN each value v of the slice satisfies
    vmin <= v <= vmax in the order of the float comparison.  A slice that
    holds a NaN puts no constraint on them: its maximum is NaN, which the
    builtin [max] and [min] pass over. *)
Theorem plot_depth_slice_extreme_values
    (fs : filesystem) (self : ses3d_fields) (component : string)
    (depth : Q) (iteration : Z) (fig : figure_t) :
  plot_depth_slice fs self component depth iteration = Ok fig ->
  is_nan (value_min fig) = false /\ is_nan (value_max fig) = false /\
  forall m, In m (meshes fig) -> no_nan (values m) ->
    forall r v, In r (values m) -> In v r ->
      SFleb (value_min fig) v = true /\ SFleb v (value_max fig) = true.
Proof.
  intros H. apply plot_depth_slice_inv in H.
  destruct H as (lines & loc & _ & Eloop & Hm' & _ & Evmin & Evmax & _).
  rewrite Hm', Evmin, Evmax.
  destruct (plot_loop_extrema _ _ _ _ _ _ _ Eloop) as (Hmax & Hmin & Hall).
  split; [exact Hmin|]. split; [exact Hmax|].
  intros m Hm Hnan r x Hr Hx.
  destruct (Hall m Hm Hnan r x Hr Hx) as [A B].
  pose proof (Hnan r x Hr Hx) as Nv.
  split.
  - apply (SFleb_key _ _ Hmin Nv). exact A.
  - apply (SFleb_key _ _ Nv Hmax). exact B.
Qed.

Lemma plot_depth_slice_extreme_values_witness :
  exists fig,
    plot_depth_slice Demo.files Demo.model "vp" 300 0 = Ok fig /\
    is_nan (value_min fig) = false /\ is_nan (value_max fig) = false.
Proof.
  destruct (plot_depth_slice Demo.files Demo.model "vp" 300 0) as [fig|e] eqn:E.
  - exists fig. split; [reflexivity|].
    destruct (plot_depth_slice_extreme_values Demo.files Demo.model "vp" 300 0
                fig E) as (H1 & H2 & _).
    split; assumption.
  - vm_compute in E. discriminate E.
Defined.

(** In the example the slice of vp at 300 km holds the single value 2.0, and
    both extremes are 2.0. *)
Example demo_extreme_values :
  exists fig,
    plot_depth_slice Demo.files Demo.model "vp" 300 0 = Ok fig /\
    value_min fig = S754_finite false 8388608 (-22) /\
    value_max fig = S754_finite false 8388608 (-22).
Proof.
  eexists. split; [vm_compute; reflexivity|]. split; reflexivity.
Qed.
